(** * USB passthrough manager (winboat, [src/renderer/lib/usbmanager.ts])

    A shallow embedding of the [USBManager] class and of the helper functions
    of its module, and the properties of the passthrough specification stated
    over it.

    Conventions of the embedding.
    - A JavaScript string is a [string]; each [ascii] stands for one code
      unit in the range 0..255, so the white space of [\s] and [trim()] is
      the set 9..13, 32, 160 and the line terminators of [.] and [$] are 10
      and 13.
    - A USB identifier (an unsigned field of the device descriptor) is an [N].
    - A [Map] and an object used as a dictionary are a [gmap] with string keys.
    - [null] and [undefined] are [None]; a string is falsy when it is empty.
    - Exceptions and the mutable fields of the manager and of its
      collaborators are threaded by a state-and-exception monad. *)

From Stdlib Require Import NArith Ascii String HexadecimalString HexadecimalN.
From stdpp Require Import base option list gmap strings.

Local Open Scope string_scope.

(** ** JavaScript strings *)

Module JS.

Definition tab : ascii := "009"%char.

(** White space in the sense of [\s] and of [String.prototype.trim]. *)
Definition isWhiteSpace (c : ascii) : bool :=
  match N_of_ascii c with
  | 9%N | 10%N | 11%N | 12%N | 13%N | 32%N | 160%N => true
  | _ => false
  end.

(** Line terminators: what [.] refuses and what [$] looks at. *)
Definition isLineTerminator (c : ascii) : bool :=
  match N_of_ascii c with
  | 10%N | 13%N => true
  | _ => false
  end.

Definition isDigit (c : ascii) : bool :=
  let n := N_of_ascii c in (48 <=? n)%N && (n <=? 57)%N.

(** The class [[0-9a-f]] as it is written, before the [i] flag. *)
Definition isLowerHex (c : ascii) : bool :=
  let n := N_of_ascii c in
  (48 <=? n)%N && (n <=? 57)%N || (97 <=? n)%N && (n <=? 102)%N.

Definition isDot (c : ascii) : bool := negb (isLineTerminator c).

(** Simple case mappings on the code units 0..255 whose image stays in
    that range. *)
Definition toUpperChar (c : ascii) : ascii :=
  let n := N_of_ascii c in
  if (97 <=? n)%N && (n <=? 122)%N
     || (224 <=? n)%N && (n <=? 254)%N && negb (n =? 247)%N
  then ascii_of_N (n - 32) else c.

Definition toLowerChar (c : ascii) : ascii :=
  let n := N_of_ascii c in
  if (65 <=? n)%N && (n <=? 90)%N
     || (192 <=? n)%N && (n <=? 222)%N && negb (n =? 215)%N
  then ascii_of_N (n + 32) else c.

Fixpoint toLowerCase (s : string) : string :=
  match s with
  | EmptyString => EmptyString
  | String c s' => String (toLowerChar c) (toLowerCase s')
  end.

Fixpoint all (p : ascii -> bool) (s : string) : bool :=
  match s with
  | EmptyString => true
  | String c s' => p c && all p s'
  end.

Fixpoint trimStart (s : string) : string :=
  match s with
  | EmptyString => EmptyString
  | String c s' => if isWhiteSpace c then trimStart s' else s
  end.

Fixpoint trimEnd (s : string) : string :=
  match s with
  | EmptyString => EmptyString
  | String c s' =>
      match trimEnd s' with
      | EmptyString => if isWhiteSpace c then EmptyString else String c EmptyString
      | t => String c t
      end
  end.

Definition trim (s : string) : string := trimEnd (trimStart s).

Definition isEmpty (s : string) : bool :=
  match s with EmptyString => true | _ => false end.

(** [s.startsWith(c)] for a one-character argument. *)
Definition startsWithChar (c : ascii) (s : string) : bool :=
  match s with
  | String c' _ => Ascii.eqb c' c
  | EmptyString => false
  end.

(** [s[i]]: [None] is [undefined]. *)
Definition charAt (i : nat) (s : string) : option ascii := String.get i s.

(** [s.split(c)] for a one-character separator: never an empty list. *)
Fixpoint split (sep : ascii) (s : string) : list string :=
  match s with
  | EmptyString => [EmptyString]
  | String c s' =>
      if Ascii.eqb c sep then EmptyString :: split sep s'
      else match split sep s' with
           | piece :: pieces => String c piece :: pieces
           | [] => [String c EmptyString]
           end
  end.

Fixpoint repeatChar (n : nat) (c : ascii) : string :=
  match n with
  | O => EmptyString
  | S n' => String c (repeatChar n' c)
  end.

(** [s.padStart(n, c)] for a one-character filler. *)
Definition padStart (n : nat) (c : ascii) (s : string) : string :=
  repeatChar (n - String.length s) c ++ s.

(** [n.toString(16)] for a non-negative integer. *)
Definition toString16 (n : N) : string :=
  NilEmpty.string_of_uint (N.to_hex_uint n).

(** [s || fallback] and [s ? s : fallback] on a possibly absent string. *)
Definition truthy (s : option string) : option string :=
  match s with
  | Some EmptyString => None
  | other => other
  end.

Definition orElse (s : option string) (fallback : string) : string :=
  default fallback (truthy s).

End JS.

(** ** Regular expressions

    The fragment of the regular expression syntax the module uses, with the
    backtracking semantics of ECMAScript: a matcher takes a continuation,
    and a greedy quantifier first tries one more repetition and falls back
    to the continuation. Quantifiers apply to character classes only, as
    they do in the four expressions of the source. *)

Module Regex.
Import JS.

Record flags := Flags { ignoreCase : bool; multiline : bool }.

Inductive regex : Type :=
| Eps
| Bol                                              (* ^ *)
| Eol                                              (* $ *)
| Chr (c : ascii)                                  (* a literal character *)
| Rep (p : ascii -> bool) (lo : nat) (hi : option nat)
                                                   (* class{lo,hi}, greedy *)
| Seq (r1 r2 : regex)
| Grp (r : regex).                                 (* ( ... ) *)

Fixpoint lit (s : string) : regex :=
  match s with
  | EmptyString => Eps
  | String c s' => Seq (Chr c) (lit s')
  end.

(** A class under the [i] flag: some member of the class has the same
    canonical form as the character. *)
Definition classMatch (fl : flags) (p : ascii -> bool) (c : ascii) : bool :=
  if ignoreCase fl then p c || p (toLowerChar c) || p (toUpperChar c)
  else p c.

Definition charMatch (fl : flags) (c c' : ascii) : bool :=
  if ignoreCase fl then Ascii.eqb (toUpperChar c) (toUpperChar c')
  else Ascii.eqb c c'.

Definition hiReached (hi : option nat) : bool :=
  match hi with Some O => true | _ => false end.

Definition hiPred (hi : option nat) : option nat :=
  match hi with Some n => Some (Nat.pred n) | None => None end.

Section Matcher.
Context {R : Type}.

(** Greedy repetition of a one-character test; [prev] is the character
    before the current position. *)
Fixpoint rep (ok : ascii -> bool) (lo : nat) (hi : option nat)
    (prev : option ascii) (s : string)
    (k : option ascii -> string -> option R) : option R :=
  let stop := match lo with O => k prev s | S _ => None end in
  if hiReached hi then stop
  else match s with
       | String c s' =>
           if ok c then
             match rep ok (Nat.pred lo) (hiPred hi) (Some c) s' k with
             | Some r => Some r
             | None => stop
             end
           else stop
       | EmptyString => stop
       end.

(** The character before the position reached by reading [t]. *)
Fixpoint lastOr (prev : option ascii) (t : string) : option ascii :=
  match t with
  | EmptyString => prev
  | String c t' => lastOr (Some c) t'
  end.

(** The text between two positions, the second a suffix of the first. *)
Definition consumed (s s' : string) : string :=
  String.substring 0 (String.length s - String.length s') s.

Fixpoint run (fl : flags) (r : regex) (prev : option ascii) (s : string)
    (caps : list string)
    (k : option ascii -> string -> list string -> option R) : option R :=
  match r with
  | Eps => k prev s caps
  | Bol =>
      match prev with
      | None => k prev s caps
      | Some c =>
          if multiline fl && isLineTerminator c then k prev s caps else None
      end
  | Eol =>
      match s with
      | EmptyString => k prev s caps
      | String c _ =>
          if multiline fl && isLineTerminator c then k prev s caps else None
      end
  | Chr c =>
      match s with
      | String c' s' =>
          if charMatch fl c c' then k (Some c') s' caps else None
      | EmptyString => None
      end
  | Rep p lo hi =>
      rep (classMatch fl p) lo hi prev s (fun prev' s' => k prev' s' caps)
  | Seq r1 r2 =>
      run fl r1 prev s caps (fun prev' s' caps' => run fl r2 prev' s' caps' k)
  | Grp r' =>
      run fl r' prev s caps
        (fun prev' s' caps' => k prev' s' (caps' ++ [consumed s s'])%list)
  end.
End Matcher.

(** One attempt at the current position: the whole match, then the groups. *)
Definition matchHere (fl : flags) (r : regex) (prev : option ascii)
    (s : string) : option (list string) :=
  run fl r prev s [] (fun _ s' caps => Some (consumed s s' :: caps)).

(** The start positions from left to right; the first success wins. *)
Fixpoint search (fl : flags) (r : regex) (prev : option ascii) (s : string)
    : option (list string) :=
  match matchHere fl r prev s with
  | Some m => Some m
  | None =>
      match s with
      | EmptyString => None
      | String c s' => search fl r (Some c) s'
      end
  end.

(** [s.match(r)] for an expression without the [g] flag. *)
Definition exec (fl : flags) (r : regex) (s : string) : option (list string) :=
  search fl r None s.

(** [m[i]] of a match array. *)
Definition group (i : nat) (m : list string) : string := default "" (m !! i).

End Regex.

(** ** Data model *)

(** [LinuxDeviceDatabase]: [Record<string, { name, devices }>]. *)
Module Vendor.
Record t := mk {
  name : string;
  devices : gmap string string
}.
End Vendor.

Abbreviation LinuxDeviceDatabase := (gmap string Vendor.t).

Record DeviceStrings := mkDeviceStrings {
  manufacturer : option string;
  product : option string
}.

(** [PTSerializableDeviceInfo]: the identifier pair and the device strings. *)
Record PTSerializableDeviceInfo := mkPT {
  vendorId : N;
  productId : N;
  strings : DeviceStrings
}.

(** A live device: [device.deviceDescriptor.idVendor] and [idProduct]. *)
Record Device := mkDevice {
  idVendor : N;
  idProduct : N
}.

(** ** The database loader *)

Module Loader.
Import JS Regex.

Definition caseInsensitive : flags := Flags true false.

(** [([0-9a-f]{4})\s+(.+)$], the part the two expressions share. *)
Definition entryTail : regex :=
  Seq (Grp (Rep isLowerHex 4 (Some 4)))
      (Seq (Rep isWhiteSpace 1 None)
      (Seq (Grp (Rep isDot 1 None)) Eol)).

(** [/^([0-9a-f]{4})\s+(.+)$/i] *)
Definition vendorLine : regex := Seq Bol entryTail.

(** [/^\t([0-9a-f]{4})\s+(.+)$/i] *)
Definition deviceLine : regex := Seq Bol (Seq (Chr tab) entryTail).

Definition isTab (c : option ascii) : bool :=
  match c with Some c' => Ascii.eqb c' tab | None => false end.

Definition addDevice (id nm : string) (v : Vendor.t) : Vendor.t :=
  Vendor.mk (Vendor.name v) (<[id := nm]> (Vendor.devices v)).

(** The body of the loop over the lines: the database built so far and
    [currentVendor]. *)
Definition loadLine (st : LinuxDeviceDatabase * option string) (line : string)
    : LinuxDeviceDatabase * option string :=
  let '(vendors, currentVendor) := st in
  if startsWithChar "#" line || isEmpty (trim line) then st
  else if negb (isTab (charAt 0 line)) then
    match exec caseInsensitive vendorLine line with
    | Some m =>
        let current := toLowerCase (group 1 m) in
        (<[current := Vendor.mk (trim (group 2 m)) ∅]> vendors,
         Some current)
    | None => st
    end
  else if isTab (charAt 0 line) && negb (isTab (charAt 1 line)) then
    match exec caseInsensitive deviceLine line, truthy currentVendor with
    | Some m, Some current =>
        (alter (addDevice (toLowerCase (group 1 m)) (trim (group 2 m)))
               current vendors,
         currentVendor)
    | _, _ => st
    end
  else st.

(** [readLinuxDeviceDatabase], from the text of the file. *)
Definition readLinuxDeviceDatabase (content : string) : LinuxDeviceDatabase :=
  fst (fold_left loadLine (split "010" content) (∅, None)).

End Loader.


(** ** Effects

    A computation reads and writes a state and either returns a value or
    throws; the state it leaves behind is kept in both cases, as the
    assignments made before a [throw] are. *)

Inductive Error : Type :=
| StringsNotInCache (key : string)
    (* Error("Device strings for device <key> not found in cache. ...") *)
| AlreadyInPassthroughList (ptDevice : PTSerializableDeviceInfo)
    (* Error("Device ... is already in the passthrough list") *)
| CommandFailed (command : string).
    (* what execSync throws *)

Definition M (S A : Type) : Type := S -> (Error + A) * S.

#[global] Instance M_ret {S} : MRet (M S) :=
  fun A (a : A) s => (inr a, s).

#[global] Instance M_bind {S} : MBind (M S) :=
  fun A B (f : A -> M S B) (m : M S A) s =>
    match m s with
    | (inl e, s') => (inl e, s')
    | (inr a, s') => f a s'
    end.

Definition throw {S A} (e : Error) : M S A := fun s => (inl e, s).

(** [try { body } catch (e) { handler }] *)
Definition tryCatch {S A} (body : M S A) (handler : Error -> M S A) : M S A :=
  fun s =>
    match body s with
    | (inl e, s') => handler e s'
    | (inr a, s') => (inr a, s')
    end.

Definition gets {S A} (f : S -> A) : M S A := fun s => (inr (f s), s).

Definition modify {S} (f : S -> S) : M S unit := fun s => (inr tt, f s).

(** [for (const x of xs) { body }] and [xs.forEach(body)] *)
Fixpoint forEach {S A} (xs : list A) (body : A -> M S unit) : M S unit :=
  match xs with
  | [] => mret tt
  | x :: xs' => body x ;; forEach xs' body
  end.

(** [a && b] on computations: [b] is not run when [a] is false. *)
Definition andThen {S} (a b : M S bool) : M S bool :=
  x ← a; if x : bool then b else mret false.

(** [!a] on a computation. *)
Definition notM {S} (a : M S bool) : M S bool :=
  x ← a; mret (negb x).

(** A block that assigns to local variables [L] of the enclosing function:
    the locals are state for the block, so that what was assigned before
    a [throw] is seen after the [catch]. *)
Definition liftLocal {L S A} (m : M S A) : M (L * S) A :=
  fun ls => let '(r, s') := m (snd ls) in (r, (fst ls, s')).

Definition withLocals {L S} (l : L) (block : M (L * S) unit) : M S L :=
  fun s =>
    let '(r, ls') := block (l, s) in
    (match r with inl e => inl e | inr _ => inr (fst ls') end, snd ls').

(** An [async] callback run by an event emitter: a rejection does not
    reach the emitter. *)
Definition detached {S} (m : M S unit) : M S unit :=
  fun s => (inr tt, snd (m s)).

(** ** The manager and its collaborators *)

(** A call on the VM control channel that changes the guest. *)
Inductive QMPCall : Type :=
| AddDevice (vendorId productId : N)
| RemoveDevice (vendorId productId : N).

(** The callbacks the class defines: the two of [#setupUpdateListeners]
    and the one of [#setupGuestOnlineListener]. They are arrow functions,
    so each keeps the object that registered it as its [this]: [0] is the
    object the class keeps in [USBManager.instance], [S i] the [i]-th
    object made after it. *)
Inductive UsbCallback : Type :=
| AttachCallback (this : nat)
| DetachCallback (this : nat).
Inductive OnlineCallback : Type := GuestOnlineCallback.

(** The fields of a [USBManager] object. *)
Record Object := mkObject {
  its_devices : list Device;
  its_ptDevices : list PTSerializableDeviceInfo;
  its_linuxDeviceDatabase : LinuxDeviceDatabase;
  its_deviceStringCache : gmap string DeviceStrings
}.

(** The state of the program. The four fields of [USBManager.instance],
    the object every caller of the class works with, come first. The
    objects made by later [new USBManager()] expressions are not returned
    to anybody, but their callbacks stay registered: [laterObjects] holds
    their fields. [Winboat] and [WinboatConfig] are not part of this
    source; the view constructs them next to the manager and reads the
    same values through them, so every [new Winboat()] and
    [new WinboatConfig()] is taken to give the application's one object. *)
Record World {VM : Type} := mkWorld {
  (* USBManager.instance *)
  devices : list Device;                          (* devices.value *)
  ptDevices : list PTSerializableDeviceInfo;      (* ptDevices.value *)
  linuxDeviceDatabase : LinuxDeviceDatabase;
  deviceStringCache : gmap string DeviceStrings;
  (* WinboatConfig: #wbConfig.config.passedThroughDevices *)
  passedThroughDevices : list PTSerializableDeviceInfo;
  (* Winboat: #winboat.isOnline.value and the callbacks of watch(isOnline) *)
  isOnline : bool;
  onlineWatchers : list OnlineCallback;
  (* usb: what getDeviceList() returns, and usb.on("attach" | "detach") *)
  hostDevices : list Device;
  attachListeners : list UsbCallback;
  detachListeners : list UsbCallback;
  (* VM control channel: the guest and the calls made so far *)
  vm : VM;
  qmpCalls : list QMPCall;
  (* child_process: the number of execSync invocations so far *)
  execCalls : nat;
  (* the USBManager objects made after the instance *)
  laterObjects : list Object
}.
Arguments World : clear implicits.
Arguments mkWorld {VM}.

Section Setters.
Context {VM : Type}.
Implicit Type w : World VM.

Definition set_devices (x : list Device) w : World VM :=
  mkWorld x (ptDevices w) (linuxDeviceDatabase w) (deviceStringCache w)
    (passedThroughDevices w) (isOnline w) (onlineWatchers w) (hostDevices w)
    (attachListeners w) (detachListeners w) (vm w) (qmpCalls w) (execCalls w) (laterObjects w).

Definition set_ptDevices (x : list PTSerializableDeviceInfo) w : World VM :=
  mkWorld (devices w) x (linuxDeviceDatabase w) (deviceStringCache w)
    (passedThroughDevices w) (isOnline w) (onlineWatchers w) (hostDevices w)
    (attachListeners w) (detachListeners w) (vm w) (qmpCalls w) (execCalls w) (laterObjects w).

Definition set_linuxDeviceDatabase (x : LinuxDeviceDatabase) w : World VM :=
  mkWorld (devices w) (ptDevices w) x (deviceStringCache w)
    (passedThroughDevices w) (isOnline w) (onlineWatchers w) (hostDevices w)
    (attachListeners w) (detachListeners w) (vm w) (qmpCalls w) (execCalls w) (laterObjects w).

Definition set_deviceStringCache (x : gmap string DeviceStrings) w : World VM :=
  mkWorld (devices w) (ptDevices w) (linuxDeviceDatabase w) x
    (passedThroughDevices w) (isOnline w) (onlineWatchers w) (hostDevices w)
    (attachListeners w) (detachListeners w) (vm w) (qmpCalls w) (execCalls w) (laterObjects w).

Definition set_passedThroughDevices (x : list PTSerializableDeviceInfo) w
    : World VM :=
  mkWorld (devices w) (ptDevices w) (linuxDeviceDatabase w)
    (deviceStringCache w) x (isOnline w) (onlineWatchers w) (hostDevices w)
    (attachListeners w) (detachListeners w) (vm w) (qmpCalls w) (execCalls w) (laterObjects w).

Definition set_isOnline (x : bool) w : World VM :=
  mkWorld (devices w) (ptDevices w) (linuxDeviceDatabase w)
    (deviceStringCache w) (passedThroughDevices w) x (onlineWatchers w)
    (hostDevices w) (attachListeners w) (detachListeners w) (vm w)
    (qmpCalls w) (execCalls w) (laterObjects w).

Definition set_onlineWatchers (x : list OnlineCallback) w : World VM :=
  mkWorld (devices w) (ptDevices w) (linuxDeviceDatabase w)
    (deviceStringCache w) (passedThroughDevices w) (isOnline w) x
    (hostDevices w) (attachListeners w) (detachListeners w) (vm w)
    (qmpCalls w) (execCalls w) (laterObjects w).

Definition set_hostDevices (x : list Device) w : World VM :=
  mkWorld (devices w) (ptDevices w) (linuxDeviceDatabase w)
    (deviceStringCache w) (passedThroughDevices w) (isOnline w)
    (onlineWatchers w) x (attachListeners w) (detachListeners w) (vm w)
    (qmpCalls w) (execCalls w) (laterObjects w).

Definition set_usbListeners (a d : list UsbCallback) w : World VM :=
  mkWorld (devices w) (ptDevices w) (linuxDeviceDatabase w)
    (deviceStringCache w) (passedThroughDevices w) (isOnline w)
    (onlineWatchers w) (hostDevices w) a d (vm w) (qmpCalls w) (execCalls w) (laterObjects w).

Definition set_vm (x : VM) (calls : list QMPCall) w : World VM :=
  mkWorld (devices w) (ptDevices w) (linuxDeviceDatabase w)
    (deviceStringCache w) (passedThroughDevices w) (isOnline w)
    (onlineWatchers w) (hostDevices w) (attachListeners w)
    (detachListeners w) x calls (execCalls w) (laterObjects w).

Definition set_execCalls (x : nat) w : World VM :=
  mkWorld (devices w) (ptDevices w) (linuxDeviceDatabase w)
    (deviceStringCache w) (passedThroughDevices w) (isOnline w)
    (onlineWatchers w) (hostDevices w) (attachListeners w)
    (detachListeners w) (vm w) (qmpCalls w) x (laterObjects w).

Definition set_laterObjects (x : list Object) w : World VM :=
  mkWorld (devices w) (ptDevices w) (linuxDeviceDatabase w)
    (deviceStringCache w) (passedThroughDevices w) (isOnline w)
    (onlineWatchers w) (hostDevices w) (attachListeners w)
    (detachListeners w) (vm w) (qmpCalls w) (execCalls w) x.

(** The fields of the instance, and a world in which the fields of an
    object stand where the instance's are. *)
Definition fieldsOf w : Object :=
  mkObject (devices w) (ptDevices w) (linuxDeviceDatabase w)
           (deviceStringCache w).

Definition withFields (o : Object) w : World VM :=
  mkWorld (its_devices o) (its_ptDevices o) (its_linuxDeviceDatabase o)
    (its_deviceStringCache o) (passedThroughDevices w) (isOnline w)
    (onlineWatchers w) (hostDevices w) (attachListeners w)
    (detachListeners w) (vm w) (qmpCalls w) (execCalls w) (laterObjects w).

(** A method run with [this] bound to the object [self]. For a later
    object its fields stand in for the instance's during the call, and are
    put back into [laterObjects] after it; everything else is the one
    state of the program. *)
Definition withThis (self : nat) (m : M (World VM) unit) : M (World VM) unit :=
  match self with
  | 0 => m
  | S i =>
      fun w =>
        match laterObjects w !! i with
        | None => (inr tt, w)
        | Some o =>
            let '(r, w') := m (withFields o w) in
            (r, withFields (fieldsOf w)
                  (set_laterObjects (<[i := fieldsOf w']> (laterObjects w')) w'))
        end
  end.

End Setters.

(** ** The class [USBManager] and the functions of its module

    The source's [QMPCheckIfDeviceExists], [QMPAddDevice] and
    [QMPRemoveDevice] are placeholders for the VM control channel (the
    first answers [false], the other two only log). The embedding takes the
    channel as a parameter: a guest state with an existence query and the
    effect of adding and of removing a device; [Stub] below is the
    source's instance. The host's answer to the [n]-th [execSync]
    invocation is a parameter as well ([None]: the command fails). *)

Module Lsusb.
Import JS Regex.

Definition multilineFlag : flags := Flags false true.

(** [/^\s*iManufacturer\s+\d+\s+(.+)$/m] and [/^\s*iProduct\s+\d+\s+(.+)$/m] *)
Definition field (label : string) : regex :=
  Seq Bol (Seq (Rep isWhiteSpace 0 None) (Seq (lit label)
    (Seq (Rep isWhiteSpace 1 None) (Seq (Rep isDigit 1 None)
    (Seq (Rep isWhiteSpace 1 None) (Seq (Grp (Rep isDot 1 None)) Eol)))))).

Definition command (vidHex pidHex : string) : string :=
  "lsusb -d " ++ vidHex ++ ":" ++ pidHex ++ " -v 2>/dev/null".

(** The two fields read from the output of the command. *)
Definition parse (lsusbOutput : string) : DeviceStrings :=
  let manufacturerMatch := exec multilineFlag (field "iManufacturer") lsusbOutput in
  let manufacturer := (fun m => trim (group 1 m)) <$> manufacturerMatch in
  let productMatch := exec multilineFlag (field "iProduct") lsusbOutput in
  let product := (fun m => trim (group 1 m)) <$> productMatch in
  mkDeviceStrings manufacturer product.

End Lsusb.

Section Manager.
Import JS.
Context {VM : Type}.
Variable vmExists : VM -> N -> N -> bool.
Variable vmAdd : VM -> N -> N -> VM.
Variable vmRemove : VM -> N -> N -> VM.
Variable hostExec : nat -> string -> option string.

Abbreviation W := (World VM).

Definition QMPCheckIfDeviceExists (vendorId productId : N) : M W bool :=
  gets (fun w => vmExists (vm w) vendorId productId).

Definition QMPAddDevice (vendorId productId : N) : M W unit :=
  modify (fun w => set_vm (vmAdd (vm w) vendorId productId)
                          (qmpCalls w ++ [AddDevice vendorId productId])%list w).

Definition QMPRemoveDevice (vendorId productId : N) : M W unit :=
  modify (fun w => set_vm (vmRemove (vm w) vendorId productId)
                          (qmpCalls w ++ [RemoveDevice vendorId productId])%list w).

Definition execSync (command : string) : M W string :=
  n ← gets execCalls;
  modify (set_execCalls (S n)) ;;
  match hostExec n command with
  | Some output => mret output
  | None => throw (CommandFailed command)
  end.

Definition getDeviceStringsFromLsusb (vidHex pidHex : string)
    : M W DeviceStrings :=
  tryCatch
    (lsusbOutput ← execSync (Lsusb.command vidHex pidHex);
     mret (Lsusb.parse lsusbOutput))
    (fun error => mret (mkDeviceStrings None None)).

(** [n.toString(16).padStart(4, "0")] *)
Definition hex4 (n : N) : string := padStart 4 "0" (toString16 n).

Definition cacheKey (vendorIdHex productIdHex : string) : string :=
  vendorIdHex ++ ":" ++ productIdHex.

Definition keyOf (device : Device) : string :=
  cacheKey (hex4 (idVendor device)) (hex4 (idProduct device)).

(** The template [[VID:PID] Vendor Name | Product Name]. *)
Definition display (vendorIdHex productIdHex vendorName productName : string)
    : string :=
  "[" ++ vendorIdHex ++ ":" ++ productIdHex ++ "] " ++ vendorName
      ++ " | " ++ productName.

(** The local variables [vendor] and [product] of [stringifyDevice]. *)
Definition Locals : Type := option Vendor.t * option string.

Definition set_vendor (v : option Vendor.t) (ls : Locals * W) : Locals * W :=
  ((v, snd (fst ls)), snd ls).

Definition set_product (p : option string) (ls : Locals * W) : Locals * W :=
  ((fst (fst ls), p), snd ls).

(** The body of the [try] block of [stringifyDevice]. *)
Definition fetchStrings (vendorIdHex productIdHex : string)
    : M (Locals * W) unit :=
  found ← gets (fun ls : Locals * W => snd (fst ls));
  (if truthy found is None then
     deviceStrings ← liftLocal (getDeviceStringsFromLsusb vendorIdHex productIdHex);
     modify (set_product (product deviceStrings))
   else mret tt) ;;
  vendor ← gets (fun ls : Locals * W => fst (fst ls));
  if truthy (Vendor.name <$> vendor) is None then
    deviceStrings ← liftLocal (getDeviceStringsFromLsusb vendorIdHex productIdHex);
    match truthy (manufacturer deviceStrings) with
    | Some m => modify (set_vendor (Some (Vendor.mk m ∅)))
    | None => mret tt
    end
  else mret tt.

Definition stringifyDevice (device : Device) : M W string :=
  let vendorIdHex := hex4 (idVendor device) in
  let productIdHex := hex4 (idProduct device) in
  let key := cacheKey vendorIdHex productIdHex in
  cache ← gets deviceStringCache;
  match cache !! key with
  | Some cached =>
      mret (display vendorIdHex productIdHex
              (orElse (manufacturer cached) "Unknown Vendor")
              (orElse (product cached) "Unknown Product"))
  | None =>
      database ← gets linuxDeviceDatabase;
      let vendor := database !! vendorIdHex in
      let found := vendor ≫= fun v => Vendor.devices v !! productIdHex in
      locals ← withLocals (vendor, found)
        (tryCatch (fetchStrings vendorIdHex productIdHex)
                  (fun e => mret tt));
      let '(vendor, found) := locals in
      modify (fun w => set_deviceStringCache
        (<[key := mkDeviceStrings (truthy (Vendor.name <$> vendor))
                                  (truthy found)]> (deviceStringCache w)) w) ;;
      mret (display vendorIdHex productIdHex
              (match vendor with
               | Some v => Vendor.name v
               | None => "Unknown Vendor"
               end)
              (orElse found "Unknown Product"))
  end.

Definition stringifyPTSerializableDevice (device : PTSerializableDeviceInfo)
    : string :=
  let vendorIdHex := hex4 (vendorId device) in
  let productIdHex := hex4 (productId device) in
  display vendorIdHex productIdHex
    (orElse (manufacturer (strings device)) "Unknown Vendor")
    (orElse (product (strings device)) "Unknown Product").

Definition convertDeviceToPTSerializable (device : Device)
    : M W PTSerializableDeviceInfo :=
  let productIdHex := hex4 (idProduct device) in
  let vendorIdHex := hex4 (idVendor device) in
  cache ← gets deviceStringCache;
  match cache !! cacheKey vendorIdHex productIdHex with
  | None => throw (StringsNotInCache (cacheKey vendorIdHex productIdHex))
  | Some deviceStrings =>
      mret (mkPT (idVendor device) (idProduct device) deviceStrings)
  end.

(** [d.vendorId === v && d.productId === p] *)
Definition hasPair (v p : N) (d : PTSerializableDeviceInfo) : bool :=
  (vendorId d =? v)%N && (productId d =? p)%N.

Definition addDeviceToPassthroughList (device : Device) : M W unit :=
  ptDevice ← convertDeviceToPTSerializable device;
  current ← gets passedThroughDevices;
  match List.find (hasPair (vendorId ptDevice) (productId ptDevice)) current with
  | Some _ => throw (AlreadyInPassthroughList ptDevice)
  | None =>
      modify (set_passedThroughDevices (current ++ [ptDevice])%list) ;;
      stored ← gets passedThroughDevices;
      modify (set_ptDevices stored) ;;
      attached ← QMPCheckIfDeviceExists (vendorId ptDevice) (productId ptDevice);
      if negb attached
      then QMPAddDevice (vendorId ptDevice) (productId ptDevice)
      else mret tt
  end.

(** The predicate of the [filter] of [removeDeviceFromPassthroughList]:
    [d.vendorId !== v && d.productId !== p]. *)
Definition keptOnRemove (v p : N) (d : PTSerializableDeviceInfo) : bool :=
  negb (vendorId d =? v)%N && negb (productId d =? p)%N.

Definition removeDeviceFromPassthroughList (ptDevice : PTSerializableDeviceInfo)
    : M W unit :=
  current ← gets passedThroughDevices;
  modify (set_passedThroughDevices
    (List.filter (keptOnRemove (vendorId ptDevice) (productId ptDevice)) current)) ;;
  stored ← gets passedThroughDevices;
  modify (set_ptDevices stored) ;;
  attached ← QMPCheckIfDeviceExists (vendorId ptDevice) (productId ptDevice);
  if attached : bool
  then QMPRemoveDevice (vendorId ptDevice) (productId ptDevice)
  else mret tt.

Definition isDeviceInPassthroughList (device : Device) : M W bool :=
  ptDevice ← convertDeviceToPTSerializable device;
  current ← gets passedThroughDevices;
  mret (existsb (hasPair (vendorId ptDevice) (productId ptDevice)) current).

Definition isPTDeviceConnected (ptDevice : PTSerializableDeviceInfo) : M W bool :=
  live ← gets devices;
  mret (existsb (fun d => (idVendor d =? vendorId ptDevice)%N
                          && (idProduct d =? productId ptDevice)%N) live).

(** The callback of [usb.on("attach", ...)]. *)
Definition onAttach (device : Device) : M W unit :=
  live ← gets hostDevices;
  modify (set_devices live) ;;
  stringifyDevice device ;;
  go ← andThen (gets isOnline)
        (andThen (isDeviceInPassthroughList device)
                 (notM (QMPCheckIfDeviceExists (idVendor device) (idProduct device))));
  if go : bool then
    stringifyDevice device ;;
    QMPAddDevice (idVendor device) (idProduct device)
  else mret tt.

(** The callback of [usb.on("detach", ...)]. *)
Definition onDetach (device : Device) : M W unit :=
  live ← gets hostDevices;
  modify (set_devices live) ;;
  stringifyDevice device ;;
  go ← andThen (gets isOnline)
        (andThen (isDeviceInPassthroughList device)
                 (QMPCheckIfDeviceExists (idVendor device) (idProduct device)));
  if go : bool then
    stringifyDevice device ;;
    QMPRemoveDevice (idVendor device) (idProduct device)
  else mret tt.

(** [self] is the object whose method this is: the [this] the two arrow
    functions keep. *)
Definition setupUpdateListeners (self : nat) : M W unit :=
  modify (fun w => set_usbListeners
                     (attachListeners w ++ [AttachCallback self])%list
                     (detachListeners w ++ [DetachCallback self])%list w).

(** The callback of [watch(this.#winboat.isOnline, ...)]. *)
Definition onGuestOnline (online : bool) : M W unit :=
  if negb online then mret tt
  else
    persisted ← gets passedThroughDevices;
    forEach persisted (fun ptDevice =>
      go ← andThen (isPTDeviceConnected ptDevice)
            (notM (QMPCheckIfDeviceExists (vendorId ptDevice) (productId ptDevice)));
      if go : bool
      then QMPAddDevice (vendorId ptDevice) (productId ptDevice)
      else mret tt).

Definition setupGuestOnlineListener : M W unit :=
  modify (fun w => set_onlineWatchers
                     (onlineWatchers w ++ [GuestOnlineCallback])%list w).

(** The body of the constructor, run on an object [self] whose fields
    have their initial values; [content] is the text of the database
    file, read by [fs.readFileSync]. The static [instance] field decides
    only which object the [new] expression gives back: the first object is
    stored in it and returned ever after, and the body below runs on every
    new object, the later ones included. *)
Definition constructor (self : nat) (content : string) : M W unit :=
  modify (set_linuxDeviceDatabase (Loader.readLinuxDeviceDatabase content)) ;;
  live ← gets hostDevices;
  modify (set_devices live) ;;
  present ← gets devices;
  forEach present (fun d => stringifyDevice d ;; mret tt) ;;
  persisted ← gets passedThroughDevices;
  modify (set_ptDevices persisted) ;;
  setupUpdateListeners self.

(** A [new USBManager()] after the first: a new object with the initial
    values of the field initialisers, on which the body of the
    constructor runs; the expression gives [USBManager.instance] back, so
    nothing but the callbacks refers to the new object. *)
Definition newManager (content : string) : M W unit :=
  self ← gets (fun w => S (length (laterObjects w)));
  modify (fun w => set_laterObjects
                     (laterObjects w ++ [mkObject [] [] ∅ ∅])%list w) ;;
  withThis self (constructor self content).

(** *** The resolution, summarised

    What [getDeviceStringsFromLsusb] answers on the [n]-th query of the
    host, its [catch] included, and what the [try] block of
    [stringifyDevice] leaves in [vendor] and [product] when it starts
    with [n] queries made, together with the number of queries made then.
    These are shown below to be what the monadic definitions compute. *)

Definition lsusbAnswer (n : nat) (vidHex pidHex : string) : DeviceStrings :=
  match hostExec n (Lsusb.command vidHex pidHex) with
  | Some output => Lsusb.parse output
  | None => mkDeviceStrings None None
  end.

Definition resolved (n : nat) (vidHex pidHex : string) (l : Locals)
    : Locals * nat :=
  let found1 :=
    if truthy (snd l) is None then product (lsusbAnswer n vidHex pidHex)
    else snd l in
  let n1 := if truthy (snd l) is None then S n else n in
  let vendor1 :=
    if truthy (Vendor.name <$> fst l) is None then
      match truthy (manufacturer (lsusbAnswer n1 vidHex pidHex)) with
      | Some m => Some (Vendor.mk m ∅)
      | None => fst l
      end
    else fst l in
  let n2 := if truthy (Vendor.name <$> fst l) is None then S n1 else n1 in
  ((vendor1, found1), n2).

(** The vendor and product lookups of [stringifyDevice] in the database. *)
Definition databaseLocals (w : W) (device : Device) : Locals :=
  let vendor := linuxDeviceDatabase w !! hex4 (idVendor device) in
  (vendor, vendor ≫= fun v => Vendor.devices v !! hex4 (idProduct device)).

(** [vendor ? vendor.name : "Unknown Vendor"] *)
Definition vendorText (vendor : option Vendor.t) : string :=
  match vendor with
  | Some v => Vendor.name v
  | None => "Unknown Vendor"
  end.

(** The string made from a cache entry. *)
Definition displayCached (device : Device) (cached : DeviceStrings) : string :=
  display (hex4 (idVendor device)) (hex4 (idProduct device))
    (orElse (manufacturer cached) "Unknown Vendor")
    (orElse (product cached) "Unknown Product").

(** *** Events *)

Definition runUsbCallback (c : UsbCallback) (device : Device) : M W unit :=
  match c with
  | AttachCallback this => withThis this (onAttach device)
  | DetachCallback this => withThis this (onDetach device)
  end.

Definition runOnlineCallback (c : OnlineCallback) (online : bool) : M W unit :=
  match c with
  | GuestOnlineCallback => onGuestOnline online
  end.

(** The host reports a device attached; [now] is what [getDeviceList()]
    returns from then on. *)
Definition hostAttach (device : Device) (now : list Device) : M W unit :=
  modify (set_hostDevices now) ;;
  listeners ← gets attachListeners;
  forEach listeners (fun c => detached (runUsbCallback c device)).

Definition hostDetach (device : Device) (now : list Device) : M W unit :=
  modify (set_hostDevices now) ;;
  listeners ← gets detachListeners;
  forEach listeners (fun c => detached (runUsbCallback c device)).

(** The guest online signal takes the value [online]; the watchers run when
    the value changes. *)
Definition guestSignal (online : bool) : M W unit :=
  before ← gets isOnline;
  modify (set_isOnline online) ;;
  if Bool.eqb before online then mret tt
  else
    watchers ← gets onlineWatchers;
    forEach watchers (fun c => detached (runOnlineCallback c online)).

(** *** Histories *)

(** What can happen to a constructed manager: a call of its public
    interface, a host event, a change of the guest signal, or a further
    [new USBManager()] (the module makes one object when it is loaded and
    the view makes one each time it is set up); [content] is what the
    database file holds then. *)
Inductive Action : Type :=
| Construct (content : string)
| CallStringify (device : Device)
| CallAdd (device : Device)
| CallRemove (ptDevice : PTSerializableDeviceInfo)
| CallContains (device : Device)
| CallConnected (ptDevice : PTSerializableDeviceInfo)
| HostAttach (device : Device) (now : list Device)
| HostDetach (device : Device) (now : list Device)
| GuestSignal (online : bool).

Definition perform (a : Action) (w : W) : W :=
  match a with
  | Construct content => snd (newManager content w)
  | CallStringify d => snd (stringifyDevice d w)
  | CallAdd d => snd (addDeviceToPassthroughList d w)
  | CallRemove r => snd (removeDeviceFromPassthroughList r w)
  | CallContains d => snd (isDeviceInPassthroughList d w)
  | CallConnected r => snd (isPTDeviceConnected r w)
  | HostAttach d now => snd (hostAttach d now w)
  | HostDetach d now => snd (hostDetach d now w)
  | GuestSignal b => snd (guestSignal b w)
  end.

(** The calls that [n] callbacks of one attach event make when the guest
    is online and the pair is listed: each callback asks the VM control
    channel and adds the device unless the channel reports it. *)
Fixpoint addsBy (n : nat) (guest : VM) (v p : N) : list QMPCall :=
  match n with
  | O => []
  | S n' =>
      if vmExists guest v p then addsBy n' guest v p
      else AddDevice v p :: addsBy n' (vmAdd guest v p) v p
  end.

(** The same for a detach event: a callback removes the device if the
    channel reports it. *)
Fixpoint removesBy (n : nat) (guest : VM) (v p : N) : list QMPCall :=
  match n with
  | O => []
  | S n' =>
      if vmExists guest v p
      then RemoveDevice v p :: removesBy n' (vmRemove guest v p) v p
      else removesBy n' guest v p
  end.

(** The state before the constructor runs: the field initialisers of the
    class, the persisted list, the guest signal, the devices plugged in. *)
Definition fresh (persisted : list PTSerializableDeviceInfo) (online : bool)
    (plugged : list Device) (guest : VM) : W :=
  mkWorld [] [] ∅ ∅ persisted online [] plugged [] [] guest [] 0 [].

Definition constructed (content : string)
    (persisted : list PTSerializableDeviceInfo) (online : bool)
    (plugged : list Device) (guest : VM) : W :=
  snd (constructor 0 content (fresh persisted online plugged guest)).

Inductive reachable : W -> Prop :=
| reachable_constructed content persisted online plugged guest :
    reachable (constructed content persisted online plugged guest)
| reachable_perform a w :
    reachable w -> reachable (perform a w).

End Manager.

(** The source's placeholders for the VM control channel. *)
Module Stub.
Definition exists_ (_ : unit) (vendorId productId : N) : bool := false.
Definition add (guest : unit) (vendorId productId : N) : unit := guest.
Definition remove (guest : unit) (vendorId productId : N) : unit := guest.
End Stub.

(** ** The parsing rule of the database, as the specification words it

    This module does not follow the loader: it is the rule of section 4.1
    written down on its own, to be compared with [Loader]. A line is a
    piece of the text between line feeds. "A 4-hex-digit token followed
    by whitespace and a name" is a token of four hexadecimal digits, then
    one or more white space characters, then a name: text that holds a
    character other than white space. The specification does not say
    what of the name is recorded: the rule records it without the white
    space around it, as the loader does, and the identifier in lower
    case. *)

Module ParsingRule.
Import JS.

Definition isHexDigit (c : ascii) : bool :=
  let n := N_of_ascii c in
  (48 <=? n)%N && (n <=? 57)%N || (97 <=? n)%N && (n <=? 102)%N
  || (65 <=? n)%N && (n <=? 70)%N.

Definition hexToken (t : string) : Prop :=
  String.length t = 4 /\ all isHexDigit t = true.

Definition whiteSpace (s : string) : Prop :=
  s <> "" /\ all isWhiteSpace s = true.

(** A name is not made of white space only. *)
Definition name (s : string) : Prop := all isWhiteSpace s = false.

(** [l] is [token whitespace name]. *)
Definition entry (l token nm : string) : Prop :=
  exists ws text, l = token ++ ws ++ text /\ hexToken token /\ whiteSpace ws
                  /\ name text /\ nm = trim text.

(** What one line contributes to the mapping. *)
Inductive Contribution : Type :=
| OpensVendor (id nm : string)
| AddsProduct (id nm : string)
| Nothing.

Inductive contributes : string -> Contribution -> Prop :=
| vendor_line l token nm :
    entry l token nm ->
    contributes l (OpensVendor (toLowerCase token) nm)
| product_line l token nm :
    entry l token nm ->
    contributes (String tab l) (AddsProduct (toLowerCase token) nm)
| comment_line l :
    contributes (String "#" l) Nothing
| blank_line l :
    all isWhiteSpace l = true ->
    contributes l Nothing
| deeper_line l :
    contributes (String tab (String tab l)) Nothing
| malformed_line l :
    (forall token nm, ~ entry l token nm) ->
    (forall l' token nm, l = String tab l' -> ~ entry l' token nm) ->
    contributes l Nothing.

(** The mapping built so far and the vendor section that is open. *)
Definition Sections : Type := LinuxDeviceDatabase * option string.

Definition record (st : Sections) (c : Contribution) : Sections :=
  match c with
  | OpensVendor id nm => (<[id := Vendor.mk nm ∅]> (fst st), Some id)
  | AddsProduct id nm =>
      match snd st with
      | Some open =>
          (alter (fun v => Vendor.mk (Vendor.name v) (<[id := nm]> (Vendor.devices v)))
                 open (fst st), snd st)
      | None => st
      end
  | Nothing => st
  end.

Inductive reads : list string -> Sections -> Sections -> Prop :=
| reads_done st : reads [] st st
| reads_line l ls c st st' :
    contributes l c -> reads ls (record st c) st' -> reads (l :: ls) st st'.

(** The lines of a text: the pieces between line feeds. *)
Inductive linesOf : string -> list string -> Prop :=
| lines_last l :
    all (fun c => negb (Ascii.eqb c "010")) l = true -> linesOf l [l]
| lines_more l rest ls :
    all (fun c => negb (Ascii.eqb c "010")) l = true ->
    linesOf rest ls -> linesOf (l ++ String "010" rest) (l :: ls).

(** The mapping the rule describes for a text. *)
Definition describes (content : string) (db : LinuxDeviceDatabase) : Prop :=
  exists ls open, linesOf content ls /\ reads ls (∅, None) (db, open).

End ParsingRule.

(** ** The lines the loader accepts

    This module is read off the loader, not off the specification: it
    says on the text of a line what the two expressions of
    [readLinuxDeviceDatabase] match. After the token and the white space
    the expressions want one or more characters, none of them a carriage
    return or a line feed ([.] refuses both), up to the end of the line;
    what is recorded is that text without the white space around it,
    which may leave nothing. It differs from [ParsingRule] in the text
    after the white space only, and takes the rest from it. *)

Module LineForms.
Import JS.
Export ParsingRule.

Definition nameText (s : string) : Prop :=
  s <> "" /\ all (fun c => negb (isLineTerminator c)) s = true.

(** [l] is [token whitespace text]. *)
Definition entry (l token nm : string) : Prop :=
  exists ws nm', l = token ++ ws ++ nm' /\ hexToken token /\ whiteSpace ws
                 /\ nameText nm' /\ nm = trim nm'.

Inductive contributes : string -> Contribution -> Prop :=
| vendor_line l token nm :
    entry l token nm ->
    contributes l (OpensVendor (toLowerCase token) nm)
| product_line l token nm :
    entry l token nm ->
    contributes (String tab l) (AddsProduct (toLowerCase token) nm)
| comment_line l :
    contributes (String "#" l) Nothing
| blank_line l :
    all isWhiteSpace l = true ->
    contributes l Nothing
| deeper_line l :
    contributes (String tab (String tab l)) Nothing
| malformed_line l :
    (forall token nm, ~ entry l token nm) ->
    (forall l' token nm, l = String tab l' -> ~ entry l' token nm) ->
    contributes l Nothing.

(** The section that is open has a non-empty identifier. *)
Definition opened (st : Sections) : Prop :=
  forall current, snd st = Some current -> current <> "".

Inductive reads : list string -> Sections -> Sections -> Prop :=
| reads_done st : reads [] st st
| reads_line l ls c st st' :
    contributes l c -> reads ls (record st c) st' -> reads (l :: ls) st st'.

(** The mapping these lines give for a text. *)
Definition describes (content : string) (db : LinuxDeviceDatabase) : Prop :=
  exists ls open, linesOf content ls /\ reads ls (∅, None) (db, open).

End LineForms.


(** ** Invariants of a constructed manager *)

Section Invariants.
Context {VM : Type}.
Implicit Type w : World VM.

(** An entry of the cache under a key of a device whose vendor and
    product both have a non-empty name in the database holds those names. *)
Definition fromDatabase (db : LinuxDeviceDatabase) (key : string)
    (e : DeviceStrings) : Prop :=
  forall device vendor pn,
    key = keyOf device ->
    db !! hex4 (idVendor device) = Some vendor -> Vendor.name vendor <> "" ->
    Vendor.devices vendor !! hex4 (idProduct device) = Some pn -> pn <> "" ->
    e = mkDeviceStrings (Some (Vendor.name vendor)) (Some pn).

Definition agrees w : Prop :=
  forall key e, deviceStringCache w !! key = Some e ->
                fromDatabase (linuxDeviceDatabase w) key e.

(** The callbacks registered: no watcher of the guest signal, and one
    attach and one detach callback for each object made so far, the
    instance first, in the order the objects were made. *)
Definition wired w : Prop :=
  onlineWatchers w = []
  /\ attachListeners w
     = map AttachCallback (seq 0 (S (length (laterObjects w))))
  /\ detachListeners w
     = map DetachCallback (seq 0 (S (length (laterObjects w)))).

(** What the instance remembers: its database stays, the entries of its
    cache stay, and a new entry comes from a resolution. *)
Definition remembers w w' : Prop :=
  linuxDeviceDatabase w' = linuxDeviceDatabase w
  /\ (forall key e, deviceStringCache w !! key = Some e ->
                    deviceStringCache w' !! key = Some e)
  /\ (forall key e, deviceStringCache w' !! key = Some e ->
                    deviceStringCache w !! key = Some e
                    \/ fromDatabase (linuxDeviceDatabase w) key e).

(** How the state changes by a call or an event of a constructed
    manager: the instance remembers, and the registrations and the
    number of objects stay. *)
Definition evolves w w' : Prop :=
  linuxDeviceDatabase w' = linuxDeviceDatabase w
  /\ onlineWatchers w' = onlineWatchers w
  /\ attachListeners w' = attachListeners w
  /\ detachListeners w' = detachListeners w
  /\ (forall key e, deviceStringCache w !! key = Some e ->
                    deviceStringCache w' !! key = Some e)
  /\ (forall key e, deviceStringCache w' !! key = Some e ->
                    deviceStringCache w !! key = Some e
                    \/ fromDatabase (linuxDeviceDatabase w) key e)
  /\ length (laterObjects w') = length (laterObjects w).

Definition keeps {A} (m : M (World VM) A) : Prop :=
  forall w, evolves w (snd (m w)).

(** A computation that does not throw. *)
Definition returns {A} (m : M (World VM) A) : Prop :=
  forall w, exists a, fst (m w) = inr a.

End Invariants.

(** ** A small installation

    The database of the end-to-end example of the specification, a
    receiver and a keyboard of the same vendor, and a host on which every
    query fails. *)

Module Scenario.
Import JS.

Definition lineFeed : string := String "010" "".

(** Vendor [046d] "Logitech" with its product [c52b] "Unifying Receiver". *)
Definition usbIds : string :=
  "046d  Logitech" ++ lineFeed
  ++ String tab "c52b  Unifying Receiver" ++ lineFeed.

(** A vendor line that ends after the white space: identifier [1234]
    followed by two spaces. *)
Definition usbIdsUnnamed : string := "1234  " ++ lineFeed.

(** The first line of [usbIds] in a file with CR LF line ends. *)
Definition usbIdsCrLf : string := "046d  Logitech" ++ String "013" lineFeed.

Definition unreachableHost (n : nat) (command : string) : option string := None.

Definition receiver : Device := mkDevice 0x046d 0xc52b.

Definition receiverRecord : PTSerializableDeviceInfo :=
  mkPT 0x046d 0xc52b (mkDeviceStrings (Some "Logitech") (Some "Unifying Receiver")).

Definition keyboardRecord : PTSerializableDeviceInfo :=
  mkPT 0x046d 0xc31c (mkDeviceStrings (Some "Logitech") (Some "Keyboard K120")).

Definition mouseRecord : PTSerializableDeviceInfo :=
  mkPT 0x046d 0xc077 (mkDeviceStrings (Some "Logitech") (Some "Mouse")).

(** A manager constructed over the stub of the VM control channel. *)
Definition manager (content : string) (persisted : list PTSerializableDeviceInfo)
    (online : bool) (plugged : list Device) : World unit :=
  constructed unreachableHost content persisted online plugged tt.

End Scenario.

(** ** The view that uses the manager ([src/renderer/views/Config.vue]) *)

Module Text.

(** [s.startsWith(p)] *)
Fixpoint startsWith (p s : string) : bool :=
  match p, s with
  | EmptyString, _ => true
  | String a p', String b s' => Ascii.eqb a b && startsWith p' s'
  | String _ _, EmptyString => false
  end.

(** [s.includes(needle)] *)
Fixpoint includes (needle s : string) : bool :=
  startsWith needle s
  || match s with
     | EmptyString => false
     | String _ s' => includes needle s'
     end.

End Text.

(** [xs.filter(keep)] for a callback that has effects and may throw: the
    callback runs on the elements in order, and a throw ends the call. *)
Fixpoint filterM {S A} (keep : A -> M S bool) (xs : list A) : M S (list A) :=
  match xs with
  | [] => mret []
  | x :: xs' =>
      k ← keep x;
      rest ← filterM keep xs';
      mret (if k : bool then x :: rest else rest)
  end.

Section View.
Context {VM : Type}.
Variable vmExists : VM -> N -> N -> bool.
Variable vmAdd : VM -> N -> N -> VM.
Variable vmRemove : VM -> N -> N -> VM.
Variable hostExec : nat -> string -> option string.

Definition LINUX_FOUNDATION_VID : string := "1d6b".

(** [refreshAvailableDevices]; the value of the computation is what is
    assigned to [availableDevices.value]. *)
Definition refreshAvailableDevices : M (World VM) (list Device) :=
  live ← gets devices;
  filterM (fun device =>
    andThen (notM (isDeviceInPassthroughList device))
            (text ← stringifyDevice hostExec device;
             mret (negb (Text.includes LINUX_FOUNDATION_VID text))))
    live.

(** [addDevice] and [removeDevice]: the error of the manager is logged
    and goes no further. *)
Definition addDevice (device : Device) : M (World VM) unit :=
  tryCatch (addDeviceToPassthroughList vmExists vmAdd device)
           (fun error => mret tt).

Definition removeDevice (ptDevice : PTSerializableDeviceInfo)
    : M (World VM) unit :=
  tryCatch (removeDeviceFromPassthroughList vmExists vmRemove ptDevice)
           (fun error => mret tt).

End View.

(** ** More invariants *)

Section Steady.
Context {VM : Type}.
Implicit Type w : World VM.

(** The identifier pair of a record. *)
Definition pairOf (r : PTSerializableDeviceInfo) : N * N :=
  (vendorId r, productId r).

(** No two records of the list have the same identifier pair. *)
Definition uniquePairs (l : list PTSerializableDeviceInfo) : Prop :=
  NoDup (map pairOf l).

(** [ptDevices.value] is the list of the configuration. *)
Definition synced w : Prop := ptDevices w = passedThroughDevices w.

(** Device strings as [stringifyDevice] stores them: a field is absent or
    a non-empty string. *)
Definition normalised (e : DeviceStrings) : Prop :=
  manufacturer e <> Some "" /\ product e <> Some "".

(** What every action keeps: the mirror of the list, the uniqueness of
    the pairs, and a cache whose new entries are normalised. *)
Definition steady w w' : Prop :=
  (synced w -> synced w')
  /\ (uniquePairs (passedThroughDevices w) ->
      uniquePairs (passedThroughDevices w'))
  /\ (forall key e, deviceStringCache w' !! key = Some e ->
                    deviceStringCache w !! key = Some e \/ normalised e).

Definition stays {A} (m : M (World VM) A) : Prop :=
  forall w, steady w (snd (m w)).

End Steady.

(** A key of the database: four hexadecimal digits in lower case. *)
Definition hexKey (k : string) : Prop :=
  String.length k = 4 /\ JS.all JS.isLowerHex k = true.

(** A database whose keys are four lower-case hexadecimal digits and
    whose names have no white space around them. *)
Definition tidy (db : LinuxDeviceDatabase) : Prop :=
  forall k v, db !! k = Some v ->
    hexKey k /\ JS.trim (Vendor.name v) = Vendor.name v
    /\ forall k' n, Vendor.devices v !! k' = Some n ->
                    hexKey k' /\ JS.trim n = n.

(** ** The fields of the host command's output

    What the two expressions of [getDeviceStringsFromLsusb] accept,
    written on the text: at the start of a line, optional white space, the
    label, white space, a number, white space, and the text up to the end
    of a line. White space is the class [\s], line breaks included. *)

Module LsusbRule.
Import JS Regex.

(** The position after [before] is the start of the text or of a line. *)
Definition lineStart (before : string) : Prop :=
  match lastOr None before with
  | None => True
  | Some c => isLineTerminator c = true
  end.

(** The position before [after] is the end of the text or of a line. *)
Definition lineEnd (after : string) : Prop :=
  match after with
  | EmptyString => True
  | String c _ => isLineTerminator c = true
  end.

Definition blank (s : string) : Prop := all isWhiteSpace s = true.

(** [output] holds [label number text] at the start of a line. *)
Definition fieldLine (label output text : string) : Prop :=
  exists before indent gap1 index gap2 after,
    output = before ++ indent ++ label ++ gap1 ++ index ++ gap2 ++ text ++ after
    /\ lineStart before /\ lineEnd after
    /\ blank indent
    /\ gap1 <> "" /\ blank gap1
    /\ index <> "" /\ all isDigit index = true
    /\ gap2 <> "" /\ blank gap2
    /\ text <> "" /\ all isDot text = true.

End LsusbRule.

(** * Properties *)

#[local] Arguments String.append : simpl nomatch.

(** ** Strings *)

Module StringFacts.
Import JS.

Lemma app_empty_r (s : string) : s ++ "" = s.
Proof. induction s as [|c s IH]; simpl; [done | by f_equal]. Qed.

Lemma app_assoc (a b c : string) : (a ++ b) ++ c = a ++ (b ++ c).
Proof. induction a as [|x a IH]; simpl; [done | by f_equal]. Qed.

Lemma length_app (a b : string) :
  String.length (a ++ b) = String.length a + String.length b.
Proof. induction a as [|x a IH]; simpl; [done | by f_equal]. Qed.

Lemma all_app p (a b : string) : all p (a ++ b) = all p a && all p b.
Proof.
  induction a as [|x a IH]; simpl; [done |].
  rewrite IH. by destruct (p x).
Qed.

Lemma all_ext p q (s : string) : (forall c, p c = q c) -> all p s = all q s.
Proof.
  intros E. induction s as [|c s IH]; simpl; [done |]. by rewrite E, IH.
Qed.

Lemma substring_prefix (t u : string) :
  String.substring 0 (String.length t) (t ++ u) = t.
Proof.
  induction t as [|x t IH]; simpl; [by destruct u | by f_equal].
Qed.

(** Two splits of one string at the same length are the same split. *)
Lemma app_inv_length (a a' b b' : string) :
  String.length a = String.length a' -> a ++ b = a' ++ b' -> a = a' /\ b = b'.
Proof.
  revert a'. induction a as [|x a IH]; intros [|x' a']; simpl; try done.
  intros L E. injection E as -> E. injection L as L.
  destruct (IH _ L E) as [-> ->]. done.
Qed.

Lemma trimStart_skip (ws s : string) :
  all isWhiteSpace ws = true -> trimStart (ws ++ s) = trimStart s.
Proof.
  induction ws as [|c ws IH]; simpl; [done |].
  destruct (isWhiteSpace c); simpl; [auto | done].
Qed.

Lemma trim_skip (ws s : string) :
  all isWhiteSpace ws = true -> trim (ws ++ s) = trim s.
Proof. intros H. unfold trim. by rewrite trimStart_skip. Qed.

Lemma trimEnd_keeps (c : ascii) (s : string) :
  isWhiteSpace c = false -> trimEnd (String c s) <> "".
Proof. intros H. simpl. destruct (trimEnd s); [by rewrite H | done]. Qed.

(** [line.trim() === ""] holds of the lines made of white space only. *)
Lemma isEmpty_trim (s : string) : isEmpty (trim s) = all isWhiteSpace s.
Proof.
  unfold trim. induction s as [|c s IH]; [done |].
  cbn [trimStart all]. destruct (isWhiteSpace c) eqn:E; [done |].
  pose proof (trimEnd_keeps c s E) as N.
  destruct (trimEnd (String c s)); [done | reflexivity].
Qed.

Lemma length_toLowerCase (s : string) :
  String.length (toLowerCase s) = String.length s.
Proof. induction s as [|c s IH]; simpl; [done | by f_equal]. Qed.

Lemma split_no_separator sep (l : string) :
  all (fun c => negb (Ascii.eqb c sep)) l = true -> split sep l = [l].
Proof.
  induction l as [|c l IH]; simpl; [done |].
  destruct (Ascii.eqb c sep); simpl; [done |]. intros H. by rewrite IH.
Qed.

Lemma split_at_separator sep (l rest : string) :
  all (fun c => negb (Ascii.eqb c sep)) l = true ->
  split sep (l ++ String sep rest) = l :: split sep rest.
Proof.
  induction l as [|c l IH]; simpl.
  - intros _. by rewrite Ascii.eqb_refl.
  - destruct (Ascii.eqb c sep); simpl; [done |]. intros H. by rewrite IH.
Qed.

Lemma split_nonempty sep (s : string) : split sep s <> [].
Proof.
  induction s as [|c s IH]; simpl; [done |].
  destruct (Ascii.eqb c sep); [done |]. by destruct (split sep s).
Qed.

End StringFacts.

(** ** The embedding on concrete inputs *)

Module Checks.
Import JS Regex Loader Scenario.

Example hex4_receiver : hex4 0x046d = "046d" /\ hex4 0 = "0000" /\ hex4 0x12345 = "12345".
Proof. repeat split; reflexivity. Qed.

Example vendorLine_matches :
  exec caseInsensitive vendorLine "046D  Logitech, Inc. "
  = Some ["046D  Logitech, Inc. "; "046D"; "Logitech, Inc. "].
Proof. reflexivity. Qed.

(** The white space gives one character back when nothing follows it. *)
Example vendorLine_backtracks :
  exec caseInsensitive vendorLine "1234  " = Some ["1234  "; "1234"; " "]
  /\ exec caseInsensitive vendorLine "1234 " = None.
Proof. split; reflexivity. Qed.

Example vendorLine_refuses :
  exec caseInsensitive vendorLine "046g  Logitech" = None
  /\ exec caseInsensitive vendorLine " 046d  Logitech" = None
  /\ exec caseInsensitive vendorLine "046d5 Logitech" = None.
Proof. repeat split; reflexivity. Qed.

Example deviceLine_matches :
  exec caseInsensitive deviceLine (String tab "c52b  Unifying Receiver")
  = Some [String tab "c52b  Unifying Receiver"; "c52b"; "Unifying Receiver"].
Proof. reflexivity. Qed.

Example lsusb_fields :
  Lsusb.parse ("Device Descriptor:" ++ lineFeed
               ++ "  iManufacturer           1 Acme Corp." ++ lineFeed
               ++ "  iProduct                2 Widget" ++ lineFeed
               ++ "  iSerial                 0 " ++ lineFeed)
  = mkDeviceStrings (Some "Acme Corp.") (Some "Widget").
Proof. vm_compute. reflexivity. Qed.

Example usbIds_loaded :
  let db := readLinuxDeviceDatabase usbIds in
  Vendor.name <$> db !! "046d" = Some "Logitech"
  /\ (db !! "046d" ≫= fun v => Vendor.devices v !! "c52b")
     = Some "Unifying Receiver"
  /\ db !! "c52b" = None.
Proof. repeat split; vm_compute; reflexivity. Qed.

End Checks.

(** ** The matcher *)

Module RegexFacts.
Import JS Regex StringFacts.

Lemma consumed_app (t u : string) : consumed (t ++ u) u = t.
Proof.
  unfold consumed. rewrite length_app.
  replace (String.length t + String.length u - String.length u)
    with (String.length t) by lia.
  apply substring_prefix.
Qed.

Lemma consumed_all (s : string) : consumed s "" = s.
Proof. rewrite <- (app_empty_r s) at 1. apply consumed_app. Qed.

Section Repetition.
Context {R : Type}.
Implicit Type k : option ascii -> string -> option R.

(** A repetition that fails has tried to stop where it started. *)
Lemma rep_None_stop ok lo hi prev s k :
  rep ok lo hi prev s k = None ->
  match lo with O => k prev s | S _ => None end = None.
Proof.
  destruct s as [|c s]; simpl.
  - by destruct (hiReached hi).
  - destruct (hiReached hi); [done |]. destruct (ok c); [| done].
    by destruct (rep ok (Nat.pred lo) (hiPred hi) (Some c) s k).
Qed.

(** A repetition that succeeds has read some [t] within its bounds and
    handed the rest to its continuation. *)
Lemma rep_Some ok lo hi prev s k r :
  rep ok lo hi prev s k = Some r ->
  exists t u, s = t ++ u /\ all ok t = true /\ lo <= String.length t
    /\ (forall h, hi = Some h -> String.length t <= h)
    /\ k (lastOr prev t) u = Some r.
Proof.
  revert lo hi prev.
  assert (Stop : forall lo hi prev s,
    match lo with O => k prev s | S _ => None end = Some r ->
    exists t u, s = t ++ u /\ all ok t = true /\ lo <= String.length t
      /\ (forall h, hi = Some h -> String.length t <= h)
      /\ k (lastOr prev t) u = Some r).
  { intros [|lo] hi prev s0 H; [| done].
    exists "", s0. repeat split; simpl; auto with lia. }
  induction s as [|c s IH]; intros lo hi prev; simpl.
  - destruct (hiReached hi); apply Stop.
  - destruct (hiReached hi) eqn:Hi; [apply Stop |].
    destruct (ok c) eqn:Ok; [| apply Stop].
    destruct (rep ok (Nat.pred lo) (hiPred hi) (Some c) s k) as [r'|] eqn:Rec;
      [| apply Stop].
    intros [= ->].
    destruct (IH _ _ _ Rec) as (t & u & -> & A & L & H & K).
    exists (String c t), u. repeat split; simpl; auto with lia.
    + by rewrite Ok.
    + intros h ->. destruct h as [|h]; [done |].
      specialize (H h eq_refl). simpl in H. lia.
Qed.

(** A repetition that fails has tried every split within its bounds. *)
Lemma rep_None ok lo hi prev s k :
  rep ok lo hi prev s k = None ->
  forall t u, s = t ++ u -> all ok t = true -> lo <= String.length t ->
    (forall h, hi = Some h -> String.length t <= h) ->
    k (lastOr prev t) u = None.
Proof.
  revert lo hi prev.
  induction s as [|c s IH]; intros lo hi prev Fail t u E A L H.
  - destruct t; [| done]. simpl in E. subst u.
    apply rep_None_stop in Fail. simpl in L. by destruct lo; [| lia].
  - destruct t as [|c' t].
    + simpl in E. subst u. apply rep_None_stop in Fail.
      simpl in L. by destruct lo; [| lia].
    + simpl in E. injection E as <- ->. simpl in A.
      apply andb_prop in A as [Ok A]. simpl in Fail.
      assert (hiReached hi = false) as Hi.
      { destruct hi as [[|h]|]; try done. specialize (H 0 eq_refl). simpl in H. lia. }
      rewrite Hi, Ok in Fail.
      destruct (rep ok (Nat.pred lo) (hiPred hi) (Some c) (t ++ u) k) eqn:Rec;
        [done |].
      simpl. eapply IH; eauto.
      * simpl in L. lia.
      * intros h Eh. destruct hi as [h'|]; [| done]. injection Eh as <-.
        specialize (H h' eq_refl). simpl in H. lia.
Qed.

End Repetition.

(** An expression that starts with [^], without the [m] flag, is tried
    at the first position only. *)
Lemma search_anchored fl r c s :
  multiline fl = false -> search fl (Seq Bol r) (Some c) s = None.
Proof.
  intros Hm. revert c. induction s as [|c' s IH]; intros c.
  - unfold search, matchHere. simpl. by rewrite Hm.
  - cbn [search]. unfold matchHere at 1. simpl. rewrite Hm. simpl. apply IH.
Qed.

Lemma exec_anchored fl r s :
  multiline fl = false ->
  exec fl (Seq Bol r) s = matchHere fl (Seq Bol r) None s.
Proof.
  intros Hm. unfold exec. destruct s as [|c s]; cbn [search].
  - by destruct (matchHere fl (Seq Bol r) None "").
  - destruct (matchHere fl (Seq Bol r) None (String c s)); [done |].
    by apply search_anchored.
Qed.

End RegexFacts.

(** ** The database loader against the line forms *)

Module LoaderFacts.
Import JS Regex Loader StringFacts RegexFacts LineForms.

Ltac each_character c := destruct c as [[] [] [] [] [] [] [] []]; vm_compute; reflexivity.

Lemma class_hex c : classMatch caseInsensitive isLowerHex c = isHexDigit c.
Proof. each_character c. Qed.

Lemma class_space c : classMatch caseInsensitive isWhiteSpace c = isWhiteSpace c.
Proof. each_character c. Qed.

Lemma class_dot c :
  classMatch caseInsensitive isDot c = negb (isLineTerminator c).
Proof. each_character c. Qed.

Lemma char_tab c : charMatch caseInsensitive tab c = Ascii.eqb c tab.
Proof. each_character c. Qed.

Lemma hex_not_special c :
  isHexDigit c = true ->
  isWhiteSpace c = false /\ Ascii.eqb c tab = false /\ Ascii.eqb c "#" = false.
Proof. destruct c as [[] [] [] [] [] [] [] []]; vm_compute; auto; discriminate. Qed.

Lemma nonempty_length (s : string) : s <> "" <-> 1 <= String.length s.
Proof. destruct s; simpl; split; (done || lia || auto with lia). Qed.

(** The shared tail succeeds exactly on [token whitespace name], and hands
    the token and the name to its continuation. *)
Lemma entryTail_Some {R} prev s caps
    (k : option ascii -> string -> list string -> option R) r :
  run caseInsensitive entryTail prev s caps k = Some r ->
  exists token ws nm p,
    s = token ++ ws ++ nm /\ hexToken token /\ whiteSpace ws /\ nameText nm
    /\ k p "" (caps ++ [token; nm])%list = Some r.
Proof.
  unfold entryTail. cbn [run]. intros H.
  apply rep_Some in H as (t1 & u1 & -> & A1 & L1 & H1 & K1).
  apply rep_Some in K1 as (t2 & u2 & -> & A2 & L2 & _ & K2).
  apply rep_Some in K2 as (t3 & u3 & -> & A3 & L3 & _ & K3).
  destruct u3 as [|c u3]; [| done].
  rewrite app_empty_r in *. rewrite consumed_app, consumed_all in K3.
  rewrite <- List.app_assoc in K3. simpl in K3.
  exists t1, t2, t3. eexists. repeat split; eauto.
  - specialize (H1 4 eq_refl). lia.
  - by rewrite <- (all_ext _ _ _ class_hex).
  - by apply nonempty_length.
  - by rewrite <- (all_ext _ _ _ class_space).
  - by apply nonempty_length.
  - by rewrite <- (all_ext _ _ _ class_dot).
Qed.

Lemma entryTail_None {R} prev s caps
    (k : option ascii -> string -> list string -> option R) :
  run caseInsensitive entryTail prev s caps k = None ->
  forall token ws nm,
    s = token ++ ws ++ nm -> hexToken token -> whiteSpace ws -> nameText nm ->
    exists p, k p "" (caps ++ [token; nm])%list = None.
Proof.
  unfold entryTail. cbn [run].
  intros H token ws nm -> [L1 A1] [N2 A2] [N3 A3].
  eapply rep_None with (t := token) (u := ws ++ nm) in H; eauto with lia.
  2: { by rewrite (all_ext _ _ _ class_hex). }
  2: { intros h [= <-]. lia. }
  eapply rep_None with (t := ws) (u := nm) in H; eauto.
  2: { by rewrite (all_ext _ _ _ class_space). }
  2: { by apply nonempty_length. }
  2: { done. }
  eapply rep_None with (t := nm) (u := "") in H; eauto.
  2: { by rewrite app_empty_r. }
  2: { by rewrite (all_ext _ _ _ class_dot). }
  2: { by apply nonempty_length. }
  2: { done. }
  cbn [run] in H. rewrite consumed_app, consumed_all in H.
  rewrite <- List.app_assoc in H. simpl in H. eauto.
Qed.

(** Two readings of one line as an entry give the same token and the same
    recorded name. *)
Lemma entry_unique l token nm token' nm' :
  entry l token nm -> entry l token' nm' -> token = token' /\ nm = nm'.
Proof.
  intros (ws & n & -> & [L A] & [_ W] & _ & ->)
         (ws' & n' & E & [L' A'] & [_ W'] & _ & ->).
  apply app_inv_length in E as [-> E]; [| congruence].
  split; [done |].
  rewrite <- (trim_skip ws n W), <- (trim_skip ws' n' W'). by rewrite E.
Qed.

(** What [line.match(vendorLine)] finds. *)
Lemma vendorLine_Some l m :
  exec caseInsensitive vendorLine l = Some m ->
  exists token nm, m = [l; token; nm] /\ entry l token (trim nm).
Proof.
  unfold vendorLine. rewrite exec_anchored by done.
  unfold matchHere. cbn [run]. intros H.
  apply entryTail_Some in H as (token & ws & nm & p & -> & T & Ws & Nm & K).
  simpl in K. rewrite consumed_all in K. injection K as <-.
  exists token, nm. split; [done |]. by exists ws, nm.
Qed.

Lemma vendorLine_None l :
  exec caseInsensitive vendorLine l = None -> forall token nm, ~ entry l token nm.
Proof.
  unfold vendorLine. rewrite exec_anchored by done.
  unfold matchHere. cbn [run]. intros H token nm (ws & n & E & T & Ws & Nm & _).
  by destruct (entryTail_None _ _ _ _ H _ _ _ E T Ws Nm).
Qed.

(** What [line.match(deviceLine)] finds. *)
Lemma deviceLine_Some l m :
  exec caseInsensitive deviceLine l = Some m ->
  exists l' token nm,
    l = String tab l' /\ m = [l; token; nm] /\ entry l' token (trim nm).
Proof.
  unfold deviceLine. rewrite exec_anchored by done.
  unfold matchHere. cbn [run]. destruct l as [|c l']; [done |].
  rewrite char_tab. destruct (Ascii.eqb c tab) eqn:Ec; [| done].
  apply Ascii.eqb_eq in Ec as ->. intros H.
  apply entryTail_Some in H as (token & ws & nm & p & -> & T & Ws & Nm & K).
  simpl in K. rewrite consumed_all in K. injection K as <-.
  exists (token ++ ws ++ nm), token, nm. repeat split. by exists ws, nm.
Qed.

Lemma deviceLine_None l' :
  exec caseInsensitive deviceLine (String tab l') = None ->
  forall token nm, ~ entry l' token nm.
Proof.
  unfold deviceLine. rewrite exec_anchored by done.
  unfold matchHere. cbn [run]. rewrite char_tab, Ascii.eqb_refl.
  intros H token nm (ws & n & E & T & Ws & Nm & _).
  by destruct (entryTail_None _ _ _ _ H _ _ _ E T Ws Nm).
Qed.

(** An entry starts with a hexadecimal digit. *)
Lemma entry_head l token nm :
  entry l token nm -> exists c rest, l = String c rest /\ isHexDigit c = true.
Proof.
  intros (ws & n & -> & [L A] & _).
  destruct token as [|c token]; [done |]. simpl in A.
  apply andb_prop in A as [A _]. by exists c, (token ++ ws ++ n).
Qed.

Lemma opened_record st c l : opened st -> contributes l c -> opened (record st c).
Proof.
  intros O C cur. destruct C as [l token nm E|l token nm E| | | |]; simpl; auto.
  - intros [= <-]. destruct E as (_ & _ & _ & [L _] & _).
    intros Z. apply (f_equal String.length) in Z.
    rewrite length_toLowerCase, L in Z. done.
  - destruct (snd st) eqn:Es; simpl; [| by rewrite Es].
    intros [= <-]. apply O. done.
Qed.

(** The loop body does to the mapping what the form of the line says. *)
Lemma loadLine_contributes st l c :
  opened st -> contributes l c -> loadLine st l = record st c.
Proof.
  intros O C. destruct st as [vendors current]. unfold loadLine.
  destruct C as [l token nm E|l token nm E|l|l B|l|l NV NP].
  - destruct (entry_head _ _ _ E) as (c0 & rest & -> & Hx).
    destruct (hex_not_special _ Hx) as (Ws & Tb & Hs).
    rewrite isEmpty_trim. cbn [startsWithChar all charAt String.get isTab].
    rewrite Hs, Ws, Tb. cbn [orb andb negb].
    destruct (exec caseInsensitive vendorLine (String c0 rest)) as [m|] eqn:Em.
    + apply vendorLine_Some in Em as (token' & nm' & -> & E').
      destruct (entry_unique _ _ _ _ _ E E') as [-> ->]. reflexivity.
    + by apply vendorLine_None with (token := token) (nm := nm) in Em.
  - destruct (entry_head _ _ _ E) as (c0 & rest & -> & Hx).
    destruct (hex_not_special _ Hx) as (Ws & Tb & Hs).
    rewrite isEmpty_trim. cbn [startsWithChar all charAt String.get isTab].
    rewrite Ws, Tb, (Ascii.eqb_refl tab).
    change (Ascii.eqb tab "#") with false.
    change (isWhiteSpace tab) with true. cbn [orb andb negb].
    destruct (exec caseInsensitive deviceLine (String tab (String c0 rest)))
      as [m|] eqn:Em.
    + apply deviceLine_Some in Em as (l' & token' & nm' & [= <-] & -> & E').
      destruct (entry_unique _ _ _ _ _ E E') as [-> ->].
      destruct current as [cur|]; [| reflexivity].
      specialize (O cur eq_refl). destruct cur; [done | reflexivity].
    + by apply deviceLine_None with (token := token) (nm := nm) in Em.
  - reflexivity.
  - rewrite isEmpty_trim, B. by rewrite orb_true_r.
  - cbn [startsWithChar charAt String.get isTab].
    rewrite (Ascii.eqb_refl tab). change (Ascii.eqb tab "#") with false.
    cbn [orb andb negb]. by destruct (isEmpty _).
  - simpl record.
    destruct (startsWithChar "#" l || isEmpty (trim l)); [done |].
    destruct (negb (isTab (charAt 0 l))) eqn:T0.
    + destruct (exec caseInsensitive vendorLine l) as [m|] eqn:Em; [| done].
      apply vendorLine_Some in Em as (token & nm & _ & E). by destruct (NV _ _ E).
    + destruct l as [|c l]; [done |]. cbn [charAt String.get isTab] in T0 |- *.
      apply negb_false_iff, Ascii.eqb_eq in T0 as ->.
      rewrite (Ascii.eqb_refl tab). cbn [andb].
      destruct (negb _); [| done].
      destruct (exec caseInsensitive deviceLine (String tab l)) as [m|] eqn:Em;
        [| done].
      apply deviceLine_Some in Em as (l' & token & nm & [= <-] & _ & E).
      by destruct (NP _ _ _ eq_refl E).
Qed.

(** Every line has a form. *)
Lemma contributes_total l : exists c, contributes l c.
Proof.
  destruct l as [|c l]; [exists Nothing; by apply blank_line |].
  destruct (Ascii.eqb c "#") eqn:Hs.
  { apply Ascii.eqb_eq in Hs as ->. exists Nothing. apply comment_line. }
  destruct (Ascii.eqb c tab) eqn:Tb.
  - apply Ascii.eqb_eq in Tb as ->.
    destruct (exec caseInsensitive deviceLine (String tab l)) as [m|] eqn:Em.
    + apply deviceLine_Some in Em as (l' & token & nm & [= <-] & _ & E).
      eexists. by apply product_line.
    + exists Nothing. apply malformed_line.
      * intros token nm E. destruct (entry_head _ _ _ E) as (c0 & rest & [= <- <-] & Hx).
        done.
      * intros l' token nm [= <-]. by apply deviceLine_None.
  - destruct (exec caseInsensitive vendorLine (String c l)) as [m|] eqn:Em.
    + apply vendorLine_Some in Em as (token & nm & _ & E).
      eexists. by apply vendor_line.
    + exists Nothing. apply malformed_line.
      * by apply vendorLine_None.
      * intros l' token nm [= -> _]. by rewrite Ascii.eqb_refl in Tb.
Qed.

(** The loop over the lines against the forms read line after line. *)
Lemma reads_fold ls st st' :
  opened st -> reads ls st st' <-> fold_left loadLine ls st = st'.
Proof.
  revert st. induction ls as [|l ls IH]; intros st O; simpl.
  - split; [by inversion 1 | intros <-; constructor].
  - split.
    + inversion 1 as [|? ? c ? ? C Rd]; subst.
      rewrite (loadLine_contributes _ _ _ O C).
      apply IH; [by eapply opened_record | done].
    + intros F. destruct (contributes_total l) as [c C].
      rewrite (loadLine_contributes _ _ _ O C) in F.
      econstructor; [exact C |]. apply IH; [by eapply opened_record | done].
Qed.

(** [content.split("\n")] gives the lines of the text. *)
Lemma linesOf_split content ls :
  linesOf content ls <-> ls = split "010" content.
Proof.
  split.
  - induction 1 as [l A|l rest ls A _ IH].
    + by rewrite split_no_separator.
    + by rewrite split_at_separator, IH.
  - intros ->. induction content as [|c s IH]; simpl.
    + by constructor.
    + destruct (Ascii.eqb c "010") eqn:Ec.
      * apply Ascii.eqb_eq in Ec as ->.
        by apply (lines_more "" s).
      * inversion IH as [l A E1 E2|l rest ls A L E1 E2].
        -- subst. apply lines_last. simpl. by rewrite Ec.
        -- subst. apply (lines_more (String c l) rest ls); [| done].
           simpl. by rewrite Ec.
Qed.

(** For every text, the loader returns the mapping the lines it accepts
    give, and no other: a line that reads as a token of four hexadecimal
    digits, white space and text opens the vendor section keyed by the
    token in lower case; such a line behind exactly one tab adds a
    product to the section opened last (to none if none is open); a line
    that begins with [#], a blank line, a line behind two or more tabs
    and any other line contribute nothing. *)
Lemma loader_reads_line_forms (content : string) (db : LinuxDeviceDatabase) :
  describes content db <-> readLinuxDeviceDatabase content = db.
Proof.
  unfold describes, readLinuxDeviceDatabase.
  assert (O : opened (∅, None)) by (by intros cur).
  split.
  - intros (ls & open & L & Rd).
    apply linesOf_split in L as ->. apply reads_fold in Rd; [| done].
    by rewrite Rd.
  - intros <-.
    exists (split "010" content),
           (snd (fold_left loadLine (split "010" content) (∅, None))).
    split; [by apply linesOf_split |].
    apply reads_fold; [done |]. by destruct (fold_left _ _ _).
Qed.

End LoaderFacts.

(** ** The parsing rule next to the loader *)

Module RuleFacts.
Import JS Loader StringFacts ParsingRule LoaderFacts Scenario.

Lemma rule_entry_unique l token nm token' nm' :
  entry l token nm -> entry l token' nm' -> token = token' /\ nm = nm'.
Proof.
  intros (ws & n & -> & [L A] & [_ W] & _ & ->)
         (ws' & n' & E & [L' A'] & [_ W'] & _ & ->).
  apply app_inv_length in E as [-> E]; [| congruence].
  split; [done |].
  rewrite <- (trim_skip ws n W), <- (trim_skip ws' n' W'). by rewrite E.
Qed.

(** An entry begins with a hexadecimal digit: not with a tab, a [#] or
    white space. *)
Lemma rule_entry_head l token nm :
  entry l token nm ->
  exists c rest, l = String c rest /\ isWhiteSpace c = false
                 /\ c <> tab /\ c <> "#"%char.
Proof.
  intros (ws & n & -> & [L A] & _).
  destruct token as [|c token]; [done |]. simpl in A.
  apply andb_prop in A as [A _].
  apply hex_not_special in A as (Ws & Tb & Hs).
  exists c, (token ++ ws ++ n). repeat split; [done | |].
  - intros ->. discriminate.
  - intros ->. discriminate.
Qed.

(** A line contributes one thing. *)
Lemma rule_contributes_unique l c c' :
  contributes l c -> contributes l c' -> c = c'.
Proof.
  intros C C'.
  destruct C as [l t n E|l t n E|l|l B|l|l NV NP];
    inversion C' as [? t' n' E' L|l' t' n' E' L|l' L|? B' L|l' L|? NV' NP' L];
    subst; try done;
    try (by destruct (rule_entry_unique _ _ _ _ _ E E') as [-> ->]);
    try (by exfalso; eapply NV; eauto);
    try (by exfalso; eapply NV'; eauto);
    try (by exfalso; eapply NP; eauto);
    try (by exfalso; eapply NP'; eauto).
  all: exfalso.
  all: try (apply rule_entry_head in E as (x & rest & Q & Ws & Tb & Hs)).
  all: try (apply rule_entry_head in E' as (x' & rest' & Q' & Ws' & Tb' & Hs')).
  all: try (injection Q as <- <-); try (injection Q' as <- <-); subst; try done.
  all: simpl in *; try rewrite Ws in *; try rewrite Ws' in *; try done.
  all: try (apply andb_prop in B as [_ B]; simpl in B; rewrite Ws in B; done).
  all: try (apply andb_prop in B' as [_ B']; simpl in B'; rewrite Ws' in B'; done).
Qed.

Lemma rule_reads_unique ls st st1 st2 :
  reads ls st st1 -> reads ls st st2 -> st1 = st2.
Proof.
  intros R1. revert st2.
  induction R1 as [st|l ls c st st' C _ IH]; intros st2 R2.
  - by inversion R2.
  - inversion R2 as [|? ? c' ? ? C' R2']; subst.
    rewrite (rule_contributes_unique _ _ _ C C') in IH. by apply IH.
Qed.

(** The rule describes one mapping for a text. *)
Lemma rule_describes_unique content db db' :
  describes content db -> describes content db' -> db = db'.
Proof.
  intros (ls & o & L & R) (ls' & o' & L' & R').
  apply linesOf_split in L, L'. subst.
  by injection (rule_reads_unique _ _ _ _ R R').
Qed.

(** White space after the token is not a name. *)
Lemma unnamed_is_no_entry token nm : ~ entry "1234  " token nm.
Proof.
  intros (ws & text & E & [L _] & [_ W] & Nm & _).
  change ("1234" ++ "  " = token ++ ws ++ text) in E.
  apply app_inv_length in E as [_ E]; [| by rewrite L].
  assert (A : all isWhiteSpace (ws ++ text) = true) by (by rewrite <- E).
  rewrite all_app, W in A. unfold name in Nm. simpl in A. congruence.
Qed.

Lemma unnamed_described : describes usbIdsUnnamed ∅.
Proof.
  exists ["1234  "; ""], None. split; [by apply linesOf_split |].
  apply (reads_line _ _ Nothing).
  { apply malformed_line; [apply unnamed_is_no_entry | done]. }
  apply (reads_line _ _ Nothing); [by apply blank_line |].
  apply reads_done.
Qed.

Lemma crLf_entry : entry ("046d  Logitech" ++ String "013" "") "046d" "Logitech".
Proof.
  exists "  ", ("Logitech" ++ String "013" ""). by repeat split.
Qed.

Lemma crLf_described :
  describes usbIdsCrLf {["046d" := Vendor.mk "Logitech" ∅]}.
Proof.
  exists ["046d  Logitech" ++ String "013" ""; ""], (Some "046d").
  split; [by apply linesOf_split |].
  apply (reads_line _ _ (OpensVendor "046d" "Logitech")).
  { exact (vendor_line _ _ _ crLf_entry). }
  apply (reads_line _ _ Nothing); [by apply blank_line |].
  apply reads_done.
Qed.

(** [C8] The loader does not produce the mapping of the parsing rule for
    every text. A vendor identifier followed by white space and no name
    is a malformed line and the rule describes the empty mapping, but the
    loader opens a vendor section with the empty name. A vendor line of
    a file with CR LF line ends is a token, white space and a name, and
    the rule describes the vendor section with that name, but the loader
    returns the empty mapping. *)
Theorem loader_departs_from_parsing_rule :
  (forall db, describes usbIdsUnnamed db <-> db = ∅)
  /\ readLinuxDeviceDatabase usbIdsUnnamed = {["1234" := Vendor.mk "" ∅]}
  /\ (forall db, describes usbIdsCrLf db
                 <-> db = {["046d" := Vendor.mk "Logitech" ∅]})
  /\ readLinuxDeviceDatabase usbIdsCrLf = ∅.
Proof.
  split; [| split; [| split]].
  - intros db. split.
    + intros D. exact (rule_describes_unique _ _ _ D unnamed_described).
    + intros ->. exact unnamed_described.
  - by vm_compute.
  - intros db. split.
    + intros D. exact (rule_describes_unique _ _ _ D crLf_described).
    + intros ->. exact crLf_described.
  - by vm_compute.
Qed.

End RuleFacts.

(** ** Identifiers in hexadecimal and cache keys *)

Module HexFacts.
Import JS StringFacts.

Lemma toString16_hex (n : N) : all isLowerHex (toString16 n) = true.
Proof.
  unfold toString16. induction (N.to_hex_uint n); simpl; auto.
Qed.

Lemma hex4_hex (n : N) : all isLowerHex (hex4 n) = true.
Proof.
  unfold hex4, padStart. rewrite all_app, toString16_hex, andb_true_r.
  induction (4 - String.length (toString16 n)); simpl; auto.
Qed.

(** Reading back the digits of [hex4 n] gives [n]: the zeros of
    [padStart] do not change the number. *)
Lemma hex4_read (n : N) :
  option_map N.of_hex_uint (NilEmpty.uint_of_string (hex4 n)) = Some n.
Proof.
  unfold hex4, padStart.
  induction (4 - String.length (toString16 n)) as [|k IH]; simpl.
  - unfold toString16. rewrite NilEmpty.usu. simpl. f_equal. apply Unsigned.of_to.
  - destruct (NilEmpty.uint_of_string _); simpl in *; [exact IH | done].
Qed.

Lemma hex4_inj (n m : N) : hex4 n = hex4 m -> n = m.
Proof.
  intros E. pose proof (hex4_read n) as R. rewrite E, hex4_read in R. congruence.
Qed.

(** A key splits at its colon in one way only. *)
Lemma cacheKey_split (a b a' b' : string) :
  all isLowerHex a = true -> all isLowerHex a' = true ->
  cacheKey a b = cacheKey a' b' -> a = a' /\ b = b'.
Proof.
  unfold cacheKey. revert a'.
  induction a as [|c a IH]; intros [|c' a']; simpl.
  - intros _ _ [= ->]. done.
  - intros _ H [= <- _]. done.
  - intros H _ [= -> _]. done.
  - intros H H' [= <- E].
    apply andb_prop in H as [_ H]. apply andb_prop in H' as [_ H'].
    destruct (IH _ H H' E) as [-> ->]. done.
Qed.

Lemma keyOf_hex (d d' : Device) :
  keyOf d = keyOf d' ->
  hex4 (idVendor d) = hex4 (idVendor d') /\ hex4 (idProduct d) = hex4 (idProduct d').
Proof. apply cacheKey_split; apply hex4_hex. Qed.

(** Two devices have the same key exactly when they have the same
    identifier pair. *)
Lemma keyOf_inj (d d' : Device) : keyOf d = keyOf d' -> d = d'.
Proof.
  intros [Ev Ep]%keyOf_hex. apply hex4_inj in Ev, Ep.
  destruct d, d'; simpl in *; congruence.
Qed.

End HexFacts.

(** ** The manager *)

Section ManagerFacts.
Import JS.
Context {VM : Type}.
Variable vmExists : VM -> N -> N -> bool.
Variable vmAdd : VM -> N -> N -> VM.
Variable vmRemove : VM -> N -> N -> VM.
Variable hostExec : nat -> string -> option string.
Implicit Type w : World VM.

#[local] Arguments lsusbAnswer : simpl never.

Ltac run_monad :=
  unfold mbind, M_bind, mret, M_ret, gets, modify, throw, tryCatch,
         liftLocal, withLocals, andThen, notM, detached.

Lemma set_execCalls_same w : set_execCalls (execCalls w) w = w.
Proof. by destruct w. Qed.

(** *** Resolution *)

(** The query of the host never throws: a failure of the command is
    caught and answered by two absent fields. *)
Lemma lsusb_run vidHex pidHex w :
  getDeviceStringsFromLsusb hostExec vidHex pidHex w
  = (inr (lsusbAnswer hostExec (execCalls w) vidHex pidHex),
     set_execCalls (S (execCalls w)) w).
Proof.
  unfold getDeviceStringsFromLsusb, execSync, lsusbAnswer. run_monad.
  by destruct (hostExec (execCalls w) (Lsusb.command vidHex pidHex)).
Qed.

Lemma fetchStrings_run vidHex pidHex (l : Locals) w :
  fetchStrings hostExec vidHex pidHex (l, w)
  = (inr tt, (fst (resolved hostExec (execCalls w) vidHex pidHex l),
              set_execCalls (snd (resolved hostExec (execCalls w) vidHex pidHex l)) w)).
Proof.
  destruct l as [vendor found]. destruct w.
  unfold fetchStrings, resolved. run_monad. cbn [fst snd].
  destruct (truthy found) eqn:Ef; cbn [fst snd].
  - destruct (truthy (Vendor.name <$> vendor)) eqn:Ev; cbn [fst snd]; [done |].
    rewrite lsusb_run. cbn [execCalls set_execCalls fst snd].
    by destruct (truthy (manufacturer _)).
  - rewrite lsusb_run. cbn [execCalls set_execCalls fst snd set_product].
    destruct (truthy (Vendor.name <$> vendor)) eqn:Ev; cbn [fst snd]; [done |].
    rewrite lsusb_run. cbn [execCalls set_execCalls fst snd].
    by destruct (truthy (manufacturer _)).
Qed.

(** A resolution of a pair the cache holds: the string is made from the
    entry and nothing else happens. *)
Lemma stringifyDevice_hit device w cached :
  deviceStringCache w !! keyOf device = Some cached ->
  stringifyDevice hostExec device w = (inr (displayCached device cached), w).
Proof.
  intros H. unfold stringifyDevice. run_monad. unfold keyOf in H. by rewrite H.
Qed.

(** A resolution of a pair the cache does not hold. *)
Lemma stringifyDevice_miss device w :
  deviceStringCache w !! keyOf device = None ->
  let r := resolved hostExec (execCalls w) (hex4 (idVendor device))
             (hex4 (idProduct device)) (databaseLocals w device) in
  stringifyDevice hostExec device w
  = (inr (display (hex4 (idVendor device)) (hex4 (idProduct device))
            (vendorText (fst (fst r))) (orElse (snd (fst r)) "Unknown Product")),
     set_deviceStringCache
       (<[keyOf device :=
            mkDeviceStrings (truthy (Vendor.name <$> fst (fst r)))
                            (truthy (snd (fst r)))]> (deviceStringCache w))
       (set_execCalls (snd r) w)).
Proof.
  intros H r. unfold stringifyDevice. run_monad. unfold keyOf in H. rewrite H.
  rewrite fetchStrings_run. cbn [fst snd].
  subst r. unfold databaseLocals, keyOf, vendorText. run_monad.
  match goal with
  | |- context [resolved ?h ?n ?a ?b ?l] =>
      destruct (resolved h n a b l) as [[vendor found] m]
  end.
  by destruct w.
Qed.

Lemma truthy_nonempty (x : string) : x <> "" -> truthy (Some x) = Some x.
Proof. by destruct x. Qed.

(** With both names in the database the [try] block asks nothing. *)
Lemma resolved_named n vidHex pidHex vendor pn :
  Vendor.name vendor <> "" -> pn <> "" ->
  resolved hostExec n vidHex pidHex (Some vendor, Some pn)
  = ((Some vendor, Some pn), n).
Proof.
  intros Hv Hp. unfold resolved. cbn [fst snd fmap option_fmap option_map].
  by rewrite (truthy_nonempty _ Hv), (truthy_nonempty _ Hp).
Qed.

(** *** What stays once the manager is constructed *)

Lemma evolves_refl w : evolves w w.
Proof. unfold evolves. naive_solver. Qed.

Lemma evolves_trans w1 w2 w3 : evolves w1 w2 -> evolves w2 w3 -> evolves w1 w3.
Proof.
  intros (D & O & A & T & Up & New & L) (D' & O' & A' & T' & Up' & New' & L').
  unfold evolves. do 4 (split; [congruence |]). split; [naive_solver |].
  split; [| congruence].
  intros key e H. destruct (New' _ _ H) as [H'|H']; [auto |].
  right. by rewrite <- D.
Qed.

Lemma evolves_remembers w w' : evolves w w' -> remembers w w'.
Proof. intros (D & _ & _ & _ & Up & New & _). by split. Qed.



(** A change that touches neither the database, the cache nor the
    registrations. *)
Lemma evolves_frame w w' :
  linuxDeviceDatabase w' = linuxDeviceDatabase w ->
  deviceStringCache w' = deviceStringCache w ->
  onlineWatchers w' = onlineWatchers w ->
  attachListeners w' = attachListeners w ->
  detachListeners w' = detachListeners w ->
  length (laterObjects w') = length (laterObjects w) ->
  evolves w w'.
Proof.
  intros D C O A T L. unfold evolves. rewrite D, C, O, A, T, L. naive_solver.
Qed.

Lemma keeps_ret {A} (a : A) : keeps (VM := VM) (mret a).
Proof. intros w. apply evolves_refl. Qed.

Lemma keeps_gets {A} (f : World VM -> A) : keeps (gets f).
Proof. intros w. apply evolves_refl. Qed.

Lemma keeps_throw {A} e : keeps (VM := VM) (throw (A := A) e).
Proof. intros w. apply evolves_refl. Qed.

Lemma keeps_modify (f : World VM -> World VM) :
  (forall w, evolves w (f w)) -> keeps (modify f).
Proof. intros H w. apply H. Qed.

Lemma keeps_bind {A B} (m : M (World VM) A) (f : A -> M (World VM) B) :
  keeps m -> (forall a, keeps (f a)) -> keeps (m ≫= f).
Proof.
  intros Hm Hf w. specialize (Hm w). unfold mbind, M_bind.
  destruct (m w) as [[e|a] w']; simpl in *; [done |].
  eapply evolves_trans; [exact Hm | apply Hf].
Qed.

Lemma keeps_tryCatch {A} (m : M (World VM) A) h :
  keeps m -> (forall e, keeps (h e)) -> keeps (tryCatch m h).
Proof.
  intros Hm Hh w. specialize (Hm w). unfold tryCatch.
  destruct (m w) as [[e|a] w']; simpl in *; [| done].
  eapply evolves_trans; [exact Hm | apply Hh].
Qed.

Lemma keeps_detached (m : M (World VM) unit) : keeps m -> keeps (detached m).
Proof. intros Hm w. apply Hm. Qed.

Lemma keeps_forEach {A} (xs : list A) (body : A -> M (World VM) unit) :
  (forall x, keeps (body x)) -> keeps (forEach xs body).
Proof.
  intros H. induction xs as [|x xs IH]; simpl.
  - apply keeps_ret.
  - apply keeps_bind; auto.
Qed.

Lemma keeps_andThen (a b : M (World VM) bool) :
  keeps a -> keeps b -> keeps (andThen a b).
Proof.
  intros Ha Hb. unfold andThen. apply keeps_bind; [done |].
  intros [|]; [done | apply keeps_ret].
Qed.

Lemma keeps_notM (a : M (World VM) bool) : keeps a -> keeps (notM a).
Proof. intros Ha. unfold notM. apply keeps_bind; [done | intros; apply keeps_ret]. Qed.

(** A method of a later object leaves the instance as it is. *)
Lemma withThis_later i (m : M (World VM) unit) w o :
  laterObjects w !! i = Some o ->
  withThis (S i) m w
  = (fst (m (withFields o w)),
     withFields (fieldsOf w)
       (set_laterObjects
          (<[i := fieldsOf (snd (m (withFields o w)))]>
             (laterObjects (snd (m (withFields o w)))))
          (snd (m (withFields o w))))).
Proof.
  intros H. unfold withThis. rewrite H. by destruct (m (withFields o w)).
Qed.

Lemma keeps_withThis self (m : M (World VM) unit) :
  keeps m -> keeps (withThis self m).
Proof.
  intros Hm w. destruct self as [|i]; [apply Hm |].
  destruct (laterObjects w !! i) as [o|] eqn:H.
  2: { unfold withThis. rewrite H. apply evolves_refl. }
  rewrite (withThis_later _ _ _ _ H). cbn [snd].
  specialize (Hm (withFields o w)).
  destruct (m (withFields o w)) as [r w']. cbn [snd] in *.
  destruct Hm as (D & O & A & T & Up & New & L).
  apply evolves_frame; destruct w, w'; cbn in *; try done.
  by rewrite length_insert.
Qed.

(** A resolution only adds to the cache, and what it adds for a pair
    the database names is what the database says. *)
Lemma keeps_stringifyDevice device :
  keeps (stringifyDevice (VM := VM) hostExec device).
Proof.
  intros w. destruct (deviceStringCache w !! keyOf device) as [cached|] eqn:Hit.
  - rewrite (stringifyDevice_hit _ _ _ Hit). apply evolves_refl.
  - rewrite (stringifyDevice_miss _ _ Hit). cbn [snd].
    set (r := resolved _ _ _ _ _).
    unfold evolves. destruct w; cbn in *. repeat split; try done.
    + intros key e H. rewrite lookup_insert_ne; [done | congruence].
    + intros key e H. destruct (decide (keyOf device = key)) as [<-|Ne].
      * right. rewrite lookup_insert_eq in H. injection H as <-.
        intros d vendor pn Ek Hv Nv Hp Np.
        apply HexFacts.keyOf_hex in Ek as [Ev Ep].
        subst r. unfold databaseLocals. cbn [linuxDeviceDatabase].
        rewrite Ev, Ep, Hv. cbn [mbind option_bind]. rewrite Hp.
        cbn [fst snd fmap option_fmap option_map].
        rewrite !(truthy_nonempty _ Nv), !(truthy_nonempty _ Np).
        cbn [fmap option_fmap option_map]. by rewrite (truthy_nonempty _ Nv).
      * left. by rewrite lookup_insert_ne in H.
Qed.

Create HintDb keeps discriminated.

#[local] Hint Resolve keeps_ret keeps_gets keeps_throw keeps_stringifyDevice
  : keeps.

Ltac frame := intros ?; apply evolves_frame; reflexivity.

Ltac keeps_step :=
  lazymatch goal with
  | |- keeps (mbind _ _) => apply keeps_bind; [| intros ?]
  | |- keeps (modify _) => apply keeps_modify; frame
  | |- keeps (forEach _ _) => apply keeps_forEach; intros ?
  | |- keeps (detached _) => apply keeps_detached
  | |- keeps (andThen _ _) => apply keeps_andThen
  | |- keeps (notM _) => apply keeps_notM
  | |- keeps (withThis _ _) => apply keeps_withThis
  | |- keeps (if ?b then _ else _) => destruct b
  | |- context [match ?x with _ => _ end] => destruct x
  | |- keeps _ => solve [auto with keeps]
  end.

Ltac keeps_all := repeat keeps_step.

Lemma keeps_QMPCheckIfDeviceExists v p :
  keeps (QMPCheckIfDeviceExists vmExists v p).
Proof. unfold QMPCheckIfDeviceExists. keeps_all. Qed.

Lemma keeps_QMPAddDevice v p : keeps (QMPAddDevice vmAdd v p).
Proof. unfold QMPAddDevice. keeps_all. Qed.

Lemma keeps_QMPRemoveDevice v p : keeps (QMPRemoveDevice vmRemove v p).
Proof. unfold QMPRemoveDevice. keeps_all. Qed.

Lemma keeps_convert device :
  keeps (convertDeviceToPTSerializable (VM := VM) device).
Proof. unfold convertDeviceToPTSerializable. keeps_all. Qed.

#[local] Hint Resolve keeps_QMPCheckIfDeviceExists keeps_QMPAddDevice
  keeps_QMPRemoveDevice keeps_convert : keeps.

Lemma keeps_add device :
  keeps (addDeviceToPassthroughList vmExists vmAdd device).
Proof. unfold addDeviceToPassthroughList. keeps_all. Qed.

Lemma keeps_remove ptDevice :
  keeps (removeDeviceFromPassthroughList vmExists vmRemove ptDevice).
Proof. unfold removeDeviceFromPassthroughList. keeps_all. Qed.

Lemma keeps_contains device :
  keeps (isDeviceInPassthroughList (VM := VM) device).
Proof. unfold isDeviceInPassthroughList. keeps_all. Qed.

Lemma keeps_connected ptDevice : keeps (isPTDeviceConnected (VM := VM) ptDevice).
Proof. unfold isPTDeviceConnected. keeps_all. Qed.

#[local] Hint Resolve keeps_add keeps_remove keeps_contains keeps_connected
  : keeps.

Lemma keeps_onAttach device :
  keeps (onAttach vmExists vmAdd hostExec device).
Proof. unfold onAttach. keeps_all. Qed.

Lemma keeps_onDetach device :
  keeps (onDetach vmExists vmRemove hostExec device).
Proof. unfold onDetach. keeps_all. Qed.

Lemma keeps_onGuestOnline online :
  keeps (onGuestOnline vmExists vmAdd online).
Proof. unfold onGuestOnline. keeps_all. Qed.

#[local] Hint Resolve keeps_onAttach keeps_onDetach keeps_onGuestOnline : keeps.

Lemma keeps_hostAttach device now :
  keeps (hostAttach vmExists vmAdd vmRemove hostExec device now).
Proof. unfold hostAttach, runUsbCallback. keeps_all. Qed.

Lemma keeps_hostDetach device now :
  keeps (hostDetach vmExists vmAdd vmRemove hostExec device now).
Proof. unfold hostDetach, runUsbCallback. keeps_all. Qed.

Lemma keeps_guestSignal online :
  keeps (guestSignal vmExists vmAdd online).
Proof. unfold guestSignal, runOnlineCallback. keeps_all. Qed.

(** A resolution returns a string, leaves an entry for the pair, and
    changes the cache and the count of host queries only. *)
Lemma stringifyDevice_frame device w :
  exists text cache' n,
    stringifyDevice hostExec device w
    = (inr text, set_deviceStringCache cache' (set_execCalls n w))
    /\ is_Some (cache' !! keyOf device).
Proof.
  destruct (deviceStringCache w !! keyOf device) as [cached|] eqn:Hit.
  - exists (displayCached device cached), (deviceStringCache w), (execCalls w).
    rewrite (stringifyDevice_hit _ _ _ Hit). split; [by destruct w | by rewrite Hit].
  - rewrite (stringifyDevice_miss _ _ Hit). cbn zeta.
    do 3 eexists. split; [reflexivity |]. by rewrite lookup_insert_eq.
Qed.

Lemma precache_returns (present : list Device) w :
  fst (forEach present (fun d => stringifyDevice hostExec d ;; mret tt) w) = inr tt.
Proof.
  revert w. induction present as [|d present IH]; intros w; [done |].
  cbn [forEach]. run_monad.
  destruct (stringifyDevice_frame d w) as (text & c & n & -> & _). apply IH.
Qed.

Lemma keeps_precache (present : list Device) :
  keeps (forEach present (fun d => stringifyDevice (VM := VM) hostExec d ;; mret tt)).
Proof. keeps_all. Qed.

Lemma precache_frame (present : list Device) w :
  exists c n,
    forEach present (fun d => stringifyDevice hostExec d ;; mret tt) w
    = (inr tt, set_deviceStringCache c (set_execCalls n w))
    /\ (forall k e, deviceStringCache w !! k = Some e -> c !! k = Some e)
    /\ (forall d, d ∈ present -> is_Some (c !! keyOf d)).
Proof.
  revert w. induction present as [|d present IH]; intros w.
  - exists (deviceStringCache w), (execCalls w). simpl.
    split; [by destruct w |]. split; [done |]. by intros d []%elem_of_nil.
  - cbn [forEach]. unfold mbind at 1, M_bind at 1. unfold mbind at 1, M_bind at 1.
    destruct (stringifyDevice_frame d w) as (text & c1 & n1 & E & [e1 C1]).
    pose proof (keeps_stringifyDevice d w) as (_ & _ & _ & _ & Up & _).
    rewrite E in *. cbn [snd mret M_ret] in *.
    destruct (IH (set_deviceStringCache c1 (set_execCalls n1 w)))
      as (c & n & -> & Up2 & All).
    exists c, n. split; [by destruct w |]. split.
    + intros k e H. apply Up2. apply Up in H. by destruct w.
    + intros d' [->|H]%elem_of_cons; [| auto].
      exists e1. apply Up2. by destruct w.
Qed.

(** *** Construction *)

(** What the body of the constructor does to the object it runs on and
    to the rest of the state. *)
Lemma constructor_run self content w :
  exists c n,
    constructor hostExec self content w
    = (inr tt,
       set_usbListeners
         (attachListeners w ++ [AttachCallback self])%list
         (detachListeners w ++ [DetachCallback self])%list
         (set_ptDevices (passedThroughDevices w)
            (set_deviceStringCache c
               (set_execCalls n
                  (set_devices (hostDevices w)
                     (set_linuxDeviceDatabase
                        (Loader.readLinuxDeviceDatabase content) w))))))
    /\ (forall k e, deviceStringCache w !! k = Some e -> c !! k = Some e)
    /\ (forall d, d ∈ hostDevices w -> is_Some (c !! keyOf d)).
Proof.
  unfold constructor, setupUpdateListeners.
  unfold mbind at 1, M_bind at 1, modify at 1.
  unfold mbind at 1, M_bind at 1, gets at 1.
  unfold mbind at 1, M_bind at 1, modify at 1.
  unfold mbind at 1, M_bind at 1, gets at 1.
  unfold mbind at 1, M_bind at 1.
  match goal with
  | |- context [forEach ?xs _ ?w0] =>
      destruct (precache_frame xs w0) as (c & n & -> & Up & All)
  end.
  exists c, n. split; [by destruct w |]. split.
  - intros k e H. apply Up. by destruct w.
  - intros d H. apply All. by destruct w.
Qed.

(** A further [new USBManager()] leaves the instance and the shared
    state as they are, but for the host commands of the new object's
    resolutions and for its two callbacks, registered after the others. *)
Lemma newManager_run content w :
  exists o n,
    newManager hostExec content w
    = (inr tt,
       set_laterObjects (laterObjects w ++ [o])%list
         (set_usbListeners
            (attachListeners w
             ++ [AttachCallback (S (length (laterObjects w)))])%list
            (detachListeners w
             ++ [DetachCallback (S (length (laterObjects w)))])%list
            (set_execCalls n w))).
Proof.
  unfold newManager.
  unfold mbind at 1, M_bind at 1, gets at 1.
  unfold mbind at 1, M_bind at 1, modify at 1.
  set (w1 := set_laterObjects _ w).
  assert (laterObjects w1 !! length (laterObjects w) = Some (mkObject [] [] ∅ ∅))
    as Look.
  { subst w1. destruct w; cbn. by apply list_lookup_middle. }
  rewrite (withThis_later _ _ _ _ Look).
  destruct (constructor_run (S (length (laterObjects w))) content
              (withFields (mkObject [] [] ∅ ∅) w1)) as (c & n & -> & _).
  cbn [fst snd].
  exists (mkObject (hostDevices w) (passedThroughDevices w)
            (Loader.readLinuxDeviceDatabase content) c), n.
  f_equal. subst w1. destruct w; cbn.
  rewrite insert_app_r_alt by lia. rewrite Nat.sub_diag. cbn. reflexivity.
Qed.

(** Every call and event of a constructed manager keeps the database,
    the registrations and the entries of the cache. *)
Lemma evolves_perform a w :
  match a with
  | Construct _ => True
  | _ => evolves w (perform vmExists vmAdd vmRemove hostExec a w)
  end.
Proof.
  destruct a; cbn [perform].
  - done.
  - apply keeps_stringifyDevice.
  - apply keeps_add.
  - apply keeps_remove.
  - apply keeps_contains.
  - apply keeps_connected.
  - apply keeps_hostAttach.
  - apply keeps_hostDetach.
  - apply keeps_guestSignal.
Qed.

(** Whatever happens, a further construction included, the instance
    keeps its database and the entries of its cache. *)
Lemma remembers_perform a w :
  remembers w (perform vmExists vmAdd vmRemove hostExec a w).
Proof.
  pose proof (evolves_perform a w) as E.
  destruct a; try (by apply evolves_remembers).
  cbn [perform]. destruct (newManager_run content w) as (o & n & ->).
  cbn [snd]. unfold remembers. destruct w; cbn. naive_solver.
Qed.


(** *** A constructed manager *)

Lemma agrees_remembers w w' : agrees w -> remembers w w' -> agrees w'.
Proof.
  intros Ag (D & _ & New) key e H. rewrite D.
  destruct (New _ _ H) as [H'|H']; [by apply Ag | done].
Qed.

Lemma wired_evolves w w' : wired w -> evolves w w' -> wired w'.
Proof.
  intros (O & A & T) (_ & O' & A' & T' & _ & _ & L). unfold wired.
  by rewrite O', A', T', L.
Qed.

Lemma wired_perform a w :
  wired w -> wired (perform vmExists vmAdd vmRemove hostExec a w).
Proof.
  intros Wi. pose proof (evolves_perform a w) as E.
  destruct a; try (by eapply wired_evolves).
  cbn [perform]. destruct (newManager_run content w) as (o & n & ->).
  cbn [snd]. destruct Wi as (O & A & T). unfold wired.
  set (k := length (laterObjects w)) in *.
  match goal with
  | |- context [set_laterObjects ?l ?w0] =>
      assert (length (laterObjects (set_laterObjects l w0)) = S k) as ->
        by (destruct w; cbn; rewrite length_app; cbn; subst k; cbn; lia);
      replace (onlineWatchers (set_laterObjects l w0)) with (onlineWatchers w)
        by (by destruct w);
      replace (attachListeners (set_laterObjects l w0))
        with (attachListeners w ++ [AttachCallback (S k)])%list
        by (by destruct w);
      replace (detachListeners (set_laterObjects l w0))
        with (detachListeners w ++ [DetachCallback (S k)])%list
        by (by destruct w)
  end.
  rewrite A, T, (seq_S (S k) 0), !map_app. done.
Qed.

(** The constructor registers the two hotplug callbacks and no watcher of
    the guest signal, and leaves a cache that agrees with the database. *)
Lemma constructed_invariant content persisted online plugged (guest : VM) :
  let w := constructed hostExec content persisted online plugged guest in
  wired w /\ agrees w.
Proof.
  unfold constructed, constructor, setupUpdateListeners. run_monad.
  cbn [fresh set_linuxDeviceDatabase set_devices hostDevices devices fst snd].
  match goal with
  | |- context [forEach ?xs ?f ?w0] =>
      assert (Ret : fst (forEach xs f w0) = inr tt)
        by apply precache_returns;
      assert (Ev : evolves w0 (snd (forEach xs f w0)))
        by apply keeps_precache;
      destruct (forEach xs f w0) as [r w3]
  end.
  cbn [fst snd] in *. subst r. cbn [snd].
  assert (agrees w3) as Ag.
  { eapply agrees_remembers; [| apply evolves_remembers; exact Ev].
    intros key e H. simpl in H. by rewrite lookup_empty in H. }
  destruct Ev as (_ & O & A & T & _ & _ & L). cbn in A, T, O, L.
  destruct w3. cbn in *. subst. split; [| exact Ag].
  unfold wired. cbn. destruct laterObjects0; done.
Qed.

Lemma reachable_invariant w :
  reachable vmExists vmAdd vmRemove hostExec w -> wired w /\ agrees w.
Proof.
  induction 1 as [content persisted online plugged guest|a w R [Wi Ag]].
  - apply constructed_invariant.
  - split; [by apply wired_perform |].
    eapply agrees_remembers; [exact Ag | apply remembers_perform].
Qed.

(** *** Conversion to a passthrough record *)

Lemma convert_miss (device : Device) w :
  deviceStringCache w !! keyOf device = None ->
  convertDeviceToPTSerializable device w
  = (inl (StringsNotInCache (keyOf device)), w).
Proof.
  unfold convertDeviceToPTSerializable, keyOf. run_monad. by intros ->.
Qed.

Lemma convert_hit (device : Device) w cached :
  deviceStringCache w !! keyOf device = Some cached ->
  convertDeviceToPTSerializable device w
  = (inr (mkPT (idVendor device) (idProduct device) cached), w).
Proof.
  unfold convertDeviceToPTSerializable, keyOf. run_monad. by intros ->.
Qed.

(** [C4] Converting a live device whose identifier pair has no entry in
    the cache of device strings throws the error that says the strings
    are not in the cache; when the pair has an entry the conversion
    returns the record made of the device's vendor and product
    identifiers and of the cached manufacturer and product strings. In
    both cases the state is left as it was. *)
Theorem conversion_needs_cached_strings (device : Device) w :
  (deviceStringCache w !! keyOf device = None ->
   convertDeviceToPTSerializable device w
   = (inl (StringsNotInCache (keyOf device)), w))
  /\ (forall cached,
       deviceStringCache w !! keyOf device = Some cached ->
       convertDeviceToPTSerializable device w
       = (inr (mkPT (idVendor device) (idProduct device) cached), w)).
Proof. split; [apply convert_miss | intros cached; apply convert_hit]. Qed.

(** *** The passthrough list *)

Lemma find_existsb {A} (f : A -> bool) (l : list A) :
  existsb f l = true -> exists x, List.find f l = Some x.
Proof.
  induction l as [|a l IH]; simpl; [done |].
  destruct (f a); simpl; eauto.
Qed.

Lemma add_duplicate_run (device : Device) w cached :
  deviceStringCache w !! keyOf device = Some cached ->
  existsb (hasPair (idVendor device) (idProduct device)) (passedThroughDevices w)
  = true ->
  addDeviceToPassthroughList vmExists vmAdd device w
  = (inl (AlreadyInPassthroughList
            (mkPT (idVendor device) (idProduct device) cached)), w).
Proof.
  intros Hit Dup. unfold addDeviceToPassthroughList.
  unfold mbind at 1, M_bind at 1. rewrite (convert_hit _ _ _ Hit).
  run_monad. cbn [vendorId productId].
  by destruct (find_existsb _ _ Dup) as [x ->].
Qed.

(** [C3] When the passthrough list holds a record with the identifier
    pair of the device, adding the record of that device (the device's
    strings being in the cache, so that there is a record to add) throws
    the duplicate error and leaves the whole state as it was: the list
    and its mirror are the same, and no call is made on the VM control
    channel. *)
Theorem duplicate_add_is_rejected (device : Device) w cached :
  deviceStringCache w !! keyOf device = Some cached ->
  existsb (hasPair (idVendor device) (idProduct device)) (passedThroughDevices w)
  = true ->
  let ptDevice := mkPT (idVendor device) (idProduct device) cached in
  let after := snd (addDeviceToPassthroughList vmExists vmAdd device w) in
  addDeviceToPassthroughList vmExists vmAdd device w
  = (inl (AlreadyInPassthroughList ptDevice), w)
  /\ passedThroughDevices after = passedThroughDevices w
  /\ List.length (passedThroughDevices after)
     = List.length (passedThroughDevices w)
  /\ ptDevices after = ptDevices w
  /\ qmpCalls after = qmpCalls w.
Proof.
  intros Hit Dup ptDevice after. subst after ptDevice.
  by rewrite (add_duplicate_run _ _ _ Hit Dup).
Qed.

(** An add of a listed pair fails whatever the cache holds, and changes
    nothing: without cached strings the conversion throws first. *)
Lemma add_of_listed_pair_fails (device : Device) w :
  existsb (hasPair (idVendor device) (idProduct device)) (passedThroughDevices w)
  = true ->
  exists e, addDeviceToPassthroughList vmExists vmAdd device w = (inl e, w).
Proof.
  intros Dup.
  destruct (deviceStringCache w !! keyOf device) as [cached|] eqn:Hit.
  - eexists. by apply add_duplicate_run.
  - eexists. unfold addDeviceToPassthroughList.
    unfold mbind at 1, M_bind at 1. by rewrite (convert_miss _ _ Hit).
Qed.

(** What [removeDeviceFromPassthroughList] leaves in the list: the
    records that differ from the given one in both identifiers. *)
Lemma remove_keeps_records_differing_in_both ptDevice w :
  passedThroughDevices
    (snd (removeDeviceFromPassthroughList vmExists vmRemove ptDevice w))
  = List.filter (keptOnRemove (vendorId ptDevice) (productId ptDevice))
                (passedThroughDevices w).
Proof.
  unfold removeDeviceFromPassthroughList, QMPCheckIfDeviceExists,
    QMPRemoveDevice.
  run_monad. destruct w; cbn. by destruct (vmExists _ _ _).
Qed.

(** *** Hotplug events *)

(** Membership in the passthrough list once the strings are cached. *)
Lemma contains_run (device : Device) w cached :
  deviceStringCache w !! keyOf device = Some cached ->
  isDeviceInPassthroughList device w
  = (inr (existsb (hasPair (idVendor device) (idProduct device))
                  (passedThroughDevices w)), w).
Proof.
  intros Hit. unfold isDeviceInPassthroughList.
  unfold mbind at 1, M_bind at 1.
  by rewrite (convert_hit _ _ _ Hit).
Qed.

(** The attach callback, on the object it belongs to: it does not throw;
    it takes the snapshot, resolves the device, and calls the VM control
    channel once, to add the device, exactly when the guest is online, the
    pair is listed and the channel does not report the device. *)
Lemma onAttach_run (device : Device) w :
  let v := idVendor device in
  let p := idProduct device in
  let go := isOnline w && existsb (hasPair v p) (passedThroughDevices w)
            && negb (vmExists (vm w) v p) in
  exists c n,
    onAttach vmExists vmAdd hostExec device w
    = (inr tt,
       let resolved :=
         set_deviceStringCache c
           (set_execCalls n (set_devices (hostDevices w) w)) in
       if go
       then set_vm (vmAdd (vm w) v p) (qmpCalls w ++ [AddDevice v p])%list resolved
       else resolved)
    /\ is_Some (c !! keyOf device).
Proof.
  intros v p go. unfold onAttach.
  unfold mbind at 1, M_bind at 1, gets at 1.
  unfold mbind at 1, M_bind at 1, modify at 1.
  unfold mbind at 1, M_bind at 1.
  destruct (stringifyDevice_frame device (set_devices (hostDevices w) w))
    as (text & c & n & -> & [cached Hit]).
  exists c, n. split; [| by exists cached]. cbv zeta.
  set (w2 := set_deviceStringCache c _).
  assert (deviceStringCache w2 !! keyOf device = Some cached) as Hit2
    by (by destruct w).
  unfold mbind at 1, M_bind at 1, andThen at 1.
  unfold mbind at 1, M_bind at 1, gets at 1.
  replace (isOnline w2) with (isOnline w) by (by destruct w).
  subst go. destruct (isOnline w); cbn [andb]; [| reflexivity].
  unfold andThen, mbind at 1, M_bind at 1.
  rewrite (contains_run _ _ _ Hit2).
  replace (passedThroughDevices w2) with (passedThroughDevices w)
    by (by destruct w).
  fold v p. destruct (existsb (hasPair v p) (passedThroughDevices w));
    cbn [andb]; [| reflexivity].
  unfold notM, QMPCheckIfDeviceExists, QMPAddDevice. run_monad.
  replace (vm w2) with (vm w) by (by destruct w).
  destruct (vmExists (vm w) v p); cbn [negb]; [reflexivity |].
  rewrite (stringifyDevice_hit _ _ _ Hit2). reflexivity.
Qed.

(** The detach callback, symmetrically: one call, to remove the device,
    exactly when the guest is online, the pair is listed and the channel
    reports the device. *)
Lemma onDetach_run (device : Device) w :
  let v := idVendor device in
  let p := idProduct device in
  let go := isOnline w && existsb (hasPair v p) (passedThroughDevices w)
            && vmExists (vm w) v p in
  exists c n,
    onDetach vmExists vmRemove hostExec device w
    = (inr tt,
       let resolved :=
         set_deviceStringCache c
           (set_execCalls n (set_devices (hostDevices w) w)) in
       if go
       then set_vm (vmRemove (vm w) v p) (qmpCalls w ++ [RemoveDevice v p])%list
                   resolved
       else resolved)
    /\ is_Some (c !! keyOf device).
Proof.
  intros v p go. unfold onDetach.
  unfold mbind at 1, M_bind at 1, gets at 1.
  unfold mbind at 1, M_bind at 1, modify at 1.
  unfold mbind at 1, M_bind at 1.
  destruct (stringifyDevice_frame device (set_devices (hostDevices w) w))
    as (text & c & n & -> & [cached Hit]).
  exists c, n. split; [| by exists cached]. cbv zeta.
  set (w2 := set_deviceStringCache c _).
  assert (deviceStringCache w2 !! keyOf device = Some cached) as Hit2
    by (by destruct w).
  unfold mbind at 1, M_bind at 1, andThen at 1.
  unfold mbind at 1, M_bind at 1, gets at 1.
  replace (isOnline w2) with (isOnline w) by (by destruct w).
  subst go. destruct (isOnline w); cbn [andb]; [| reflexivity].
  unfold andThen, mbind at 1, M_bind at 1.
  rewrite (contains_run _ _ _ Hit2).
  replace (passedThroughDevices w2) with (passedThroughDevices w)
    by (by destruct w).
  fold v p. destruct (existsb (hasPair v p) (passedThroughDevices w));
    cbn [andb]; [| reflexivity].
  unfold QMPCheckIfDeviceExists, QMPRemoveDevice. run_monad.
  replace (vm w2) with (vm w) by (by destruct w).
  destruct (vmExists (vm w) v p); [| reflexivity].
  rewrite (stringifyDevice_hit _ _ _ Hit2). reflexivity.
Qed.

(** What a callback that calls the VM control channel under a guard
    [go] does to the state all objects share, whichever object owns it. *)
Lemma guarded_callback_run (this : nat) (m : M (World VM) unit)
    (go : World VM -> bool) (change : World VM -> VM) (call : QMPCall) w :
  (forall w0, exists c n,
     m w0 = (inr tt,
             let resolved :=
               set_deviceStringCache c
                 (set_execCalls n (set_devices (hostDevices w0) w0)) in
             if go w0
             then set_vm (change w0) (qmpCalls w0 ++ [call])%list resolved
             else resolved)) ->
  (forall o w0, go (withFields o w0) = go w0) ->
  (forall o w0, change (withFields o w0) = change w0) ->
  this <= length (laterObjects w) ->
  exists w',
    withThis this m w = (inr tt, w')
    /\ qmpCalls w' = (qmpCalls w ++ if go w then [call] else [])%list
    /\ vm w' = (if go w then change w else vm w)
    /\ isOnline w' = isOnline w
    /\ passedThroughDevices w' = passedThroughDevices w
    /\ length (laterObjects w') = length (laterObjects w)
    /\ (this <> 0 -> fieldsOf w' = fieldsOf w).
Proof.
  intros Run Go Change Le. destruct this as [|i].
  - cbn [withThis]. destruct (Run w) as (c & n & ->). eexists. split; [reflexivity |].
    cbv zeta. destruct (go w); destruct w; cbn; rewrite ?List.app_nil_r; done.
  - destruct (lookup_lt_is_Some_2 (laterObjects w) i) as [o Look]; [lia |].
    rewrite (withThis_later _ _ _ _ Look).
    destruct (Run (withFields o w)) as (c & n & ->). cbn [fst snd].
    eexists. split; [reflexivity |]. cbv zeta.
    rewrite (Go o w), (Change o w).
    destruct (go w); destruct w; cbn in *;
      rewrite ?List.app_nil_r, ?length_insert; done.
Qed.

(** The callbacks of one attach event, run one after the other. *)
Lemma attach_callbacks_run (device : Device) (n : nat) : forall first w,
  first + n <= S (length (laterObjects w)) ->
  let v := idVendor device in
  let p := idProduct device in
  exists w',
    forEach (map AttachCallback (seq first n))
      (fun c => detached (runUsbCallback vmExists vmAdd vmRemove hostExec c device)) w
    = (inr tt, w')
    /\ qmpCalls w'
       = (qmpCalls w
          ++ if isOnline w && existsb (hasPair v p) (passedThroughDevices w)
             then addsBy vmExists vmAdd n (vm w) v p else [])%list.
Proof.
  induction n as [|n IH]; intros first w Le v p.
  - exists w. split; [done |]. cbn.
    by destruct (_ && _); rewrite List.app_nil_r.
  - cbn [seq map forEach runUsbCallback].
    unfold mbind at 1, M_bind at 1, detached at 1.
    destruct (guarded_callback_run first
                (onAttach vmExists vmAdd hostExec device)
                (fun w0 => isOnline w0
                           && existsb (hasPair v p) (passedThroughDevices w0)
                           && negb (vmExists (vm w0) v p))
                (fun w0 => vmAdd (vm w0) v p) (AddDevice v p) w)
      as (w1 & E1 & Q1 & V1 & O1 & L1 & N1 & _).
    { intros w0. destruct (onAttach_run device w0) as (c & k & E & _). eauto. }
    { intros o w0. by destruct w0. }
    { intros o w0. by destruct w0. }
    { lia. }
    rewrite E1. cbn [snd].
    destruct (IH (S first) w1) as (w' & -> & Q); [lia |].
    exists w'. split; [done |]. rewrite Q, Q1, O1, L1, V1. cbn [addsBy].
    fold v p.
    destruct (isOnline w); cbn [andb]; [| by rewrite !List.app_nil_r].
    destruct (existsb (hasPair v p) (passedThroughDevices w)); cbn [andb];
      [| by rewrite !List.app_nil_r].
    destruct (vmExists (vm w) v p); cbn [negb];
      [by rewrite List.app_nil_r | by rewrite <- List.app_assoc].
Qed.

Lemma detach_callbacks_run (device : Device) (n : nat) : forall first w,
  first + n <= S (length (laterObjects w)) ->
  let v := idVendor device in
  let p := idProduct device in
  exists w',
    forEach (map DetachCallback (seq first n))
      (fun c => detached (runUsbCallback vmExists vmAdd vmRemove hostExec c device)) w
    = (inr tt, w')
    /\ qmpCalls w'
       = (qmpCalls w
          ++ if isOnline w && existsb (hasPair v p) (passedThroughDevices w)
             then removesBy vmExists vmRemove n (vm w) v p else [])%list.
Proof.
  induction n as [|n IH]; intros first w Le v p.
  - exists w. split; [done |]. cbn.
    by destruct (_ && _); rewrite List.app_nil_r.
  - cbn [seq map forEach runUsbCallback].
    unfold mbind at 1, M_bind at 1, detached at 1.
    destruct (guarded_callback_run first
                (onDetach vmExists vmRemove hostExec device)
                (fun w0 => isOnline w0
                           && existsb (hasPair v p) (passedThroughDevices w0)
                           && vmExists (vm w0) v p)
                (fun w0 => vmRemove (vm w0) v p) (RemoveDevice v p) w)
      as (w1 & E1 & Q1 & V1 & O1 & L1 & N1 & _).
    { intros w0. destruct (onDetach_run device w0) as (c & k & E & _). eauto. }
    { intros o w0. by destruct w0. }
    { intros o w0. by destruct w0. }
    { lia. }
    rewrite E1. cbn [snd].
    destruct (IH (S first) w1) as (w' & -> & Q); [lia |].
    exists w'. split; [done |]. rewrite Q, Q1, O1, L1, V1. cbn [removesBy].
    fold v p.
    destruct (isOnline w); cbn [andb]; [| by rewrite !List.app_nil_r].
    destruct (existsb (hasPair v p) (passedThroughDevices w)); cbn [andb];
      [| by rewrite !List.app_nil_r].
    destruct (vmExists (vm w) v p);
      [by rewrite <- List.app_assoc | by rewrite List.app_nil_r].
Qed.

(** The calls of the callbacks are adds of the pair; there is one at
    least exactly when the channel does not report the device, and one at
    most when the channel reports a device once it is added. *)
Lemma addsBy_calls (n : nat) (guest : VM) (v p : N) :
  (forall c, c ∈ addsBy vmExists vmAdd n guest v p -> c = AddDevice v p)
  /\ (addsBy vmExists vmAdd n guest v p <> []
      <-> n <> 0 /\ vmExists guest v p = false)
  /\ (vmExists (vmAdd guest v p) v p = true ->
      length (addsBy vmExists vmAdd n guest v p) <= 1).
Proof.
  assert (forall m g, vmExists g v p = true -> addsBy vmExists vmAdd m g v p = [])
    as Reported.
  { induction m as [|m IH]; intros g H; simpl; [done |]. rewrite H. by apply IH. }
  split; [| split].
  - clear. revert guest. induction n as [|n IH]; intros guest c; simpl.
    + by intros []%elem_of_nil.
    + destruct (vmExists guest v p); [apply IH |].
      intros [->|H]%elem_of_cons; [done | by eapply IH].
  - destruct n as [|n]; simpl; [naive_solver |].
    destruct (vmExists guest v p) eqn:E; [| naive_solver].
    rewrite (Reported _ guest E). naive_solver.
  - intros H. destruct n as [|n]; simpl; [lia |].
    destruct (vmExists guest v p) eqn:E.
    + rewrite (Reported _ guest E). simpl. lia.
    + destruct n as [|n]; simpl; [lia |]. rewrite H.
      rewrite (Reported _ _ H). simpl. lia.
Qed.

Lemma removesBy_calls (n : nat) (guest : VM) (v p : N) :
  (forall c, c ∈ removesBy vmExists vmRemove n guest v p -> c = RemoveDevice v p)
  /\ (removesBy vmExists vmRemove n guest v p <> []
      <-> n <> 0 /\ vmExists guest v p = true)
  /\ (vmExists (vmRemove guest v p) v p = false ->
      length (removesBy vmExists vmRemove n guest v p) <= 1).
Proof.
  assert (forall m g, vmExists g v p = false ->
                      removesBy vmExists vmRemove m g v p = []) as Gone.
  { induction m as [|m IH]; intros g H; simpl; [done |]. rewrite H. by apply IH. }
  split; [| split].
  - clear. revert guest. induction n as [|n IH]; intros guest c; simpl.
    + by intros []%elem_of_nil.
    + destruct (vmExists guest v p); [| apply IH].
      intros [->|H]%elem_of_cons; [done | by eapply IH].
  - destruct n as [|n]; simpl; [naive_solver |].
    destruct (vmExists guest v p) eqn:E; [naive_solver |].
    rewrite (Gone _ guest E). naive_solver.
  - intros H. destruct n as [|n]; simpl; [lia |].
    destruct (vmExists guest v p) eqn:E.
    + destruct n as [|n]; simpl; [lia |]. rewrite H.
      rewrite (Gone _ _ H). simpl. lia.
    + rewrite (Gone _ guest E). simpl. lia.
Qed.

(** What one hotplug event adds to the calls made on the VM control
    channel, in a state reachable from the constructor. *)
Lemma hotplug_calls (device : Device) (now : list Device) w :
  reachable vmExists vmAdd vmRemove hostExec w ->
  let v := idVendor device in
  let p := idProduct device in
  let listed := existsb (hasPair v p) (passedThroughDevices w) in
  let objects := S (length (laterObjects w)) in
  qmpCalls (perform vmExists vmAdd vmRemove hostExec (HostAttach device now) w)
  = (qmpCalls w ++ if isOnline w && listed
                   then addsBy vmExists vmAdd objects (vm w) v p else [])%list
  /\ qmpCalls (perform vmExists vmAdd vmRemove hostExec (HostDetach device now) w)
     = (qmpCalls w ++ if isOnline w && listed
                      then removesBy vmExists vmRemove objects (vm w) v p
                      else [])%list.
Proof.
  intros R v p listed objects.
  destruct (reachable_invariant _ R) as [(_ & A & T) _]. split.
  - cbn [perform]. unfold hostAttach.
    unfold mbind at 1, M_bind at 1, modify at 1.
    unfold mbind at 1, M_bind at 1, gets at 1.
    replace (attachListeners (set_hostDevices now w))
      with (map AttachCallback (seq 0 objects)) by (by destruct w; cbn in *).
    destruct (attach_callbacks_run device objects 0 (set_hostDevices now w))
      as (w' & -> & Q); [subst objects; destruct w; cbn; lia |].
    cbn [snd]. rewrite Q. by destruct w.
  - cbn [perform]. unfold hostDetach.
    unfold mbind at 1, M_bind at 1, modify at 1.
    unfold mbind at 1, M_bind at 1, gets at 1.
    replace (detachListeners (set_hostDevices now w))
      with (map DetachCallback (seq 0 objects)) by (by destruct w; cbn in *).
    destruct (detach_callbacks_run device objects 0 (set_hostDevices now w))
      as (w' & -> & Q); [subst objects; destruct w; cbn; lia |].
    cbn [snd]. rewrite Q. by destruct w.
Qed.

(** [C7] On a hotplug event, in every state reachable from the
    constructor by calls, events and further constructions: the calls an
    attach event makes on the VM control channel are adds of the device
    of the event, and one is made if and only if the guest is online, the
    identifier pair of the device is in the passthrough list and the
    channel does not report the device attached; the calls a detach event
    makes are removes of the device, and one is made if and only if the
    guest is online, the pair is listed and the channel reports the device
    attached. In particular an event makes no call while the guest is
    offline. Every object constructed has its own pair of callbacks, so
    the calls are those of as many guarded callbacks as there are
    objects, [addsBy] and [removesBy]: one call when the channel reports a
    device once it is added, one per object when it never does. *)
Theorem hotplug_calls_are_guarded (device : Device) (now : list Device) w :
  reachable vmExists vmAdd vmRemove hostExec w ->
  let v := idVendor device in
  let p := idProduct device in
  let listed := existsb (hasPair v p) (passedThroughDevices w) in
  let attached := vmExists (vm w) v p in
  let objects := S (length (laterObjects w)) in
  exists added removed,
    qmpCalls (perform vmExists vmAdd vmRemove hostExec (HostAttach device now) w)
    = (qmpCalls w ++ added)%list
    /\ qmpCalls (perform vmExists vmAdd vmRemove hostExec (HostDetach device now) w)
       = (qmpCalls w ++ removed)%list
    /\ added = (if isOnline w && listed
                then addsBy vmExists vmAdd objects (vm w) v p else [])
    /\ removed = (if isOnline w && listed
                  then removesBy vmExists vmRemove objects (vm w) v p else [])
    /\ (forall c, c ∈ added -> c = AddDevice v p)
    /\ (forall c, c ∈ removed -> c = RemoveDevice v p)
    /\ (added <> [] <-> isOnline w = true /\ listed = true /\ attached = false)
    /\ (removed <> [] <-> isOnline w = true /\ listed = true /\ attached = true)
    /\ (vmExists (vmAdd (vm w) v p) v p = true -> length added <= 1)
    /\ (vmExists (vmRemove (vm w) v p) v p = false -> length removed <= 1)
    /\ (isOnline w = false -> added = [] /\ removed = []).
Proof.
  intros R v p listed attached objects.
  destruct (hotplug_calls device now w R) as [EA ED].
  destruct (addsBy_calls objects (vm w) v p) as (AllA & SomeA & OneA).
  destruct (removesBy_calls objects (vm w) v p) as (AllR & SomeR & OneR).
  eexists _, _. split; [exact EA |]. split; [exact ED |].
  split; [reflexivity |]. split; [reflexivity |].
  fold v p listed objects attached in SomeA, SomeR |- *.
  destruct (isOnline w), listed; cbn [andb].
  - split; [exact AllA |]. split; [exact AllR |].
    split; [rewrite SomeA; subst objects; naive_solver |].
    split; [rewrite SomeR; subst objects; naive_solver |].
    split; [exact OneA |]. split; [exact OneR | done].
  - do 2 (split; [by intros c []%elem_of_nil |]).
    do 2 (split; [naive_solver |]). cbn. repeat split; (lia || done).
  - do 2 (split; [by intros c []%elem_of_nil |]).
    do 2 (split; [naive_solver |]). cbn. repeat split; (lia || done).
  - do 2 (split; [by intros c []%elem_of_nil |]).
    do 2 (split; [naive_solver |]). cbn. repeat split; (lia || done).
Qed.

(** *** The guest signal *)

(** No callback watches the guest signal of a constructed manager: the
    constructor calls [#setupUpdateListeners] only, and nothing calls
    [#setupGuestOnlineListener]. A change of the signal changes the
    signal and nothing else. *)
Lemma guest_signal_runs_no_callback online w :
  reachable vmExists vmAdd vmRemove hostExec w ->
  guestSignal vmExists vmAdd online w = (inr tt, set_isOnline online w).
Proof.
  intros R. destruct (reachable_invariant _ R) as [(O & _) _].
  unfold guestSignal. run_monad.
  destruct (Bool.eqb (isOnline w) online); [done |]. cbn beta.
  replace (onlineWatchers (set_isOnline online w)) with (@nil OnlineCallback)
    by (by destruct w; cbn in *).
  done.
Qed.

(** *** Resolution and the cache *)


Lemma orElse_nonempty (x fallback : string) :
  x <> "" -> orElse (Some x) fallback = x.
Proof. by destruct x. Qed.

(** [C6] In a constructed manager, a pair whose vendor and product both
    have a (non-empty) name in the database resolves to
    [[vidHex:pidHex] Vendor | Product] with the names of the database,
    and the resolution makes no query of the host. *)
Theorem database_names_need_no_fallback (device : Device) w vendor pn :
  reachable vmExists vmAdd vmRemove hostExec w ->
  linuxDeviceDatabase w !! hex4 (idVendor device) = Some vendor ->
  Vendor.name vendor <> "" ->
  Vendor.devices vendor !! hex4 (idProduct device) = Some pn ->
  pn <> "" ->
  fst (stringifyDevice hostExec device w)
  = inr (display (hex4 (idVendor device)) (hex4 (idProduct device))
                 (Vendor.name vendor) pn)
  /\ execCalls (snd (stringifyDevice hostExec device w)) = execCalls w.
Proof.
  intros R Hv Nv Hp Np. destruct (reachable_invariant _ R) as [_ Ag].
  destruct (deviceStringCache w !! keyOf device) as [cached|] eqn:Hit.
  - rewrite (stringifyDevice_hit _ _ _ Hit). cbn [fst snd]. split; [| done].
    rewrite (Ag _ _ Hit device vendor pn eq_refl Hv Nv Hp Np).
    unfold displayCached. cbn [manufacturer product].
    by rewrite !orElse_nonempty.
  - rewrite (stringifyDevice_miss _ _ Hit). cbn zeta.
    unfold databaseLocals. rewrite Hv. cbn [mbind option_bind]. rewrite Hp.
    rewrite resolved_named by done. cbn [fst snd vendorText].
    rewrite orElse_nonempty by done. split; [done | by destruct w].
Qed.

(** A query of the host that fails is caught where it is made: the
    caller gets two absent fields. *)
Lemma failed_query_is_caught vidHex pidHex w :
  hostExec (execCalls w) (Lsusb.command vidHex pidHex) = None ->
  getDeviceStringsFromLsusb hostExec vidHex pidHex w
  = (inr (mkDeviceStrings None None), set_execCalls (S (execCalls w)) w).
Proof. intros H. rewrite lsusb_run. unfold lsusbAnswer. by rewrite H. Qed.

Lemma truthy_idempotent (x : option string) : truthy (truthy x) = truthy x.
Proof. by destruct x as [[|]|]. Qed.

(** With a host that fails every query the [try] block learns nothing. *)
Lemma resolved_without_host n vidHex pidHex (l : Locals) :
  (forall n command, hostExec n command = None) ->
  let r := fst (resolved hostExec n vidHex pidHex l) in
  fst r = fst l /\ truthy (snd r) = truthy (snd l).
Proof.
  intros Fail. unfold resolved, lsusbAnswer. rewrite !Fail.
  cbn [fst snd manufacturer product truthy].
  split.
  - by destruct (truthy (Vendor.name <$> fst l)).
  - by destruct (truthy (snd l)) eqn:E.
Qed.

(** What a resolution returns and leaves behind. *)
Lemma resolution_outcome (device : Device) w :
  let vh := hex4 (idVendor device) in
  let ph := hex4 (idProduct device) in
  let vendor := linuxDeviceDatabase w !! vh in
  let found := vendor ≫= fun v => Vendor.devices v !! ph in
  exists text w',
    stringifyDevice hostExec device w = (inr text, w')
    /\ is_Some (deviceStringCache w' !! keyOf device)
    /\ ((forall n command, hostExec n command = None) ->
        deviceStringCache w !! keyOf device = None ->
        text = display vh ph (vendorText vendor) (orElse found "Unknown Product")
        /\ deviceStringCache w' !! keyOf device
           = Some (mkDeviceStrings (truthy (Vendor.name <$> vendor))
                                   (truthy found))).
Proof.
  intros vh ph vendor found.
  destruct (deviceStringCache w !! keyOf device) as [cached|] eqn:Hit.
  - do 2 eexists. rewrite (stringifyDevice_hit _ _ _ Hit).
    split; [reflexivity |]. split; [rewrite Hit; eauto | done].
  - do 2 eexists. rewrite (stringifyDevice_miss _ _ Hit). cbn zeta.
    split; [reflexivity |]. split.
    { destruct w; cbn. rewrite lookup_insert_eq. eauto. }
    intros Fail _.
    destruct (resolved_without_host (execCalls w) vh ph
                (databaseLocals w device) Fail) as [Ev Ef].
    fold vh ph. cbn zeta in Ev, Ef.
    change (fst (databaseLocals w device)) with vendor in Ev.
    change (snd (databaseLocals w device)) with found in Ef.
    match goal with
    | |- context [orElse ?x "Unknown Product"] =>
        assert (orElse x "Unknown Product" = orElse found "Unknown Product")
          as Eo by (unfold orElse; by rewrite Ef)
    end.
    rewrite Eo, Ev. split; [reflexivity |].
    rewrite Ef. destruct w; cbn. by rewrite lookup_insert_eq.
Qed.

(** A resolution never throws: whatever the host answers, it
    returns a string and leaves an entry for the pair in the cache; a
    failure of a query of the host is caught and counts as no
    information. When every query fails, a first resolution of a pair
    shows the names the database has, [Unknown Vendor] and
    [Unknown Product] when the database has no section for the vendor,
    [Unknown Product] when it has no name for the product, and the entry
    it stores holds what the database gave. *)
Theorem resolution_never_fails (device : Device) w :
  let vh := hex4 (idVendor device) in
  let ph := hex4 (idProduct device) in
  let vendor := linuxDeviceDatabase w !! vh in
  let found := vendor ≫= fun v => Vendor.devices v !! ph in
  let r := stringifyDevice hostExec device w in
  (exists text, fst r = inr text)
  /\ is_Some (deviceStringCache (snd r) !! keyOf device)
  /\ ((forall n command, hostExec n command = None) ->
      deviceStringCache w !! keyOf device = None ->
      fst r = inr (display vh ph (vendorText vendor)
                           (orElse found "Unknown Product"))
      /\ (vendor = None ->
          fst r = inr (display vh ph "Unknown Vendor" "Unknown Product"))
      /\ (truthy found = None ->
          fst r = inr (display vh ph (vendorText vendor) "Unknown Product"))
      /\ deviceStringCache (snd r) !! keyOf device
         = Some (mkDeviceStrings (truthy (Vendor.name <$> vendor))
                                 (truthy found))).
Proof.
  intros vh ph vendor found r.
  destruct (resolution_outcome device w) as (text & w' & E & Cached & Off).
  subst r. rewrite E. cbn [fst snd].
  split; [eauto |]. split; [done |].
  intros Fail Miss. destruct (Off Fail Miss) as [-> Stored].
  fold vh ph vendor found. split; [done |]. split; [| split; [| done]].
  - intros Nv. subst found. by rewrite Nv.
  - intros Nf. unfold orElse. by rewrite Nf.
Qed.

(** The string of the first resolution and the string made from the
    entry it stores are the same, except when the database has a
    section for the vendor whose name is empty. *)
Lemma first_and_later_agree_for_named_vendors (device : Device) w :
  deviceStringCache w !! keyOf device = None ->
  (forall v, linuxDeviceDatabase w !! hex4 (idVendor device) = Some v ->
             Vendor.name v <> "") ->
  let first := stringifyDevice hostExec device w in
  fst (stringifyDevice hostExec device (snd first)) = fst first.
Proof.
  intros Hit Named first. subst first.
  rewrite (stringifyDevice_miss _ _ Hit). cbn zeta. cbn [fst snd].
  erewrite stringifyDevice_hit.
  2: { cbn [deviceStringCache set_deviceStringCache]. apply lookup_insert_eq. }
  cbn [fst]. f_equal. unfold displayCached. cbn [manufacturer product].
  unfold orElse. rewrite !truthy_idempotent. f_equal.
  unfold resolved, databaseLocals. cbn [fst snd].
  destruct (linuxDeviceDatabase w !! hex4 (idVendor device)) as [v|] eqn:Ev.
  - specialize (Named v eq_refl). cbn [fmap option_fmap option_map].
    rewrite (truthy_nonempty _ Named). cbn [vendorText fmap option_fmap option_map].
    by rewrite (truthy_nonempty _ Named).
  - cbn [fmap option_fmap option_map truthy].
    destruct (truthy (manufacturer _)) as [m|] eqn:Em; [| done].
    cbn [vendorText fmap option_fmap option_map Vendor.name].
    destruct m; [| done].
    by destruct (manufacturer _) as [[|]|].
Qed.

End ManagerFacts.

(** ** The installation of [Scenario] *)

Module ScenarioFacts.
Import JS Scenario.

(** [C1] Removing a record excludes every record that shares either
    identifier with it, not only the records with the same pair: removing
    the receiver [046d:c52b] from the list of the keyboard [046d:c31c] and
    the receiver empties the list, and so does removing the mouse
    [046d:c077], which is not in the list. *)
Theorem remove_drops_records_sharing_one_identifier :
  let w := manager usbIds [keyboardRecord; receiverRecord] false [] in
  passedThroughDevices
    (snd (removeDeviceFromPassthroughList Stub.exists_ Stub.remove receiverRecord w))
  = []
  /\ passedThroughDevices
       (snd (removeDeviceFromPassthroughList Stub.exists_ Stub.remove mouseRecord w))
     = [].
Proof. split; vm_compute; reflexivity. Qed.

(** [C2] The guest coming online after construction makes no call on the
    VM control channel although the receiver is listed, plugged in and
    not attached: the callback of [#setupGuestOnlineListener] is never
    registered. Run by hand on the same state, the callback adds the
    receiver. *)
Theorem guest_online_reconciles_nothing :
  let w := manager usbIds [receiverRecord] false [receiver] in
  qmpCalls (perform Stub.exists_ Stub.add Stub.remove unreachableHost
                    (GuestSignal true) w) = []
  /\ onlineWatchers w = []
  /\ qmpCalls (snd (onGuestOnline Stub.exists_ Stub.add true w))
     = [AddDevice 0x046d 0xc52b].
Proof. repeat split; vm_compute; reflexivity. Qed.

(** [C10] With a database whose vendor [1234] has an empty name and a
    host that gives no manufacturer, the first resolution of [1234:0001]
    shows an empty vendor name and every later one [Unknown Vendor]. *)
Theorem first_and_later_resolution_differ :
  let w := manager usbIdsUnnamed [] false [] in
  let device := mkDevice 0x1234 1 in
  let first := stringifyDevice unreachableHost device w in
  let later := stringifyDevice unreachableHost device (snd first) in
  (Vendor.name <$> linuxDeviceDatabase w !! "1234") = Some ""
  /\ fst first = inr "[1234:0001]  | Unknown Product"
  /\ fst later = inr "[1234:0001] Unknown Vendor | Unknown Product".
Proof. repeat split; vm_compute; reflexivity. Qed.

(** [C9] With a database whose vendor [1234] has an empty name and
    every query of the host failing, a first resolution of [1234:0001]
    returns and stores an entry for the pair, after the two queries it
    tried; the entry has no manufacturer and no product, and yet the
    string shows an empty vendor name where [Unknown Vendor] is due. *)
Theorem missing_vendor_is_not_shown_unknown :
  let w := manager usbIdsUnnamed [] false [] in
  let device := mkDevice 0x1234 1 in
  let r := stringifyDevice unreachableHost device w in
  linuxDeviceDatabase w !! "1234" = Some (Vendor.mk "" ∅)
  /\ deviceStringCache w !! "1234:0001" = None
  /\ execCalls (snd r) = execCalls w + 2
  /\ deviceStringCache (snd r) !! "1234:0001"
     = Some (mkDeviceStrings None None)
  /\ fst r = inr "[1234:0001]  | Unknown Product"
  /\ fst r <> inr "[1234:0001] Unknown Vendor | Unknown Product".
Proof. repeat split; vm_compute; (reflexivity || discriminate). Qed.

Lemma conversion_needs_cached_strings_witness :
  convertDeviceToPTSerializable receiver (manager usbIds [] false [])
  = (inl (StringsNotInCache "046d:c52b"), manager usbIds [] false [])
  /\ convertDeviceToPTSerializable receiver (manager usbIds [] false [receiver])
     = (inr receiverRecord, manager usbIds [] false [receiver]).
Proof.
  split.
  - apply (proj1 (conversion_needs_cached_strings receiver
                    (manager usbIds [] false []))).
    vm_compute. reflexivity.
  - apply (proj2 (conversion_needs_cached_strings receiver
                    (manager usbIds [] false [receiver]))
             (mkDeviceStrings (Some "Logitech") (Some "Unifying Receiver"))).
    vm_compute. reflexivity.
Defined.

Lemma duplicate_add_is_rejected_witness :
  let w := manager usbIds [receiverRecord] false [receiver] in
  addDeviceToPassthroughList Stub.exists_ Stub.add receiver w
  = (inl (AlreadyInPassthroughList receiverRecord), w).
Proof.
  refine (proj1 (duplicate_add_is_rejected Stub.exists_ Stub.add receiver
           (manager usbIds [receiverRecord] false [receiver])
           (mkDeviceStrings (Some "Logitech") (Some "Unifying Receiver")) _ _)).
  - vm_compute. reflexivity.
  - vm_compute. reflexivity.
Defined.

Lemma database_names_need_no_fallback_witness :
  let w := manager usbIds [] false [] in
  fst (stringifyDevice unreachableHost receiver w)
  = inr "[046d:c52b] Logitech | Unifying Receiver"
  /\ execCalls (snd (stringifyDevice unreachableHost receiver w)) = 0.
Proof.
  apply (database_names_need_no_fallback Stub.exists_ Stub.add Stub.remove
           unreachableHost receiver (manager usbIds [] false [])
           (Vendor.mk "Logitech" {["c52b" := "Unifying Receiver"]})
           "Unifying Receiver").
  - exact (reachable_constructed Stub.exists_ Stub.add Stub.remove
             unreachableHost usbIds [] false [] tt).
  - vm_compute. reflexivity.
  - discriminate.
  - vm_compute. reflexivity.
  - discriminate.
Defined.

Lemma hotplug_calls_are_guarded_witness :
  let one := manager usbIds [receiverRecord] true [] in
  let two := perform Stub.exists_ Stub.add Stub.remove unreachableHost
               (Construct usbIds) one in
  let offline := manager usbIds [receiverRecord] false [] in
  qmpCalls (perform Stub.exists_ Stub.add Stub.remove unreachableHost
                    (HostAttach receiver [receiver]) one)
  = [AddDevice 0x046d 0xc52b]
  /\ qmpCalls (perform Stub.exists_ Stub.add Stub.remove unreachableHost
                       (HostAttach receiver [receiver]) two)
     = [AddDevice 0x046d 0xc52b; AddDevice 0x046d 0xc52b]
  /\ qmpCalls (perform Stub.exists_ Stub.add Stub.remove unreachableHost
                       (HostAttach receiver [receiver]) offline)
     = [].
Proof.
  intros one two offline.
  pose proof (reachable_constructed Stub.exists_ Stub.add Stub.remove
                unreachableHost usbIds [receiverRecord] true [] tt) as R1.
  pose proof (reachable_perform Stub.exists_ Stub.add Stub.remove
                unreachableHost (Construct usbIds) _ R1) as R2.
  pose proof (reachable_constructed Stub.exists_ Stub.add Stub.remove
                unreachableHost usbIds [receiverRecord] false [] tt) as R0.
  split; [| split].
  - pose proof (hotplug_calls_are_guarded Stub.exists_ Stub.add Stub.remove
                  unreachableHost receiver [receiver] one R1) as H.
    cbv zeta in H. destruct H as (added & removed & EA & _ & -> & _).
    etransitivity; [exact EA |]. vm_compute. reflexivity.
  - pose proof (hotplug_calls_are_guarded Stub.exists_ Stub.add Stub.remove
                  unreachableHost receiver [receiver] two R2) as H.
    cbv zeta in H. destruct H as (added & removed & EA & _ & -> & _).
    etransitivity; [exact EA |]. vm_compute. reflexivity.
  - pose proof (hotplug_calls_are_guarded Stub.exists_ Stub.add Stub.remove
                  unreachableHost receiver [receiver] offline R0) as H.
    cbv zeta in H. destruct H as (added & removed & EA & _ & -> & _).
    etransitivity; [exact EA |]. vm_compute. reflexivity.
Defined.

Lemma resolution_never_fails_witness :
  let w := manager usbIds [] false [] in
  fst (stringifyDevice unreachableHost (mkDevice 0x1d6b 2) w)
  = inr "[1d6b:0002] Unknown Vendor | Unknown Product"
  /\ fst (stringifyDevice unreachableHost (mkDevice 0x046d 0xc31c) w)
     = inr "[046d:c31c] Logitech | Unknown Product".
Proof.
  split.
  - apply (resolution_never_fails unreachableHost (mkDevice 0x1d6b 2)
             (manager usbIds [] false [])); reflexivity.
  - apply (resolution_never_fails unreachableHost (mkDevice 0x046d 0xc31c)
             (manager usbIds [] false [])); reflexivity.
Defined.

End ScenarioFacts.

(** ** The reconciliation callback over the stub *)

Module ReconcilerFacts.

(** [X23] The callback of [#setupGuestOnlineListener], had it been
    registered: over the stub of the VM control channel, which reports nothing
    attached, it adds every listed record that is connected, once each
    and in list order. *)
Lemma callback_adds_connected_records (w : World unit) :
  let connected r :=
    existsb (fun d => (idVendor d =? vendorId r)%N && (idProduct d =? productId r)%N)
            (devices w) in
  qmpCalls (snd (onGuestOnline Stub.exists_ Stub.add true w))
  = (qmpCalls w
     ++ map (fun r => AddDevice (vendorId r) (productId r))
            (List.filter connected (passedThroughDevices w)))%list.
Proof.
  intros connected. unfold onGuestOnline. cbn [negb].
  unfold mbind at 1, M_bind at 1, gets at 1.
  generalize (passedThroughDevices w) as records. intros records.
  assert (forall w', devices w' = devices w ->
    qmpCalls (snd (forEach records (fun ptDevice =>
      go ← andThen (isPTDeviceConnected ptDevice)
            (notM (QMPCheckIfDeviceExists Stub.exists_
                     (vendorId ptDevice) (productId ptDevice)));
      if go : bool
      then QMPAddDevice Stub.add (vendorId ptDevice) (productId ptDevice)
      else mret tt) w'))
    = (qmpCalls w'
       ++ map (fun r => AddDevice (vendorId r) (productId r))
              (List.filter connected records))%list) as Loop.
  { induction records as [|r records IH]; intros w' D.
    - simpl. by rewrite List.app_nil_r.
    - cbn [forEach List.filter]. unfold mbind at 1, M_bind at 1.
      unfold mbind at 1, M_bind at 1, andThen, isPTDeviceConnected, notM,
        QMPCheckIfDeviceExists, QMPAddDevice, Stub.exists_.
      unfold mbind, M_bind, gets, modify, mret, M_ret. cbn [fst snd negb].
      rewrite D. fold (connected r). destruct (connected r).
      + rewrite IH by (by destruct w'). destruct w'; cbn.
        by rewrite <- List.app_assoc.
      + by rewrite IH. }
  by apply Loop.
Qed.

End ReconcilerFacts.
(** ** More on the database loader *)

Module LoaderMore.
Import JS Regex Loader StringFacts RegexFacts LineForms LoaderFacts.

Lemma trimEnd_idempotent (s : string) : trimEnd (trimEnd s) = trimEnd s.
Proof.
  induction s as [|c s IH]; [done |]. simpl.
  destruct (trimEnd s) as [|c' t] eqn:E.
  - destruct (isWhiteSpace c) eqn:Ws; [done |]. simpl. by rewrite Ws.
  - change (trimEnd (String c (String c' t))) with
      (match trimEnd (String c' t) with
       | EmptyString => if isWhiteSpace c then EmptyString else String c EmptyString
       | t' => String c t'
       end).
    by rewrite IH.
Qed.

Lemma trimStart_fixed (s : string) :
  match s with String c _ => isWhiteSpace c = false | EmptyString => True end ->
  trimStart s = s.
Proof. destruct s as [|c s]; [done |]. simpl. by intros ->. Qed.

Lemma trimStart_head (s : string) :
  match trimStart s with
  | String c _ => isWhiteSpace c = false
  | EmptyString => True
  end.
Proof.
  induction s as [|c s IH]; [done |]. simpl.
  destruct (isWhiteSpace c) eqn:E; [exact IH | exact E].
Qed.

Lemma trimEnd_head (s : string) :
  match s with String c _ => isWhiteSpace c = false | EmptyString => True end ->
  match trimEnd s with
  | String c _ => isWhiteSpace c = false
  | EmptyString => True
  end.
Proof.
  destruct s as [|c s]; [done |]. simpl. intros Ws.
  destruct (trimEnd s); [by rewrite Ws | done].
Qed.

(** [trim] leaves a trimmed string as it is. *)
Lemma trim_idempotent (s : string) : trim (trim s) = trim s.
Proof.
  unfold trim.
  rewrite (trimStart_fixed (trimEnd (trimStart s))).
  - apply trimEnd_idempotent.
  - apply trimEnd_head, trimStart_head.
Qed.

Lemma lower_hex c : isHexDigit c = true -> isLowerHex (toLowerChar c) = true.
Proof. destruct c as [[] [] [] [] [] [] [] []]; vm_compute; auto. Qed.

Lemma hexKey_token (token : string) :
  hexToken token -> hexKey (toLowerCase token).
Proof.
  intros [L A]. split; [by rewrite length_toLowerCase |].
  clear L. induction token as [|c t IH]; [done |]. simpl in *.
  apply andb_prop in A as [Hc A]. by rewrite (lower_hex _ Hc), IH.
Qed.

Lemma entry_tidy l token nm :
  entry l token nm -> hexKey (toLowerCase token) /\ trim nm = nm.
Proof.
  intros (ws & nm' & _ & T & _ & _ & ->). split; [by apply hexKey_token |].
  apply trim_idempotent.
Qed.

(** What a line contributes keeps a database tidy. *)
Lemma tidy_record st c l :
  tidy (fst st) -> contributes l c -> tidy (fst (record st c)).
Proof.
  intros Ti C.
  destruct C as [l token nm E|l token nm E| | | |]; simpl; auto.
  - destruct (entry_tidy _ _ _ E) as [K T]. intros k v.
    destruct (decide (toLowerCase token = k)) as [<-|Ne].
    + rewrite lookup_insert_eq. intros [= <-]. simpl.
      split; [done |]. split; [done |].
      intros k' n H. by rewrite lookup_empty in H.
    + rewrite lookup_insert_ne by done. apply Ti.
  - destruct (entry_tidy _ _ _ E) as [K T].
    destruct (snd st) as [open|]; [| done]. simpl. intros k v.
    destruct (decide (open = k)) as [<-|Ne].
    + rewrite lookup_alter_eq. destruct (fst st !! open) as [v0|] eqn:Ev; [| done].
      simpl. intros [= <-]. simpl.
      destruct (Ti _ _ Ev) as (Kk & Tn & Dv).
      split; [done |]. split; [done |]. intros k' n H.
      destruct (decide (toLowerCase token = k')) as [<-|Ne'].
      * rewrite lookup_insert_eq in H. by injection H as <-.
      * rewrite lookup_insert_ne in H by done. by apply (Dv k' n).
    + rewrite lookup_alter_ne by done. apply Ti.
Qed.

Lemma fold_invariant ls st :
  opened st -> tidy (fst st) ->
  opened (fold_left loadLine ls st) /\ tidy (fst (fold_left loadLine ls st)).
Proof.
  revert st. induction ls as [|l ls IH]; intros st O Ti; [done |].
  simpl. destruct (contributes_total l) as [c C].
  rewrite (loadLine_contributes _ _ _ O C).
  apply IH; [by eapply opened_record | by eapply tidy_record].
Qed.

(** [X1] Every key of the database the loader returns, of a vendor or of a
    product, is made of four hexadecimal digits in lower case, and no
    name it holds has white space around it. *)
Theorem loaded_database_is_tidy (content : string) :
  tidy (readLinuxDeviceDatabase content).
Proof.
  unfold readLinuxDeviceDatabase. apply fold_invariant.
  - by intros cur.
  - intros k v. simpl. by rewrite lookup_empty.
Qed.


Lemma split_app sep (a b : string) :
  split sep (a ++ String sep b) = (split sep a ++ split sep b)%list.
Proof.
  induction a as [|c a IH]; simpl.
  - by rewrite Ascii.eqb_refl.
  - destruct (Ascii.eqb c sep); [by rewrite IH |].
    rewrite IH. pose proof (split_nonempty sep a) as N.
    by destruct (split sep a).
Qed.

(** [X2] A vendor line at the end of the text opens a section with no product,
    whatever the text said of that vendor before; a product line after it
    puts its product in that section. *)
Theorem last_vendor_line_opens_an_empty_section
    (content lv tv nv lp tp np : string) :
  all (fun c => negb (Ascii.eqb c "010")) lv = true ->
  all (fun c => negb (Ascii.eqb c "010")) lp = true ->
  entry lv tv nv -> entry lp tp np ->
  readLinuxDeviceDatabase (content ++ String "010" lv) !! toLowerCase tv
  = Some (Vendor.mk nv ∅)
  /\ readLinuxDeviceDatabase
       (content ++ String "010" (lv ++ String "010" (String tab lp)))
     !! toLowerCase tv
     = Some (Vendor.mk nv {[toLowerCase tp := np]}).
Proof.
  intros NoLfV NoLfP Ev Ep. unfold readLinuxDeviceDatabase.
  assert (O0 : opened (∅, None)) by (by intros cur).
  assert (T0 : tidy (fst (∅ : LinuxDeviceDatabase, @None string)))
    by (intros k v; simpl; by rewrite lookup_empty).
  destruct (fold_invariant (split "010" content) _ O0 T0) as [O _].
  set (st := fold_left loadLine (split "010" content) (∅, None)) in *.
  assert (loadLine st lv
          = (<[toLowerCase tv := Vendor.mk nv ∅]> (fst st), Some (toLowerCase tv)))
    as Step.
  { rewrite (loadLine_contributes st lv (OpensVendor (toLowerCase tv) nv) O);
      [done | by constructor]. }
  assert (NoLfT : all (fun c => negb (Ascii.eqb c "010")) (String tab lp) = true)
    by (simpl; exact NoLfP).
  split.
  - rewrite split_app, fold_left_app, (split_no_separator _ _ NoLfV).
    simpl. fold st. rewrite Step. apply lookup_insert_eq.
  - rewrite split_app, fold_left_app, split_app, fold_left_app.
    rewrite (split_no_separator _ _ NoLfV), (split_no_separator _ _ NoLfT).
    simpl. fold st. rewrite Step.
    rewrite (loadLine_contributes _ (String tab lp)
               (AddsProduct (toLowerCase tp) np)).
    + simpl. rewrite lookup_alter_eq, lookup_insert_eq. reflexivity.
    + eapply (opened_record st (OpensVendor (toLowerCase tv) nv)); [done |].
      by constructor.
    + by constructor.
Qed.

End LoaderMore.

(** ** Substrings *)

Module TextFacts.
Import Text StringFacts.

Lemma startsWith_app (p s : string) : startsWith p (p ++ s) = true.
Proof.
  induction p as [|a p IH]; simpl; [done |].
  by rewrite Ascii.eqb_refl, IH.
Qed.

Lemma includes_here (needle s : string) :
  startsWith needle s = true -> includes needle s = true.
Proof. intros H. destruct s; simpl in *; by rewrite H. Qed.

Lemma includes_app (needle before after : string) :
  includes needle (before ++ needle ++ after) = true.
Proof.
  induction before as [|a before IH]; simpl.
  - apply includes_here, startsWith_app.
  - rewrite IH. apply orb_true_r.
Qed.

End TextFacts.

(** ** More on identifiers and keys *)

Module KeyMore.
Import JS StringFacts HexFacts.

Lemma length_repeatChar (k : nat) (c : ascii) :
  String.length (repeatChar k c) = k.
Proof. induction k as [|k IH]; simpl; [done | by rewrite IH]. Qed.

(** A check of all the numbers below a bound, by counting up. *)
Lemma checked_below (f : N -> bool) (m : N) :
  let step := fun ka : N * bool => (N.succ (fst ka), f (fst ka) && snd ka) in
  fst (N.iter m step (0%N, true)) = m
  /\ (snd (N.iter m step (0%N, true)) = true ->
      forall n, (n < m)%N -> f n = true).
Proof.
  intros step. induction m as [|m [F A]] using N.peano_ind.
  - split; [done |]. intros _ n H. lia.
  - rewrite N.iter_succ. unfold step at 1 3. cbn [fst snd]. rewrite F.
    split; [done |]. intros [Hm Hr]%andb_prop n Hn.
    destruct (N.eq_dec n m) as [->|Ne]; [done |]. apply A; [done | lia].
Qed.

Lemma toString16_short (n : N) :
  (n < 65536)%N -> String.length (toString16 n) <= 4.
Proof.
  intros H. apply Nat.leb_le.
  apply (proj2 (checked_below
                  (fun n => Nat.leb (String.length (toString16 n)) 4) 65536)); [| done].
  vm_compute. reflexivity.
Qed.

(** [X3] The text of an identifier: lower-case hexadecimal digits, at least
    four of them, exactly four for a 16-bit identifier, and with the
    value of the identifier when read back. *)
Theorem identifier_text_round_trip (n : N) :
  all isLowerHex (hex4 n) = true
  /\ 4 <= String.length (hex4 n)
  /\ ((n < 65536)%N -> String.length (hex4 n) = 4)
  /\ option_map N.of_hex_uint (NilEmpty.uint_of_string (hex4 n)) = Some n.
Proof.
  split; [apply hex4_hex |]. split; [| split; [| apply hex4_read]].
  - unfold hex4, padStart. rewrite length_app, length_repeatChar. lia.
  - intros H. apply toString16_short in H.
    unfold hex4, padStart. rewrite length_app, length_repeatChar. lia.
Qed.

(** [X4] Two devices have the same cache key exactly when they have the same
    vendor identifier and the same product identifier. *)
Theorem cache_keys_identify_pairs (d d' : Device) :
  keyOf d = keyOf d' <->
  idVendor d = idVendor d' /\ idProduct d = idProduct d'.
Proof.
  split.
  - by intros ->%keyOf_inj.
  - intros [Ev Ep]. unfold keyOf. by rewrite Ev, Ep.
Qed.

End KeyMore.

(** ** The output of the host command against the shape of a field *)

Module LsusbFacts.
Import JS Regex StringFacts RegexFacts Lsusb LsusbRule.

Ltac by_character c :=
  destruct c as [[] [] [] [] [] [] [] []]; vm_compute; (reflexivity || discriminate).

Lemma digit_not_space c : isDigit c = true -> isWhiteSpace c = false.
Proof. destruct c as [[] [] [] [] [] [] [] []]; vm_compute; auto; discriminate. Qed.

Lemma space_not_digit c : isWhiteSpace c = true -> isDigit c = false.
Proof. destruct c as [[] [] [] [] [] [] [] []]; vm_compute; auto; discriminate. Qed.

Lemma lastOr_app prev t u : lastOr prev (t ++ u) = lastOr (lastOr prev t) u.
Proof. revert prev. induction t as [|c t IH]; intros prev; simpl; [done | apply IH]. Qed.

Lemma length_nonempty (s : string) : 1 <= String.length s -> s <> "".
Proof. destruct s; simpl; [lia | done]. Qed.

Section Matching.
Context {R : Type}.

(** A literal, read by an expression without the [i] flag, is the text
    itself. *)
Lemma lit_Some (l : string) prev s caps
    (k : option ascii -> string -> list string -> option R) r :
  run multilineFlag (lit l) prev s caps k = Some r ->
  exists u, s = l ++ u /\ k (lastOr prev l) u caps = Some r.
Proof.
  revert prev s. induction l as [|c l IH]; intros prev s; simpl.
  - intros H. by exists s.
  - destruct s as [|c' s]; [done |].
    unfold charMatch. cbn [ignoreCase multilineFlag].
    destruct (Ascii.eqb_spec c c') as [<-|]; [| done].
    intros (u & -> & K)%IH. by exists u.
Qed.

Lemma lit_read (l : string) prev u caps
    (k : option ascii -> string -> list string -> option R) :
  run multilineFlag (lit l) prev (l ++ u) caps k = k (lastOr prev l) u caps.
Proof.
  revert prev. induction l as [|c l IH]; intros prev; simpl; [done |].
  unfold charMatch. cbn [ignoreCase multilineFlag].
  by rewrite Ascii.eqb_refl, IH.
Qed.

(** A greedy repetition reads a whole run, one that ends where the class
    ends, when the continuation accepts what follows it. *)
Lemma rep_greedy ok lo prev t u (k : option ascii -> string -> option R) r :
  all ok t = true -> lo <= String.length t ->
  match u with EmptyString => True | String c _ => ok c = false end ->
  k (lastOr prev t) u = Some r ->
  rep ok lo None prev (t ++ u) k = Some r.
Proof.
  revert lo prev. induction t as [|c t IH]; intros lo prev A L E K.
  - simpl in L. assert (lo = 0) as -> by lia. simpl in *.
    destruct u as [|c u]; simpl; [done |]. by rewrite E.
  - simpl in A. apply andb_prop in A as [Ok A]. simpl. rewrite Ok.
    rewrite (IH (Nat.pred lo) (Some c) A); [done | simpl in L; lia | done | done].
Qed.

End Matching.

(** A match found by the search starts at some position of the text. *)
Lemma search_Some fl r prev s m :
  search fl r prev s = Some m ->
  exists before rest,
    s = before ++ rest /\ matchHere fl r (lastOr prev before) rest = Some m.
Proof.
  revert prev. induction s as [|c s IH]; intros prev; cbn [search].
  - destruct (matchHere fl r prev "") eqn:E; [| done].
    intros [= <-]. by exists "", "".
  - destruct (matchHere fl r prev (String c s)) eqn:E.
    + intros [= <-]. by exists "", (String c s).
    + intros (before & rest & -> & H)%IH. by exists (String c before), rest.
Qed.

(** What a match of one of the two expressions has read. *)
Lemma field_Some (label output : string) m :
  exec multilineFlag (field label) output = Some m ->
  exists text, fieldLine label output text /\ group 1 m = text.
Proof.
  unfold exec. intros (before & rest & -> & H)%search_Some.
  unfold matchHere, field in H. cbn [run] in H.
  assert (lineStart before) as Start.
  { unfold lineStart. destruct (lastOr None before) as [c|]; [| done].
    cbn [multiline multilineFlag andb] in H. by destruct (isLineTerminator c). }
  assert (rep (classMatch multilineFlag isWhiteSpace) 0 None
            (lastOr None before) rest
            (fun prev' s' =>
               run multilineFlag (lit label) prev' s' []
                 (fun prev' s' caps' =>
                    rep (classMatch multilineFlag isWhiteSpace) 1 None prev' s'
                      (fun prev' s' =>
                         rep (classMatch multilineFlag isDigit) 1 None prev' s'
                           (fun prev' s' =>
                              rep (classMatch multilineFlag isWhiteSpace) 1 None
                                prev' s'
                                (fun prev' s'0 =>
                                   rep (classMatch multilineFlag isDot) 1 None
                                     prev' s'0
                                     (fun prev' s' =>
                                        match s' with
                                        | "" =>
                                            Some (consumed rest s'
                                                  :: caps' ++ [consumed s'0 s'])%list
                                        | String c _ =>
                                            if multiline multilineFlag
                                               && isLineTerminator c
                                            then Some (consumed rest s'
                                                       :: caps' ++ [consumed s'0 s'])%list
                                            else None
                                        end))))))
          = Some m) as H'.
  { destruct (lastOr None before) as [c|]; [| exact H].
    destruct (multiline multilineFlag && isLineTerminator c); [exact H | done]. }
  clear H.
  apply rep_Some in H' as (indent & r1 & -> & Ai & _ & _ & H).
  apply lit_Some in H as (r2 & -> & H).
  apply rep_Some in H as (gap1 & r3 & -> & A1 & L1 & _ & H).
  apply rep_Some in H as (index & r4 & -> & A2 & L2 & _ & H).
  apply rep_Some in H as (gap2 & r5 & -> & A3 & L3 & _ & H).
  apply rep_Some in H as (text & after & -> & A4 & L4 & _ & H).
  exists text.
  assert (lineEnd after /\ group 1 m = text) as [End G].
  { destruct after as [|c after].
    - injection H as <-. split; [done |]. unfold group. simpl.
      by rewrite app_empty_r, consumed_all.
    - cbn [multiline multilineFlag andb] in H.
      destruct (isLineTerminator c) eqn:T; [| done]. injection H as <-.
      split; [exact T |]. unfold group. simpl. apply consumed_app. }
  split; [| exact G].
  exists before, indent, gap1, index, gap2, after.
  split; [done |]. split; [done |]. split; [done |].
  split; [exact Ai |].
  split; [by apply length_nonempty |]. split; [exact A1 |].
  split; [by apply length_nonempty |]. split; [exact A2 |].
  split; [by apply length_nonempty |]. split; [exact A3 |].
  split; [by apply length_nonempty | exact A4].
Qed.

Lemma head_not (ok : ascii -> bool) (s rest : string) :
  s <> "" -> all ok (String.substring 0 1 s) = false ->
  match s ++ rest with EmptyString => True | String c _ => ok c = false end.
Proof.
  destruct s as [|c s]; [done |]. intros _. simpl.
  destruct s; simpl; rewrite andb_true_r; done.
Qed.

Lemma head_all (ok ok' : ascii -> bool) (s rest : string) :
  (forall c, ok c = true -> ok' c = false) ->
  s <> "" -> all ok s = true ->
  match s ++ rest with EmptyString => True | String c _ => ok' c = false end.
Proof.
  intros Ex. destruct s as [|c s]; [done |]. intros _. simpl.
  intros [Ok _]%andb_prop. by apply Ex.
Qed.

Lemma eol_read {R} (after : string) (x : option R) :
  lineEnd after ->
  match after with
  | EmptyString => x
  | String c _ => if multiline multilineFlag && isLineTerminator c then x else None
  end = x.
Proof.
  destruct after as [|c after]; [done |]. unfold lineEnd. by intros ->.
Qed.

Lemma dot_stops (after : string) :
  lineEnd after ->
  match after with
  | EmptyString => True
  | String c _ => classMatch multilineFlag isDot c = false
  end.
Proof.
  destruct after as [|c after]; [done |]. unfold lineEnd, classMatch, isDot.
  cbn [ignoreCase multilineFlag]. by intros ->.
Qed.

(** A field at the start of the output is read when each part ends where
    the next begins: the label does not start with white space, nor does
    the text. *)
Lemma field_read (label indent gap1 index gap2 text after : string) :
  blank indent ->
  label <> "" -> all isWhiteSpace (String.substring 0 1 label) = false ->
  gap1 <> "" -> blank gap1 -> index <> "" -> all isDigit index = true ->
  gap2 <> "" -> blank gap2 ->
  text <> "" -> all isDot text = true ->
  all isWhiteSpace (String.substring 0 1 text) = false ->
  lineEnd after ->
  exists whole,
    exec multilineFlag (field label)
      (indent ++ label ++ gap1 ++ index ++ gap2 ++ text ++ after)
    = Some [whole; text].
Proof.
  intros Bi Nl Hl N1 B1 N2 D N3 B2 N4 Dt Ht End.
  unfold exec.
  assert (forall s m, matchHere multilineFlag (field label) None s = Some m ->
                      search multilineFlag (field label) None s = Some m) as First.
  { intros s m E. destruct s; cbn [search]; by rewrite E. }
  assert (1 <= String.length gap1 /\ 1 <= String.length index
          /\ 1 <= String.length gap2 /\ 1 <= String.length text)
    as (L1 & L2 & L3 & L4).
  { destruct gap1, index, gap2, text; simpl; try done. lia. }
  eexists. apply First.
  unfold matchHere, field. cbn [run].
  apply rep_greedy; [exact Bi | lia | by apply head_not |].
  rewrite lit_read.
  apply rep_greedy;
    [exact B1 | exact L1 | by apply (head_all isDigit _ _ _ digit_not_space) |].
  apply rep_greedy;
    [exact D | exact L2 | by apply (head_all isWhiteSpace _ _ _ space_not_digit) |].
  apply rep_greedy; [exact B2 | exact L3 | by apply head_not |].
  apply rep_greedy; [exact Dt | exact L4 | by apply dot_stops |].
  rewrite (eol_read after _ End). cbn [app].
  by rewrite (consumed_app text after).
Qed.

(** [X5] A string returned by [Lsusb.parse] is the text of a field of the
    output with that label, without the white space around it: the label
    stands at the start of a line after optional white space, and a
    number and the text follow it, each after white space. *)
Theorem parsed_strings_come_from_fields (output : string) :
  (forall m, manufacturer (parse output) = Some m ->
             exists text, fieldLine "iManufacturer" output text /\ m = trim text)
  /\ (forall p, product (parse output) = Some p ->
                exists text, fieldLine "iProduct" output text /\ p = trim text).
Proof.
  unfold parse. cbn [manufacturer product]. split.
  - intros m H.
    destruct (exec multilineFlag (field "iManufacturer") output) as [caps|] eqn:E;
      [| done].
    apply field_Some in E as (text & F & G). exists text. split; [done |].
    injection H as <-. by rewrite G.
  - intros p H.
    destruct (exec multilineFlag (field "iProduct") output) as [caps|] eqn:E;
      [| done].
    apply field_Some in E as (text & F & G). exists text. split; [done |].
    injection H as <-. by rewrite G.
Qed.

(** [X6] An output that starts with a field gives its text: the white space of
    the expressions is the class [\s], so the text may stand on a later
    line than the number, and a field with a number and no text takes the
    next line that has text. *)
Theorem field_at_the_start_is_read (indent gap1 index gap2 text after : string) :
  blank indent ->
  gap1 <> "" -> blank gap1 -> index <> "" -> all isDigit index = true ->
  gap2 <> "" -> blank gap2 ->
  text <> "" -> all isDot text = true ->
  all isWhiteSpace (String.substring 0 1 text) = false ->
  lineEnd after ->
  manufacturer
    (parse (indent ++ "iManufacturer" ++ gap1 ++ index ++ gap2 ++ text ++ after))
  = Some (trim text)
  /\ product
       (parse (indent ++ "iProduct" ++ gap1 ++ index ++ gap2 ++ text ++ after))
     = Some (trim text).
Proof.
  intros Bi N1 B1 N2 D N3 B2 N4 Dt Ht End. unfold parse.
  cbn [manufacturer product]. split.
  - destruct (field_read "iManufacturer" indent gap1 index gap2 text after)
      as [whole ->]; done.
  - destruct (field_read "iProduct" indent gap1 index gap2 text after)
      as [whole ->]; done.
Qed.

End LsusbFacts.
(** ** More on the manager *)

Section ManagerMore.
Import JS.
Context {VM : Type}.
Variable vmExists : VM -> N -> N -> bool.
Variable vmAdd : VM -> N -> N -> VM.
Variable vmRemove : VM -> N -> N -> VM.
Variable hostExec : nat -> string -> option string.
Implicit Type w : World VM.

Ltac unfold_monad :=
  unfold mbind, M_bind, mret, M_ret, gets, modify, throw, tryCatch,
         liftLocal, withLocals, andThen, notM, detached.

(** *** What every action keeps *)

Lemma steady_refl w : steady w w.
Proof. unfold steady. naive_solver. Qed.

Lemma steady_trans w1 w2 w3 : steady w1 w2 -> steady w2 w3 -> steady w1 w3.
Proof.
  intros (S & U & C) (S' & U' & C'). unfold steady.
  split; [auto |]. split; [auto |].
  intros key e H. destruct (C' _ _ H) as [H'|H']; auto.
Qed.

Lemma steady_frame w w' :
  ptDevices w' = ptDevices w ->
  passedThroughDevices w' = passedThroughDevices w ->
  deviceStringCache w' = deviceStringCache w ->
  steady w w'.
Proof.
  intros P L C. unfold steady, synced. rewrite P, L, C. naive_solver.
Qed.

Lemma stays_ret {A} (a : A) : stays (VM := VM) (mret a).
Proof. intros w. apply steady_refl. Qed.

Lemma stays_gets {A} (f : World VM -> A) : stays (gets f).
Proof. intros w. apply steady_refl. Qed.

Lemma stays_throw {A} e : stays (VM := VM) (throw (A := A) e).
Proof. intros w. apply steady_refl. Qed.

Lemma stays_modify (f : World VM -> World VM) :
  (forall w, steady w (f w)) -> stays (modify f).
Proof. intros H w. apply H. Qed.

Lemma stays_bind {A B} (m : M (World VM) A) (f : A -> M (World VM) B) :
  stays m -> (forall a, stays (f a)) -> stays (m ≫= f).
Proof.
  intros Hm Hf w. specialize (Hm w). unfold mbind, M_bind.
  destruct (m w) as [[e|a] w']; simpl in *; [done |].
  eapply steady_trans; [exact Hm | apply Hf].
Qed.

Lemma stays_tryCatch {A} (m : M (World VM) A) h :
  stays m -> (forall e, stays (h e)) -> stays (tryCatch m h).
Proof.
  intros Hm Hh w. specialize (Hm w). unfold tryCatch.
  destruct (m w) as [[e|a] w']; simpl in *; [| done].
  eapply steady_trans; [exact Hm | apply Hh].
Qed.

Lemma stays_detached (m : M (World VM) unit) : stays m -> stays (detached m).
Proof. intros Hm w. apply Hm. Qed.

Lemma stays_forEach {A} (xs : list A) (body : A -> M (World VM) unit) :
  (forall x, stays (body x)) -> stays (forEach xs body).
Proof.
  intros H. induction xs as [|x xs IH]; simpl.
  - apply stays_ret.
  - apply stays_bind; auto.
Qed.

Lemma stays_filterM {A} (keep : A -> M (World VM) bool) (xs : list A) :
  (forall x, stays (keep x)) -> stays (filterM keep xs).
Proof.
  intros H. induction xs as [|x xs IH]; simpl.
  - apply stays_ret.
  - apply stays_bind; [done |]. intros k.
    apply stays_bind; [done |]. intros rest. apply stays_ret.
Qed.

Lemma stays_andThen (a b : M (World VM) bool) :
  stays a -> stays b -> stays (andThen a b).
Proof.
  intros Ha Hb. unfold andThen. apply stays_bind; [done |].
  intros [|]; [done | apply stays_ret].
Qed.

Lemma stays_notM (a : M (World VM) bool) : stays a -> stays (notM a).
Proof. intros Ha. unfold notM. apply stays_bind; [done | intros; apply stays_ret]. Qed.

Lemma truthy_normal (x : option string) : truthy x <> Some "".
Proof. by destruct x as [[|]|]. Qed.

Lemma stays_stringifyDevice device :
  stays (stringifyDevice (VM := VM) hostExec device).
Proof.
  intros w. destruct (deviceStringCache w !! keyOf device) as [cached|] eqn:Hit.
  - rewrite (stringifyDevice_hit _ _ _ _ Hit). apply steady_refl.
  - rewrite (stringifyDevice_miss _ _ _ Hit). cbn [snd].
    unfold steady, synced. destruct w; cbn in *.
    split; [done |]. split; [done |].
    intros key e H. destruct (decide (keyOf device = key)) as [<-|Ne].
    + right. rewrite lookup_insert_eq in H. injection H as <-.
      split; apply truthy_normal.
    + left. by rewrite lookup_insert_ne in H.
Qed.


(** *** Adding and removing, step by step *)

Lemma find_none_existsb {A} (f : A -> bool) (l : list A) :
  List.find f l = None <-> existsb f l = false.
Proof.
  induction l as [|a l IH]; simpl; [done |].
  destruct (f a); simpl; [split; discriminate | exact IH].
Qed.

(** The state an add leaves when it goes through. *)
Lemma add_run (device : Device) w cached :
  deviceStringCache w !! keyOf device = Some cached ->
  existsb (hasPair (idVendor device) (idProduct device)) (passedThroughDevices w)
  = false ->
  let r := mkPT (idVendor device) (idProduct device) cached in
  let l := (passedThroughDevices w ++ [r])%list in
  let w1 := set_ptDevices l (set_passedThroughDevices l w) in
  addDeviceToPassthroughList vmExists vmAdd device w
  = (inr tt,
     if vmExists (vm w) (idVendor device) (idProduct device) then w1
     else set_vm (vmAdd (vm w) (idVendor device) (idProduct device))
                 (qmpCalls w ++ [AddDevice (idVendor device) (idProduct device)])%list
                 w1).
Proof.
  intros Hit Fresh r l w1. unfold addDeviceToPassthroughList.
  unfold mbind at 1, M_bind at 1. rewrite (convert_hit _ _ _ Hit).
  unfold_monad. cbn [vendorId productId].
  apply find_none_existsb in Fresh. rewrite Fresh.
  unfold QMPCheckIfDeviceExists, QMPAddDevice. unfold_monad.
  subst w1 l r. destruct w; cbn.
  by destruct (vmExists _ _ _).
Qed.

(** What an add does in each of its three cases. *)
Lemma add_cases (device : Device) w :
  (exists e, addDeviceToPassthroughList vmExists vmAdd device w = (inl e, w))
  \/ (exists cached,
        deviceStringCache w !! keyOf device = Some cached
        /\ existsb (hasPair (idVendor device) (idProduct device))
                   (passedThroughDevices w) = false).
Proof.
  destruct (deviceStringCache w !! keyOf device) as [cached|] eqn:Hit.
  - destruct (existsb (hasPair (idVendor device) (idProduct device))
                      (passedThroughDevices w)) eqn:Dup.
    + left. eexists. by apply add_duplicate_run.
    + right. eauto.
  - left. eexists. unfold addDeviceToPassthroughList.
    unfold mbind at 1, M_bind at 1. by rewrite (convert_miss _ _ Hit).
Qed.

Lemma remove_run (r : PTSerializableDeviceInfo) w :
  let l := List.filter (keptOnRemove (vendorId r) (productId r))
                       (passedThroughDevices w) in
  let w1 := set_ptDevices l (set_passedThroughDevices l w) in
  removeDeviceFromPassthroughList vmExists vmRemove r w
  = (inr tt,
     if vmExists (vm w) (vendorId r) (productId r)
     then set_vm (vmRemove (vm w) (vendorId r) (productId r))
                 (qmpCalls w ++ [RemoveDevice (vendorId r) (productId r)])%list w1
     else w1).
Proof.
  intros l w1. unfold removeDeviceFromPassthroughList, QMPCheckIfDeviceExists,
    QMPRemoveDevice. unfold_monad. subst w1 l. destruct w; cbn.
  by destruct (vmExists _ _ _).
Qed.

Lemma not_listed_pair v p (l : list PTSerializableDeviceInfo) :
  existsb (hasPair v p) l = false -> (v, p) ∉ map pairOf l.
Proof.
  induction l as [|a l IH]; simpl; [intros _; apply not_elem_of_nil |].
  intros [Ha Hl]%orb_false_elim. apply not_elem_of_cons. split; [| auto].
  unfold hasPair in Ha. unfold pairOf. intros [= -> ->].
  by rewrite !N.eqb_refl in Ha.
Qed.

Lemma uniquePairs_snoc l v p c :
  uniquePairs l -> existsb (hasPair v p) l = false ->
  uniquePairs (l ++ [mkPT v p c])%list.
Proof.
  intros U Fresh. unfold uniquePairs. rewrite map_app. apply NoDup_app.
  split; [done |]. split.
  - intros x Hx [->|[]%elem_of_nil]%elem_of_cons.
    by apply (not_listed_pair _ _ _ Fresh).
  - simpl. apply NoDup_singleton.
Qed.

Lemma pairs_of_filter f (l : list PTSerializableDeviceInfo) x :
  x ∈ map pairOf (List.filter f l) -> x ∈ map pairOf l.
Proof.
  induction l as [|a l IH]; simpl; [done |].
  destruct (f a); simpl.
  - intros [->|H]%elem_of_cons; apply elem_of_cons; auto.
  - intros H. apply elem_of_cons. auto.
Qed.

Lemma uniquePairs_filter f l : uniquePairs l -> uniquePairs (List.filter f l).
Proof.
  unfold uniquePairs. induction l as [|a l IH]; simpl; [done |].
  intros [Na U]%NoDup_cons. destruct (f a); simpl; [| auto].
  apply NoDup_cons. split; [| auto].
  intros In. apply Na. by apply pairs_of_filter in In.
Qed.

Lemma stays_add device :
  stays (addDeviceToPassthroughList vmExists vmAdd device).
Proof.
  intros w. destruct (add_cases device w) as [[e ->]|(cached & Hit & Fresh)].
  - apply steady_refl.
  - rewrite (add_run _ _ _ Hit Fresh). cbn [snd].
    unfold steady, synced.
    destruct (vmExists _ _ _); destruct w; cbn in *;
      (split; [done |]); (split; [| by left]);
      intros U; by apply uniquePairs_snoc.
Qed.

Lemma stays_remove r :
  stays (removeDeviceFromPassthroughList vmExists vmRemove r).
Proof.
  intros w. rewrite remove_run. cbn [snd]. unfold steady, synced.
  destruct (vmExists _ _ _); destruct w; cbn in *;
    (split; [done |]); (split; [| by left]);
    intros U; by apply uniquePairs_filter.
Qed.

Create HintDb stays discriminated.

#[local] Hint Resolve stays_ret stays_gets stays_throw stays_stringifyDevice
  stays_add stays_remove : stays.

Ltac still := intros ?; apply steady_frame; reflexivity.

Ltac stays_step :=
  lazymatch goal with
  | |- stays (mbind _ _) => apply stays_bind; [| intros ?]
  | |- stays (modify _) => apply stays_modify; still
  | |- stays (forEach _ _) => apply stays_forEach; intros ?
  | |- stays (filterM _ _) => apply stays_filterM; intros ?
  | |- stays (tryCatch _ _) => apply stays_tryCatch; [| intros ?]
  | |- stays (detached _) => apply stays_detached
  | |- stays (andThen _ _) => apply stays_andThen
  | |- stays (notM _) => apply stays_notM
  | |- stays (if ?b then _ else _) => destruct b
  | |- context [match ?x with _ => _ end] => destruct x
  | |- stays _ => solve [auto with stays]
  end.

Ltac stays_all := repeat stays_step.

Lemma stays_QMPCheck v p : stays (QMPCheckIfDeviceExists vmExists v p).
Proof. unfold QMPCheckIfDeviceExists. stays_all. Qed.

Lemma stays_QMPAdd v p : stays (QMPAddDevice vmAdd v p).
Proof. unfold QMPAddDevice. stays_all. Qed.

Lemma stays_QMPRemove v p : stays (QMPRemoveDevice vmRemove v p).
Proof. unfold QMPRemoveDevice. stays_all. Qed.

Lemma stays_convert device :
  stays (convertDeviceToPTSerializable (VM := VM) device).
Proof. unfold convertDeviceToPTSerializable. stays_all. Qed.

#[local] Hint Resolve stays_QMPCheck stays_QMPAdd stays_QMPRemove stays_convert
  : stays.

Lemma stays_contains device : stays (isDeviceInPassthroughList (VM := VM) device).
Proof. unfold isDeviceInPassthroughList. stays_all. Qed.

Lemma stays_connected r : stays (isPTDeviceConnected (VM := VM) r).
Proof. unfold isPTDeviceConnected. stays_all. Qed.

#[local] Hint Resolve stays_contains stays_connected : stays.

Lemma stays_onAttach device : stays (onAttach vmExists vmAdd hostExec device).
Proof. unfold onAttach. stays_all. Qed.

Lemma stays_onDetach device : stays (onDetach vmExists vmRemove hostExec device).
Proof. unfold onDetach. stays_all. Qed.

Lemma stays_onGuestOnline online : stays (onGuestOnline vmExists vmAdd online).
Proof. unfold onGuestOnline. stays_all. Qed.

(** A method of another object that leaves the passthrough list as it
    is keeps the three properties of the instance and the list. *)
Lemma stays_withThis self (m : M (World VM) unit) :
  stays m ->
  (forall w0, passedThroughDevices (snd (m w0)) = passedThroughDevices w0) ->
  stays (withThis self m).
Proof.
  intros Hm List w. destruct self as [|i]; [apply Hm |].
  destruct (laterObjects w !! i) as [o|] eqn:H.
  2: { unfold withThis. rewrite H. apply steady_refl. }
  rewrite (withThis_later _ _ _ _ H). cbn [snd].
  specialize (List (withFields o w)).
  destruct (m (withFields o w)) as [r w']. cbn [snd] in *.
  apply steady_frame; destruct w, w'; cbn in *; done.
Qed.

Lemma stays_attach_callback this device :
  stays (withThis this (onAttach vmExists vmAdd hostExec device)).
Proof.
  apply stays_withThis; [apply stays_onAttach |]. intros w0.
  destruct (onAttach_run vmExists vmAdd hostExec device w0) as (c & n & -> & _).
  cbv zeta. cbn [snd]. by destruct (_ && _); destruct w0.
Qed.

Lemma stays_detach_callback this device :
  stays (withThis this (onDetach vmExists vmRemove hostExec device)).
Proof.
  apply stays_withThis; [apply stays_onDetach |]. intros w0.
  destruct (onDetach_run vmExists vmRemove hostExec device w0) as (c & n & -> & _).
  cbv zeta. cbn [snd]. by destruct (_ && _); destruct w0.
Qed.

#[local] Hint Resolve stays_onAttach stays_onDetach stays_onGuestOnline
  stays_attach_callback stays_detach_callback : stays.

Lemma steady_perform a w :
  steady w (perform vmExists vmAdd vmRemove hostExec a w).
Proof.
  destruct a; cbn [perform].
  - destruct (newManager_run hostExec content w) as (o & n & ->). cbn [snd].
    apply steady_frame; by destruct w.
  - apply stays_stringifyDevice.
  - apply stays_add.
  - apply stays_remove.
  - apply stays_contains.
  - apply stays_connected.
  - unfold hostAttach, runUsbCallback.
    match goal with |- steady _ (snd (?m w)) => enough (stays m) by auto end.
    stays_all.
  - unfold hostDetach, runUsbCallback.
    match goal with |- steady _ (snd (?m w)) => enough (stays m) by auto end.
    stays_all.
  - unfold guestSignal, runOnlineCallback.
    match goal with |- steady _ (snd (?m w)) => enough (stays m) by auto end.
    stays_all.
Qed.

(** The view's three functions keep the same things. *)
Lemma stays_view_add device : stays (addDevice vmExists vmAdd device).
Proof. unfold addDevice. stays_all. Qed.

Lemma stays_view_remove r : stays (removeDevice vmExists vmRemove r).
Proof. unfold removeDevice. stays_all. Qed.

Lemma stays_refresh : stays (refreshAvailableDevices (VM := VM) hostExec).
Proof. unfold refreshAvailableDevices. stays_all. Qed.


(** *** The passthrough list *)

(** [X7] An add that goes through: when the strings of the device are cached
    and no record of the list has its pair, the call returns, the record
    made of the pair and of the cached strings is appended to the list,
    the mirror is the new list, the cache is untouched, and the VM
    control channel gets one add call unless it reports the device
    attached. *)
Theorem add_appends_the_record (device : Device) w cached :
  deviceStringCache w !! keyOf device = Some cached ->
  existsb (hasPair (idVendor device) (idProduct device)) (passedThroughDevices w)
  = false ->
  let r := mkPT (idVendor device) (idProduct device) cached in
  let result := addDeviceToPassthroughList vmExists vmAdd device w in
  fst result = inr tt
  /\ passedThroughDevices (snd result) = (passedThroughDevices w ++ [r])%list
  /\ ptDevices (snd result) = (passedThroughDevices w ++ [r])%list
  /\ deviceStringCache (snd result) = deviceStringCache w
  /\ qmpCalls (snd result)
     = (qmpCalls w ++ if vmExists (vm w) (idVendor device) (idProduct device)
                      then [] else [AddDevice (idVendor device) (idProduct device)])%list.
Proof.
  intros Hit Fresh r result. subst result. rewrite (add_run _ _ _ Hit Fresh).
  cbn [fst snd]. destruct (vmExists _ _ _); destruct w; cbn;
    repeat split; by rewrite ?List.app_nil_r.
Qed.

(** [X8] Membership and the duplicate check agree: for a device whose strings
    are cached, [isDeviceInPassthroughList] answers [true] exactly when
    an add throws the duplicate error and [false] exactly when the add
    goes through; for a device whose strings are not cached both throw
    the error of the conversion. Neither call changes the state then. *)
Theorem membership_is_the_duplicate_check (device : Device) w :
  (forall cached,
     deviceStringCache w !! keyOf device = Some cached ->
     let listed := existsb (hasPair (idVendor device) (idProduct device))
                           (passedThroughDevices w) in
     isDeviceInPassthroughList device w = (inr listed, w)
     /\ (listed = true <->
         addDeviceToPassthroughList vmExists vmAdd device w
         = (inl (AlreadyInPassthroughList
                   (mkPT (idVendor device) (idProduct device) cached)), w))
     /\ (listed = false <->
         fst (addDeviceToPassthroughList vmExists vmAdd device w) = inr tt))
  /\ (deviceStringCache w !! keyOf device = None ->
      isDeviceInPassthroughList device w
      = (inl (StringsNotInCache (keyOf device)), w)
      /\ addDeviceToPassthroughList vmExists vmAdd device w
         = (inl (StringsNotInCache (keyOf device)), w)).
Proof.
  split.
  - intros cached Hit listed. split; [exact (contains_run _ _ _ Hit) |].
    subst listed.
    destruct (existsb _ _) eqn:E.
    + rewrite (add_duplicate_run _ _ _ _ _ Hit E). cbn [fst]. split; split; done.
    + rewrite (add_run _ _ _ Hit E). cbn [fst]. split; split; done.
  - intros Miss. unfold isDeviceInPassthroughList, addDeviceToPassthroughList.
    unfold mbind at 1 3, M_bind at 1 3. by rewrite (convert_miss _ _ Miss).
Qed.

(** [X9] What a removal leaves: the call returns; no record of the list has
    the pair of the removed one; a record that stays was in the list
    before and differs from the removed one in both identifiers; the
    mirror is the new list; and the VM control channel gets one remove
    call exactly when it reports the device attached. *)
Theorem removal_clears_the_pair (r : PTSerializableDeviceInfo) w :
  let result := removeDeviceFromPassthroughList vmExists vmRemove r w in
  fst result = inr tt
  /\ existsb (hasPair (vendorId r) (productId r))
             (passedThroughDevices (snd result)) = false
  /\ (forall d, d ∈ passedThroughDevices (snd result) ->
        d ∈ passedThroughDevices w
        /\ vendorId d <> vendorId r /\ productId d <> productId r)
  /\ List.length (passedThroughDevices (snd result))
     <= List.length (passedThroughDevices w)
  /\ ptDevices (snd result) = passedThroughDevices (snd result)
  /\ qmpCalls (snd result)
     = (qmpCalls w ++ if vmExists (vm w) (vendorId r) (productId r)
                      then [RemoveDevice (vendorId r) (productId r)] else [])%list.
Proof.
  intros result. subst result. rewrite remove_run. cbn [fst snd].
  set (l := List.filter _ _).
  assert (forall d, d ∈ l ->
            d ∈ passedThroughDevices w
            /\ vendorId d <> vendorId r /\ productId d <> productId r) as Kept.
  { intros d Hd. apply list_elem_of_In, List.filter_In in Hd as [Hd K].
    split; [by apply list_elem_of_In |]. unfold keptOnRemove in K.
    apply andb_prop in K as [Kv Kp].
    apply negb_true_iff, N.eqb_neq in Kv. apply negb_true_iff, N.eqb_neq in Kp.
    done. }
  assert (existsb (hasPair (vendorId r) (productId r)) l = false) as Gone.
  { apply not_true_is_false. intros [d [Hd P]]%existsb_exists.
    apply list_elem_of_In, Kept in Hd as (_ & Nv & _).
    unfold hasPair in P. apply andb_prop in P as [Pv _].
    by apply N.eqb_eq in Pv. }
  assert (List.length l <= List.length (passedThroughDevices w)) as Len
    by apply List.filter_length_le.
  destruct (vmExists _ _ _); destruct w; cbn in *;
    repeat split; try done; try (by apply Kept); by rewrite ?List.app_nil_r.
Qed.


(** *** The view's add and remove *)

Lemma existsb_snoc_pair (l : list PTSerializableDeviceInfo) v p c :
  existsb (hasPair v p) (l ++ [mkPT v p c])%list = true.
Proof.
  rewrite List.existsb_app. simpl. unfold hasPair at 2. simpl.
  by rewrite !N.eqb_refl, orb_true_r.
Qed.

(** [X10] The view's [addDevice] never throws, and a second call for the same
    device changes nothing: the device is added once. *)
Theorem addDevice_twice_adds_once (device : Device) w :
  let once := addDevice vmExists vmAdd device w in
  fst once = inr tt
  /\ addDevice vmExists vmAdd device (snd once) = (inr tt, snd once).
Proof.
  intros once. subst once. unfold addDevice, tryCatch.
  destruct (add_cases device w) as [[e E]|(cached & Hit & Fresh)].
  - rewrite E. cbn [fst snd mret M_ret]. split; [done |]. by rewrite E.
  - rewrite (add_run _ _ _ Hit Fresh). cbn [fst snd]. split; [done |].
    match goal with
    | |- context [addDeviceToPassthroughList _ _ _ ?w1] =>
        assert (deviceStringCache w1 !! keyOf device = Some cached) as Hit1
          by (destruct (vmExists _ _ _); by destruct w);
        assert (existsb (hasPair (idVendor device) (idProduct device))
                        (passedThroughDevices w1) = true) as Dup1
          by (destruct (vmExists _ _ _); destruct w; cbn;
              apply existsb_snoc_pair);
        by rewrite (add_duplicate_run _ _ _ _ _ Hit1 Dup1)
    end.
Qed.

Lemma filter_idempotent {A} (f : A -> bool) (l : list A) :
  List.filter f (List.filter f l) = List.filter f l.
Proof.
  induction l as [|a l IH]; simpl; [done |].
  destruct (f a) eqn:E; simpl; [by rewrite E, IH | done].
Qed.

Lemma remove_lists (r : PTSerializableDeviceInfo) w :
  let after := removeDeviceFromPassthroughList vmExists vmRemove r w in
  let l := List.filter (keptOnRemove (vendorId r) (productId r))
                       (passedThroughDevices w) in
  fst after = inr tt
  /\ passedThroughDevices (snd after) = l /\ ptDevices (snd after) = l.
Proof.
  intros after l. subst after l. rewrite remove_run. cbn [fst snd].
  split; [done |]. by destruct (vmExists _ _ _); destruct w.
Qed.

(** [X11] The view's [removeDevice] never throws, and a second call for the
    same record leaves the list the first call left. *)
Theorem removeDevice_twice_removes_once (r : PTSerializableDeviceInfo) w :
  let once := removeDevice vmExists vmRemove r w in
  let twice := removeDevice vmExists vmRemove r (snd once) in
  fst once = inr tt /\ fst twice = inr tt
  /\ passedThroughDevices (snd twice) = passedThroughDevices (snd once)
  /\ ptDevices (snd twice) = ptDevices (snd once).
Proof.
  intros once twice. subst twice once. unfold removeDevice, tryCatch.
  destruct (remove_lists r w) as (E1 & L1 & P1).
  destruct (removeDeviceFromPassthroughList vmExists vmRemove r w) as [[e|[]] w1];
    [done |]. cbn [fst snd] in *.
  destruct (remove_lists r w1) as (E2 & L2 & P2).
  destruct (removeDeviceFromPassthroughList vmExists vmRemove r w1) as [[e|[]] w2];
    [done |]. cbn [fst snd] in *.
  rewrite L2, P2, L1, P1. by rewrite filter_idempotent.
Qed.

Lemma filter_all {A} (f : A -> bool) (l : list A) :
  forallb f l = true -> List.filter f l = l.
Proof.
  induction l as [|a l IH]; simpl; [done |].
  intros [-> H]%andb_prop. by rewrite IH.
Qed.

Lemma kept_not_listed v p (l : list PTSerializableDeviceInfo) :
  forallb (keptOnRemove v p) l = true -> existsb (hasPair v p) l = false.
Proof.
  induction l as [|a l IH]; simpl; [done |].
  intros [K H]%andb_prop. rewrite (IH H), orb_false_r.
  unfold keptOnRemove in K. unfold hasPair.
  apply andb_prop in K as [Kv _]. apply negb_true_iff in Kv. by rewrite Kv.
Qed.

(** [X12] Adding a device and removing its record gives the list back, when no
    record of the list shares the vendor identifier or the product
    identifier with the device. *)
Theorem add_then_remove_restores_the_list (device : Device) w cached :
  deviceStringCache w !! keyOf device = Some cached ->
  forallb (keptOnRemove (idVendor device) (idProduct device))
          (passedThroughDevices w) = true ->
  let r := mkPT (idVendor device) (idProduct device) cached in
  let added := snd (addDeviceToPassthroughList vmExists vmAdd device w) in
  let removed := snd (removeDeviceFromPassthroughList vmExists vmRemove r added) in
  passedThroughDevices added = (passedThroughDevices w ++ [r])%list
  /\ passedThroughDevices removed = passedThroughDevices w
  /\ ptDevices removed = passedThroughDevices w.
Proof.
  intros Hit Kept r added removed. subst removed added.
  rewrite (add_run _ _ _ Hit (kept_not_listed _ _ _ Kept)). cbn [snd].
  match goal with
  | |- context [removeDeviceFromPassthroughList _ _ _ ?w1] =>
      destruct (remove_lists r w1) as (_ & L & P);
      assert (passedThroughDevices w1 = (passedThroughDevices w ++ [r])%list) as A
        by (destruct (vmExists _ _ _); by destruct w)
  end.
  rewrite L, P, A. split; [done |].
  subst r. cbn [vendorId productId].
  assert (List.filter (keptOnRemove (idVendor device) (idProduct device))
            (passedThroughDevices w
             ++ [mkPT (idVendor device) (idProduct device) cached])%list
          = passedThroughDevices w) as F.
  { rewrite List.filter_app, (filter_all _ _ Kept). simpl.
    unfold keptOnRemove at 1. simpl. rewrite N.eqb_refl. simpl.
    apply List.app_nil_r. }
  by rewrite F.
Qed.

(** *** Invariants of the reachable states *)

(** [X13] No action breaks the uniqueness of the identifier pairs in the list:
    an add appends only a pair that is not there, a removal filters, and
    nothing else writes the list. *)
Theorem actions_keep_pairs_unique (history : list Action) w :
  uniquePairs (passedThroughDevices w) ->
  uniquePairs
    (passedThroughDevices
       (foldl (fun w a => perform vmExists vmAdd vmRemove hostExec a w) w history)).
Proof.
  revert w. induction history as [|a history IH]; intros w U; [done |].
  simpl. apply IH. by apply (steady_perform a w).
Qed.

Lemma stays_precache (present : list Device) :
  stays (VM := VM)
    (forEach present (fun d => stringifyDevice hostExec d ;; mret tt)).
Proof. stays_all. Qed.

Lemma constructed_shape content persisted online plugged (guest : VM) :
  let w := constructed hostExec content persisted online plugged guest in
  devices w = plugged
  /\ (forall d, d ∈ plugged -> is_Some (deviceStringCache w !! keyOf d))
  /\ (forall key e, deviceStringCache w !! key = Some e -> normalised e)
  /\ passedThroughDevices w = persisted
  /\ ptDevices w = persisted
  /\ linuxDeviceDatabase w = Loader.readLinuxDeviceDatabase content
  /\ qmpCalls w = [] /\ vm w = guest /\ isOnline w = online.
Proof.
  unfold constructed, constructor, setupUpdateListeners. unfold_monad.
  cbn [fresh set_linuxDeviceDatabase set_devices hostDevices devices fst snd].
  match goal with
  | |- context [forEach ?xs ?f ?w0] =>
      pose proof (stays_precache xs w0) as St;
      destruct (precache_frame hostExec xs w0) as (c & n & E & _ & All);
      change (forEach xs f w0) with
        (forEach xs (fun d => stringifyDevice hostExec d ;; mret tt) w0)
  end.
  rewrite E in *. cbn in *. destruct St as (_ & _ & New).
  split; [done |]. split; [done |]. split; [| done].
  intros key e H. destruct (New _ _ H) as [H'|H']; [| done].
  unfold fresh in H'. simpl in H'. by rewrite lookup_empty in H'.
Qed.

(** [X14] The constructor: the snapshot holds the devices plugged in, each of
    them has its strings in the cache (so each can be converted), the
    list and its mirror are the persisted list, the database is the one
    loaded from the file, and no call is made on the VM control channel. *)
Theorem construction_precaches_the_snapshot content persisted online plugged
    (guest : VM) :
  let w := constructed hostExec content persisted online plugged guest in
  devices w = plugged
  /\ (forall d, d ∈ plugged ->
        exists cached,
          deviceStringCache w !! keyOf d = Some cached
          /\ convertDeviceToPTSerializable d w
             = (inr (mkPT (idVendor d) (idProduct d) cached), w))
  /\ passedThroughDevices w = persisted
  /\ ptDevices w = persisted
  /\ linuxDeviceDatabase w = Loader.readLinuxDeviceDatabase content
  /\ qmpCalls w = [] /\ vm w = guest /\ isOnline w = online.
Proof.
  intros w.
  destruct (constructed_shape content persisted online plugged guest)
    as (D & All & _ & Rest).
  split; [done |]. split; [| done].
  intros d Hd. destruct (All d Hd) as [cached Hc]. exists cached.
  split; [done |]. by apply convert_hit.
Qed.

(** [X15] In every state reachable from the constructor the mirror
    [ptDevices.value] is the list of the configuration, and the strings in
    the cache are absent or non-empty, never the empty string. *)
Theorem reachable_states_are_in_sync w :
  reachable vmExists vmAdd vmRemove hostExec w ->
  ptDevices w = passedThroughDevices w
  /\ (forall key e, deviceStringCache w !! key = Some e ->
                    manufacturer e <> Some "" /\ product e <> Some "").
Proof.
  induction 1 as [content persisted online plugged guest|a w R [Sy No]].
  - destruct (constructed_shape content persisted online plugged guest)
      as (_ & _ & No & L & P & _).
    split; [by rewrite L, P | done].
  - destruct (steady_perform a w) as (Sy' & _ & New).
    split; [by apply Sy' |].
    intros key e H. destruct (New _ _ H) as [H'|H']; [by eapply No | done].
Qed.


(** *** The two display strings *)

(** [X16] The string shown for a record made from a device is the string a
    resolution of the device shows once its strings are cached. *)
Theorem record_and_device_display_agree (device : Device) w cached :
  deviceStringCache w !! keyOf device = Some cached ->
  exists r,
    convertDeviceToPTSerializable device w = (inr r, w)
    /\ stringifyDevice hostExec device w
       = (inr (stringifyPTSerializableDevice r), w).
Proof.
  intros Hit. exists (mkPT (idVendor device) (idProduct device) cached).
  split; [by apply convert_hit |]. by rewrite (stringifyDevice_hit _ _ _ _ Hit).
Qed.

(** [X17] A resolution of a pair the cache does not hold runs the host command
    once for each name the database does not give: once for the product,
    once more for the vendor, so twice when both are missing. It writes
    the cache entry of the pair and changes nothing else. *)
Theorem resolution_queries_once_per_missing_name (device : Device) w :
  deviceStringCache w !! keyOf device = None ->
  let vendor := linuxDeviceDatabase w !! hex4 (idVendor device) in
  let found := vendor ≫= fun v => Vendor.devices v !! hex4 (idProduct device) in
  let after := snd (stringifyDevice hostExec device w) in
  execCalls after
  = execCalls w + (if truthy found is None then 1 else 0)
                + (if truthy (Vendor.name <$> vendor) is None then 1 else 0)
  /\ exists entry,
       after = set_deviceStringCache (<[keyOf device := entry]> (deviceStringCache w))
                 (set_execCalls (execCalls after) w).
Proof.
  intros Miss vendor found after. subst after.
  rewrite (stringifyDevice_miss _ _ _ Miss). cbn [snd].
  unfold resolved, databaseLocals. cbn [fst snd]. fold vendor. fold found.
  split.
  - destruct (truthy found), (truthy (Vendor.name <$> vendor));
      destruct w; cbn; lia.
  - match goal with
    | |- context [<[_ := ?e]> _] => exists e
    end.
    by destruct w.
Qed.

(** *** Hotplug events *)

Lemma onAttach_frame (device : Device) w :
  exists w',
    onAttach vmExists vmAdd hostExec device w = (inr tt, w')
    /\ devices w' = hostDevices w
    /\ passedThroughDevices w' = passedThroughDevices w
    /\ ptDevices w' = ptDevices w
    /\ is_Some (deviceStringCache w' !! keyOf device).
Proof.
  destruct (onAttach_run vmExists vmAdd hostExec device w) as (c & n & -> & C).
  eexists. split; [reflexivity |]. cbv zeta.
  by destruct (_ && _); destruct w.
Qed.

Lemma onDetach_frame (device : Device) w :
  exists w',
    onDetach vmExists vmRemove hostExec device w = (inr tt, w')
    /\ devices w' = hostDevices w
    /\ passedThroughDevices w' = passedThroughDevices w
    /\ ptDevices w' = ptDevices w
    /\ is_Some (deviceStringCache w' !! keyOf device).
Proof.
  destruct (onDetach_run vmExists vmRemove hostExec device w) as (c & n & -> & C).
  eexists. split; [reflexivity |]. cbv zeta.
  by destruct (_ && _); destruct w.
Qed.

(** The callbacks of the other objects leave the fields of the instance
    and the passthrough list as they are. *)
Lemma later_callbacks_frame (device : Device) (cs : list UsbCallback) : forall w,
  Forall (fun c => match c with
                   | AttachCallback this | DetachCallback this => this <> 0
                   end) cs ->
  let w' :=
    snd (forEach cs
           (fun c => detached
                       (runUsbCallback vmExists vmAdd vmRemove hostExec c device))
           w) in
  fieldsOf w' = fieldsOf w
  /\ passedThroughDevices w' = passedThroughDevices w.
Proof.
  induction cs as [|c cs IH]; intros w All; [done |].
  apply Forall_cons in All as [Later All]. cbn [forEach].
  unfold mbind at 1, M_bind at 1, detached at 1.
  match goal with
  | |- context [runUsbCallback ?e ?a ?r ?h c device w] =>
      assert (fieldsOf (snd (runUsbCallback e a r h c device w)) = fieldsOf w
              /\ passedThroughDevices (snd (runUsbCallback e a r h c device w))
                 = passedThroughDevices w) as [F L]
  end.
  { destruct c as [[|i]|[|i]]; try done; cbn [runUsbCallback].
    - destruct (laterObjects w !! i) as [o|] eqn:H.
      2: { unfold withThis. by rewrite H. }
      rewrite (withThis_later _ _ _ _ H). cbn [snd].
      destruct (onAttach_frame device (withFields o w)) as (w' & -> & _ & L & _).
      cbn [snd]. split; [by destruct w | destruct w, w'; cbn in *; done].
    - destruct (laterObjects w !! i) as [o|] eqn:H.
      2: { unfold withThis. by rewrite H. }
      rewrite (withThis_later _ _ _ _ H). cbn [snd].
      destruct (onDetach_frame device (withFields o w)) as (w' & -> & _ & L & _).
      cbn [snd]. split; [by destruct w | destruct w, w'; cbn in *; done]. }
  cbv zeta.
  set (w1 := snd (runUsbCallback vmExists vmAdd vmRemove hostExec c device w))
    in *.
  destruct (IH w1 All) as [F' L']. cbv zeta in F', L'.
  split; [exact (eq_trans F' F) | exact (eq_trans L' L)].
Qed.

Lemma later_owners {A} (f : nat -> A) (P : A -> Prop) (n : nat) :
  (forall this, this <> 0 -> P (f this)) -> Forall P (map f (seq 1 n)).
Proof.
  intros H. apply List.Forall_forall. intros x [this [<- In]]%List.in_map_iff.
  apply H. apply List.in_seq in In. lia.
Qed.

(** An event runs the callback of the instance first, then those of the
    other objects. *)
Lemma hostAttach_run (device : Device) (now : list Device) w :
  wired w ->
  exists w1,
    onAttach vmExists vmAdd hostExec device (set_hostDevices now w) = (inr tt, w1)
    /\ snd (hostAttach vmExists vmAdd vmRemove hostExec device now w)
       = snd (forEach (map AttachCallback (seq 1 (length (laterObjects w))))
                (fun c => detached
                            (runUsbCallback vmExists vmAdd vmRemove hostExec
                                            c device))
                w1).
Proof.
  intros (_ & At & _). unfold hostAttach.
  unfold mbind at 1, M_bind at 1, modify at 1.
  unfold mbind at 1, M_bind at 1, gets at 1.
  replace (attachListeners (set_hostDevices now w))
    with (AttachCallback 0
          :: map AttachCallback (seq 1 (length (laterObjects w))))
    by (by destruct w; cbn in *).
  cbn [forEach runUsbCallback withThis].
  unfold mbind at 1, M_bind at 1, detached at 1.
  destruct (onAttach_frame device (set_hostDevices now w)) as (w1 & -> & _).
  by exists w1.
Qed.

Lemma hostDetach_run (device : Device) (now : list Device) w :
  wired w ->
  exists w1,
    onDetach vmExists vmRemove hostExec device (set_hostDevices now w)
    = (inr tt, w1)
    /\ snd (hostDetach vmExists vmAdd vmRemove hostExec device now w)
       = snd (forEach (map DetachCallback (seq 1 (length (laterObjects w))))
                (fun c => detached
                            (runUsbCallback vmExists vmAdd vmRemove hostExec
                                            c device))
                w1).
Proof.
  intros (_ & _ & De). unfold hostDetach.
  unfold mbind at 1, M_bind at 1, modify at 1.
  unfold mbind at 1, M_bind at 1, gets at 1.
  replace (detachListeners (set_hostDevices now w))
    with (DetachCallback 0
          :: map DetachCallback (seq 1 (length (laterObjects w))))
    by (by destruct w; cbn in *).
  cbn [forEach runUsbCallback withThis].
  unfold mbind at 1, M_bind at 1, detached at 1.
  destruct (onDetach_frame device (set_hostDevices now w)) as (w1 & -> & _).
  by exists w1.
Qed.

(** [X18] After an attach or a detach event of a constructed manager the
    snapshot is the device list of the host at that time, the strings of
    the device of the event are cached, so that a membership test of it
    does not throw, and the passthrough list and its mirror are as
    before; [isPTDeviceConnected] then answers from the new snapshot. *)
Theorem hotplug_refreshes_the_snapshot (device : Device) (now : list Device)
    (attach : bool) w :
  reachable vmExists vmAdd vmRemove hostExec w ->
  let after :=
    snd (if attach
         then hostAttach vmExists vmAdd vmRemove hostExec device now w
         else hostDetach vmExists vmAdd vmRemove hostExec device now w) in
  devices after = now
  /\ passedThroughDevices after = passedThroughDevices w
  /\ ptDevices after = ptDevices w
  /\ isDeviceInPassthroughList device after
     = (inr (existsb (hasPair (idVendor device) (idProduct device))
                     (passedThroughDevices w)), after)
  /\ forall r,
       isPTDeviceConnected r after
       = (inr (existsb (fun d => (idVendor d =? vendorId r)%N
                                 && (idProduct d =? productId r)%N) now), after).
Proof.
  intros R after.
  destruct (reachable_invariant _ _ _ _ _ R) as [Wi _].
  assert (devices after = now
          /\ passedThroughDevices after = passedThroughDevices w
          /\ ptDevices after = ptDevices w
          /\ is_Some (deviceStringCache after !! keyOf device))
    as (D & L & P & [cached Hit]).
  { subst after. destruct attach.
    - destruct (hostAttach_run device now w Wi) as (w1 & E & ->).
      destruct (onAttach_frame device (set_hostDevices now w))
        as (w' & E' & D & L & P & C).
      rewrite E in E'. injection E' as <-.
      match goal with
      | |- context [forEach ?cs _ w1] =>
          destruct (later_callbacks_frame device cs w1) as [F L'];
            [by apply later_owners |]
      end.
      cbv zeta in F, L'. unfold fieldsOf in F. injection F as -> -> _ ->.
      rewrite L', D, L, P. split; [by destruct w |].
      split; [by destruct w |]. split; [by destruct w | done].
    - destruct (hostDetach_run device now w Wi) as (w1 & E & ->).
      destruct (onDetach_frame device (set_hostDevices now w))
        as (w' & E' & D & L & P & C).
      rewrite E in E'. injection E' as <-.
      match goal with
      | |- context [forEach ?cs _ w1] =>
          destruct (later_callbacks_frame device cs w1) as [F L'];
            [by apply later_owners |]
      end.
      cbv zeta in F, L'. unfold fieldsOf in F. injection F as -> -> _ ->.
      rewrite L', D, L, P. split; [by destruct w |].
      split; [by destruct w |]. split; [by destruct w | done]. }
  split; [done |]. split; [done |]. split; [done |]. split.
  - rewrite (contains_run _ _ _ Hit). by rewrite L.
  - intros r. unfold isPTDeviceConnected. unfold_monad. by rewrite D.
Qed.

(** *** The guest online callback *)

(** [X19] The callback of [#setupGuestOnlineListener], over any VM control
    channel: it does not throw; when the guest went offline it does
    nothing; otherwise every call it makes is an add for a record of the
    list that is connected, in list order; it leaves the list, the mirror,
    the snapshot and the cache as they are. *)
Theorem reconciler_adds_only_connected_records (online : bool) w :
  let result := onGuestOnline vmExists vmAdd online w in
  let connected r :=
    existsb (fun d => (idVendor d =? vendorId r)%N && (idProduct d =? productId r)%N)
            (devices w) in
  fst result = inr tt
  /\ (online = false -> snd result = w)
  /\ passedThroughDevices (snd result) = passedThroughDevices w
  /\ ptDevices (snd result) = ptDevices w
  /\ devices (snd result) = devices w
  /\ deviceStringCache (snd result) = deviceStringCache w
  /\ exists added,
       qmpCalls (snd result)
       = (qmpCalls w ++ map (fun r => AddDevice (vendorId r) (productId r)) added)%list
       /\ sublist added (List.filter connected (passedThroughDevices w)).
Proof.
  intros result connected. subst result. unfold onGuestOnline.
  destruct online; cbn [negb].
  2: { cbn. do 6 (split; [done |]). exists []. split; [by rewrite List.app_nil_r |].
       apply sublist_nil_l. }
  unfold mbind at 1, M_bind at 1, gets at 1.
  assert (forall records w0, devices w0 = devices w ->
    let result := forEach records (fun ptDevice =>
      go ← andThen (isPTDeviceConnected ptDevice)
            (notM (QMPCheckIfDeviceExists vmExists
                     (vendorId ptDevice) (productId ptDevice)));
      if go : bool
      then QMPAddDevice vmAdd (vendorId ptDevice) (productId ptDevice)
      else mret tt) w0 in
    fst result = inr tt
    /\ passedThroughDevices (snd result) = passedThroughDevices w0
    /\ ptDevices (snd result) = ptDevices w0
    /\ devices (snd result) = devices w0
    /\ deviceStringCache (snd result) = deviceStringCache w0
    /\ exists added,
         qmpCalls (snd result)
         = (qmpCalls w0 ++ map (fun r => AddDevice (vendorId r) (productId r)) added)%list
         /\ sublist added (List.filter connected records)) as Loop.
  { intros records. induction records as [|r records IH]; intros w0 D;
      cbv zeta in *.
    - cbn. do 5 (split; [done |]). exists []. split; [by rewrite List.app_nil_r |].
      apply sublist_nil_l.
    - cbn [forEach List.filter]. unfold mbind at 1, M_bind at 1.
      unfold mbind at 1, M_bind at 1, andThen, isPTDeviceConnected, notM,
        QMPCheckIfDeviceExists, QMPAddDevice.
      unfold mbind, M_bind, gets, modify, mret, M_ret. cbn [fst snd negb].
      rewrite D. fold (connected r). destruct (connected r); rewrite <- D.
      + destruct (vmExists (vm w0) _ _); cbn [negb].
        * destruct (IH w0 D) as (E & L & P & Dv & C & added & Q & Sub).
          do 5 (split; [done |]). exists added. split; [done |].
          by apply sublist_cons.
        * match goal with
          | |- context [forEach _ _ ?w1] =>
              destruct (IH w1) as (E & L & P & Dv & C & added & Q & Sub);
              [by destruct w0 |]
          end.
          split; [done |].
          split; [etransitivity; [exact L | by destruct w0] |].
          split; [etransitivity; [exact P | by destruct w0] |].
          split; [etransitivity; [exact Dv | by destruct w0] |].
          split; [etransitivity; [exact C | by destruct w0] |].
          exists (r :: added). split; [| by apply sublist_skip].
          etransitivity; [exact Q |]. destruct w0; cbn.
          by rewrite <- List.app_assoc.
      + destruct (IH w0 D) as (E & L & P & Dv & C & added & Q & Sub).
        do 5 (split; [done |]). by exists added. }
  cbv zeta in Loop.
  destruct (Loop (passedThroughDevices w) w eq_refl)
    as (E & L & P & Dv & C & added & Q & Sub).
  split; [done |]. split; [done |]. do 4 (split; [done |]). by exists added.
Qed.


(** *** The list of available devices *)

Lemma display_includes_ids vendorIdHex productIdHex vendorName productName :
  Text.includes vendorIdHex
    (display vendorIdHex productIdHex vendorName productName) = true
  /\ Text.includes productIdHex
       (display vendorIdHex productIdHex vendorName productName) = true.
Proof.
  unfold display. split.
  - apply TextFacts.includes_app.
  - rewrite <- (StringFacts.app_assoc vendorIdHex ":").
    rewrite <- (StringFacts.app_assoc "[" (vendorIdHex ++ ":")).
    apply TextFacts.includes_app.
Qed.

(** The callback of the [filter] of [refreshAvailableDevices]. *)
Lemma available_run (device : Device) w :
  andThen (notM (isDeviceInPassthroughList device))
          (text ← stringifyDevice hostExec device;
           mret (negb (Text.includes LINUX_FOUNDATION_VID text))) w
  = (match deviceStringCache w !! keyOf device with
     | Some cached =>
         inr (negb (existsb (hasPair (idVendor device) (idProduct device))
                            (passedThroughDevices w))
              && negb (Text.includes LINUX_FOUNDATION_VID
                         (displayCached device cached)))
     | None => inl (StringsNotInCache (keyOf device))
     end, w).
Proof.
  destruct (deviceStringCache w !! keyOf device) as [cached|] eqn:Hit.
  - pose proof (contains_run _ _ _ Hit) as E.
    pose proof (stringifyDevice_hit hostExec _ _ _ Hit) as T.
    unfold andThen, notM. unfold_monad. rewrite E.
    destruct (existsb _ _); cbn [negb andb]; [done |]. by rewrite T.
  - assert (isDeviceInPassthroughList device w
            = (inl (StringsNotInCache (keyOf device)), w)) as E.
    { unfold isDeviceInPassthroughList. unfold mbind at 1, M_bind at 1.
      by rewrite (convert_miss _ _ Hit). }
    unfold andThen, notM. unfold_monad. by rewrite E.
Qed.

Lemma refresh_loop (xs : list Device) w :
  filterM (fun device =>
    andThen (notM (isDeviceInPassthroughList device))
            (text ← stringifyDevice hostExec device;
             mret (negb (Text.includes LINUX_FOUNDATION_VID text)))) xs w
  = (match List.find (fun d => if deviceStringCache w !! keyOf d is None
                               then true else false) xs with
     | Some d0 => inl (StringsNotInCache (keyOf d0))
     | None =>
         inr (List.filter (fun d =>
                match deviceStringCache w !! keyOf d with
                | Some cached =>
                    negb (existsb (hasPair (idVendor d) (idProduct d))
                                  (passedThroughDevices w))
                    && negb (Text.includes LINUX_FOUNDATION_VID
                               (displayCached d cached))
                | None => false
                end) xs)
     end, w).
Proof.
  induction xs as [|d xs IH]; [done |].
  cbn [filterM List.find List.filter]. unfold mbind at 1, M_bind at 1.
  rewrite available_run.
  destruct (deviceStringCache w !! keyOf d) as [cached|]; [| done].
  unfold mbind at 1, M_bind at 1. rewrite IH.
  destruct (List.find _ xs); [done |]. unfold mret, M_ret.
  by destruct (_ && _).
Qed.

(** [X20] [refreshAvailableDevices] reads only: whether it returns or throws,
    it leaves the state of the manager as it is and runs no host command. *)
Theorem refresh_changes_nothing w :
  snd (refreshAvailableDevices hostExec w) = w.
Proof.
  unfold refreshAvailableDevices. unfold mbind at 1, M_bind at 1, gets at 1.
  by rewrite refresh_loop.
Qed.

(** [X21] When the strings of every device of the snapshot are cached,
    [refreshAvailableDevices] returns the devices of the snapshot, in
    order, that are not in the passthrough list and whose display string
    does not contain [1d6b]; so no device with the vendor identifier or
    the product identifier [0x1d6b] is offered. *)
Theorem refresh_offers_unlisted_devices w :
  (forall d, d ∈ devices w -> is_Some (deviceStringCache w !! keyOf d)) ->
  exists offered,
    refreshAvailableDevices hostExec w = (inr offered, w)
    /\ sublist offered (devices w)
    /\ (forall d,
          d ∈ offered <->
          d ∈ devices w
          /\ existsb (hasPair (idVendor d) (idProduct d))
                     (passedThroughDevices w) = false
          /\ exists cached,
               deviceStringCache w !! keyOf d = Some cached
               /\ Text.includes LINUX_FOUNDATION_VID (displayCached d cached)
                  = false)
    /\ (forall d, d ∈ offered ->
          idVendor d <> 0x1d6b%N /\ idProduct d <> 0x1d6b%N).
Proof.
  intros Cached. unfold refreshAvailableDevices.
  unfold mbind at 1, M_bind at 1, gets at 1. rewrite refresh_loop.
  destruct (List.find _ (devices w)) as [d0|] eqn:F.
  { apply List.find_some in F as [In Un]. apply list_elem_of_In, Cached in In.
    destruct In as [c Hc]. by rewrite Hc in Un. }
  eexists. split; [reflexivity |].
  set (offer := fun d : Device => _).
  assert (forall d,
            d ∈ List.filter offer (devices w) <->
            d ∈ devices w
            /\ existsb (hasPair (idVendor d) (idProduct d))
                       (passedThroughDevices w) = false
            /\ exists cached,
                 deviceStringCache w !! keyOf d = Some cached
                 /\ Text.includes LINUX_FOUNDATION_VID (displayCached d cached)
                    = false) as Char.
  { intros d. rewrite list_elem_of_In, List.filter_In, <- list_elem_of_In.
    subst offer. cbv beta. split.
    - intros [In O]. split; [done |].
      destruct (deviceStringCache w !! keyOf d) as [cached|]; [| done].
      apply andb_prop in O as [L I].
      apply negb_true_iff in L. apply negb_true_iff in I. eauto.
    - intros (In & L & cached & Hc & I). split; [done |].
      by rewrite Hc, L, I. }
  split; [| split; [exact Char |]].
  - clear. induction (devices w) as [|d l IH]; simpl; [constructor |].
    destruct (offer d); [by apply sublist_skip | by apply sublist_cons].
  - intros d (_ & _ & cached & _ & I)%Char. unfold displayCached in I.
    split; intros E; rewrite E in I;
      match type of I with
      | Text.includes _ (display ?v ?p ?vn ?pn) = false =>
          destruct (display_includes_ids v p vn pn) as [Iv Ip]
      end;
      [change (hex4 7531) with "1d6b" in I, Iv
      | change (hex4 7531) with "1d6b" in I, Ip];
      unfold LINUX_FOUNDATION_VID in I; congruence.
Qed.

(** [X22] When a device of the snapshot has no strings in the cache,
    [refreshAvailableDevices] throws the error of the conversion for the
    first such device, and the list of available devices is not assigned. *)
Theorem refresh_throws_on_uncached_device (before after : list Device)
    (device : Device) w :
  devices w = (before ++ device :: after)%list ->
  (forall d, d ∈ before -> is_Some (deviceStringCache w !! keyOf d)) ->
  deviceStringCache w !! keyOf device = None ->
  refreshAvailableDevices hostExec w
  = (inl (StringsNotInCache (keyOf device)), w).
Proof.
  intros D Cached Miss. unfold refreshAvailableDevices.
  unfold mbind at 1, M_bind at 1, gets at 1. rewrite refresh_loop, D.
  set (uncached := fun d : Device => _).
  assert (List.find uncached (before ++ device :: after)%list = Some device) as F.
  { clear D. induction before as [|d before IH]; simpl.
    - subst uncached. cbv beta. by rewrite Miss.
    - replace (uncached d) with false.
      + apply IH. intros d' Hd. apply Cached. apply elem_of_cons. by right.
      + subst uncached. cbv beta.
        destruct (Cached d) as [c ->]; [apply elem_of_cons; by left | done]. }
  by rewrite F.
Qed.

End ManagerMore.

(** ** The small installation again *)

Module MoreScenarioFacts.
Import JS Scenario.

Lemma last_vendor_line_opens_an_empty_section_witness :
  Loader.readLinuxDeviceDatabase (usbIds ++ String "010" "046D  Logi")
    !! "046d"
  = Some (Vendor.mk "Logi" ∅).
Proof.
  refine (proj1 (LoaderMore.last_vendor_line_opens_an_empty_section
                   usbIds "046D  Logi" "046D" "Logi" "C077  Mouse" "C077" "Mouse"
                   _ _ _ _)).
  - reflexivity.
  - reflexivity.
  - exists "  ", "Logi". repeat split; done.
  - exists "  ", "Mouse". repeat split; done.
Defined.

Lemma parsed_strings_come_from_fields_witness :
  exists text,
    LsusbRule.fieldLine "iManufacturer"
      ("Device Descriptor:" ++ lineFeed
       ++ "  iManufacturer           1 Logitech" ++ lineFeed
       ++ "  iProduct                2 USB Receiver" ++ lineFeed) text
    /\ "Logitech" = trim text.
Proof.
  apply (proj1 (LsusbFacts.parsed_strings_come_from_fields
                  ("Device Descriptor:" ++ lineFeed
                   ++ "  iManufacturer           1 Logitech" ++ lineFeed
                   ++ "  iProduct                2 USB Receiver" ++ lineFeed))
               "Logitech").
  vm_compute. reflexivity.
Defined.

Lemma field_at_the_start_is_read_witness :
  manufacturer
    (Lsusb.parse ("  iManufacturer           0 " ++ lineFeed
                  ++ "  iProduct                2 USB Receiver" ++ lineFeed))
  = Some "iProduct                2 USB Receiver".
Proof.
  refine (proj1 (LsusbFacts.field_at_the_start_is_read
                   "  " "           " "0" (" " ++ lineFeed ++ "  ")
                   "iProduct                2 USB Receiver" lineFeed
                   _ _ _ _ _ _ _ _ _ _ _)); try done.
Defined.

Lemma add_appends_the_record_witness :
  let w := manager usbIds [keyboardRecord] false [receiver] in
  passedThroughDevices
    (snd (addDeviceToPassthroughList Stub.exists_ Stub.add receiver w))
  = [keyboardRecord; receiverRecord].
Proof.
  intros w.
  pose proof (add_appends_the_record Stub.exists_ Stub.add receiver w
                (mkDeviceStrings (Some "Logitech") (Some "Unifying Receiver"))
                ltac:(vm_compute; reflexivity)
                ltac:(vm_compute; reflexivity)) as H.
  cbv zeta in H. apply proj2, proj1 in H.
  etransitivity; [exact H |]. vm_compute. reflexivity.
Defined.

Lemma membership_is_the_duplicate_check_witness :
  let w := manager usbIds [receiverRecord] false [receiver] in
  isDeviceInPassthroughList receiver w = (inr true, w).
Proof.
  intros w.
  pose proof (proj1 (membership_is_the_duplicate_check Stub.exists_ Stub.add
                       receiver w)
                (mkDeviceStrings (Some "Logitech") (Some "Unifying Receiver"))
                ltac:(vm_compute; reflexivity)) as H.
  cbv zeta in H. apply proj1 in H.
  etransitivity; [exact H |]. vm_compute. reflexivity.
Defined.

Lemma add_then_remove_restores_the_list_witness :
  let w := manager usbIds [mkPT 0x1234 1 (mkDeviceStrings None None)] false
                   [receiver] in
  passedThroughDevices
    (snd (removeDeviceFromPassthroughList Stub.exists_ Stub.remove receiverRecord
            (snd (addDeviceToPassthroughList Stub.exists_ Stub.add receiver w))))
  = [mkPT 0x1234 1 (mkDeviceStrings None None)].
Proof.
  intros w.
  pose proof (add_then_remove_restores_the_list Stub.exists_ Stub.add Stub.remove
                receiver w
                (mkDeviceStrings (Some "Logitech") (Some "Unifying Receiver"))
                ltac:(vm_compute; reflexivity)
                ltac:(vm_compute; reflexivity)) as H.
  cbv zeta in H. apply proj2, proj1 in H.
  etransitivity; [exact H |]. vm_compute. reflexivity.
Defined.

Lemma actions_keep_pairs_unique_witness :
  let w := manager usbIds [receiverRecord] true [receiver] in
  uniquePairs
    (passedThroughDevices
       (foldl (fun w a => perform Stub.exists_ Stub.add Stub.remove
                            unreachableHost a w)
              w [CallAdd receiver; HostAttach receiver [receiver]])).
Proof.
  intros w.
  apply (actions_keep_pairs_unique Stub.exists_ Stub.add Stub.remove
           unreachableHost [CallAdd receiver; HostAttach receiver [receiver]] w).
  vm_compute. apply NoDup_singleton.
Defined.

Lemma reachable_states_are_in_sync_witness :
  let w := perform Stub.exists_ Stub.add Stub.remove unreachableHost
             (CallRemove keyboardRecord)
             (manager usbIds [receiverRecord] true [receiver]) in
  ptDevices w = passedThroughDevices w.
Proof.
  intros w.
  exact (proj1 (reachable_states_are_in_sync Stub.exists_ Stub.add Stub.remove
                  unreachableHost w
                  (reachable_perform Stub.exists_ Stub.add Stub.remove
                     unreachableHost (CallRemove keyboardRecord) _
                     (reachable_constructed Stub.exists_ Stub.add Stub.remove
                        unreachableHost usbIds [receiverRecord] true
                        [receiver] tt)))).
Defined.

Lemma record_and_device_display_agree_witness :
  let w := manager usbIds [] false [receiver] in
  exists r,
    convertDeviceToPTSerializable receiver w = (inr r, w)
    /\ stringifyDevice unreachableHost receiver w
       = (inr (stringifyPTSerializableDevice r), w).
Proof.
  intros w.
  exact (record_and_device_display_agree unreachableHost receiver w
           (mkDeviceStrings (Some "Logitech") (Some "Unifying Receiver"))
           ltac:(vm_compute; reflexivity)).
Defined.

Lemma resolution_queries_once_per_missing_name_witness :
  let w := manager usbIds [] false [] in
  execCalls (snd (stringifyDevice unreachableHost (mkDevice 0x1d6b 2) w)) = 2
  /\ execCalls (snd (stringifyDevice unreachableHost (mkDevice 0x046d 0xc077) w))
     = 1.
Proof.
  intros w. split.
  - pose proof (resolution_queries_once_per_missing_name unreachableHost
                  (mkDevice 0x1d6b 2) w ltac:(vm_compute; reflexivity)) as H.
    cbv zeta in H. apply proj1 in H.
    etransitivity; [exact H |]. vm_compute. reflexivity.
  - pose proof (resolution_queries_once_per_missing_name unreachableHost
                  (mkDevice 0x046d 0xc077) w ltac:(vm_compute; reflexivity)) as H.
    cbv zeta in H. apply proj1 in H.
    etransitivity; [exact H |]. vm_compute. reflexivity.
Defined.

Lemma hotplug_refreshes_the_snapshot_witness :
  let w := manager usbIds [receiverRecord] true [] in
  devices (snd (hostAttach Stub.exists_ Stub.add Stub.remove unreachableHost
                  receiver [receiver] w))
  = [receiver].
Proof.
  intros w.
  exact (proj1 (hotplug_refreshes_the_snapshot Stub.exists_ Stub.add Stub.remove
                  unreachableHost receiver [receiver] true w
                  (reachable_constructed Stub.exists_ Stub.add Stub.remove
                     unreachableHost usbIds [receiverRecord] true [] tt))).
Defined.

Lemma refresh_offers_unlisted_devices_witness :
  let w := manager usbIds [] false [receiver; mkDevice 0x1d6b 2] in
  refreshAvailableDevices unreachableHost w = (inr [receiver], w).
Proof.
  intros w.
  assert (devices w = [receiver; mkDevice 0x1d6b 2]) as D
    by (vm_compute; reflexivity).
  assert (forall d, d ∈ devices w -> is_Some (deviceStringCache w !! keyOf d))
    as Cached.
  { intros d Hd. rewrite D in Hd.
    apply elem_of_cons in Hd as [->|Hd]; [vm_compute; eauto |].
    apply list_elem_of_singleton in Hd as ->. vm_compute. eauto. }
  destruct (refresh_offers_unlisted_devices unreachableHost w Cached)
    as (offered & E & _).
  etransitivity; [exact E |].
  apply (f_equal fst) in E. vm_compute in E. injection E as <-. reflexivity.
Defined.

Lemma refresh_throws_on_uncached_device_witness :
  let w := perform Stub.exists_ Stub.add Stub.remove unreachableHost
             (HostAttach receiver [receiver; mkDevice 0x1d6b 2])
             (manager usbIds [] false []) in
  refreshAvailableDevices unreachableHost w
  = (inl (StringsNotInCache "1d6b:0002"), w).
Proof.
  intros w.
  apply (refresh_throws_on_uncached_device unreachableHost [receiver] []
           (mkDevice 0x1d6b 2) w).
  - vm_compute. reflexivity.
  - intros d ->%list_elem_of_singleton. vm_compute. eauto.
  - vm_compute. reflexivity.
Defined.

End MoreScenarioFacts.
